(** * Education website: the content store and its admin handlers

    A shallow embedding of [db.js] (the SQLite schema) and of the Express
    handlers of the server: pages made of ordered blocks, users, and the
    JSON payload of a block.  A table is the list of its rows in rowid
    order; a handler is a function from the database (and the request) to
    the database after it and the response it writes. *)

From Stdlib Require Import ZArith List String Ascii Bool Lia Permutation Sorted.
From Stdlib Require Import Decimal DecimalString.
From Stdlib Require DecimalPos.
Import ListNotations.
Local Open Scope string_scope.
Local Open Scope list_scope.
Local Open Scope Z_scope.

(** ** JavaScript values the handlers meet *)

(** A field of [req.body]: [undefined] when the form did not send it. *)
Definition field := option string.

(** [!x] is false exactly for a non-empty string. *)
Definition truthy (x : field) : bool :=
  match x with
  | Some s => negb (s =? "")%string
  | None => false
  end.

(** [x || d] for a field [x] and a string [d]. *)
Definition js_or (x : field) (d : string) : string :=
  match x with
  | Some s => if (s =? "")%string then d else s
  | None => d
  end.

(** [c || 0] for a number. *)
Definition js_or_num (c d : Z) : Z := if c =? 0 then d else c.

(** Template literal [`${n}`] of an integer. *)
Definition string_of_Z (n : Z) : string := NilZero.string_of_int (Z.to_int n).

Definition is_digit (c : ascii) : bool :=
  let n := N_of_ascii c in (48 <=? n)%N && (n <=? 57)%N.

Definition digit_value (c : ascii) : N := (N_of_ascii c - 48)%N.

(** The longest prefix of decimal digits of [s]: its value on top of [acc],
    how many digits were read on top of [n], and the rest. *)
Fixpoint digits (s : string) (acc : N) (n : nat) : N * nat * string :=
  match s with
  | String c r =>
      if is_digit c then digits r (10 * acc + digit_value c)%N (S n)
      else (acc, n, s)
  | EmptyString => (acc, n, s)
  end.

(** White space that [parseInt] skips (the ASCII part of StrWhiteSpaceChar):
    TAB, LF, VT, FF, CR and SP. *)
Definition js_space (c : ascii) : bool :=
  let n := N_of_ascii c in ((9 <=? n)%N && (n <=? 13)%N) || (n =? 32)%N.

Fixpoint skip (p : ascii -> bool) (s : string) : string :=
  match s with
  | String c r => if p c then skip p r else s
  | EmptyString => s
  end.

(** An optional sign: [true] for a minus. *)
Definition sign (s : string) : bool * string :=
  match s with
  | String c r =>
      if (c =? "-")%char then (true, r)
      else if (c =? "+")%char then (false, r)
      else (false, s)
  | EmptyString => (false, s)
  end.

Definition signed (neg : bool) (m : N) : Z :=
  if neg then - Z.of_N m else Z.of_N m.

(** [parseInt(s, 10)]: leading white space, a sign, then the longest run of
    digits; whatever follows is ignored.  [None] is NaN. *)
Definition parseInt (s : string) : option Z :=
  let (neg, s1) := sign (skip js_space s) in
  let '(m, n, _) := digits s1 0%N O in
  match n with
  | O => None
  | S _ => Some (signed neg m)
  end.

(** ** Rows of the four tables ([initDb]) *)

Module User.
Record row := mk {
  id : Z;
  username : string;
  password_hash : string;
  role : string;
  created_at : string }.
End User.

Module Page.
Record row := mk {
  id : Z;
  title : string;
  slug : string;
  audience : string;
  status : string;
  created_at : string;
  updated_at : string }.
End Page.

Module Block.
Record row := mk {
  id : Z;
  page_id : Z;
  type : string;
  data_json : string;
  position : Z;
  created_at : string;
  updated_at : string }.

(** [UPDATE blocks SET position=?, updated_at=?] on one row. *)
Definition set_position (p : Z) (t : string) (b : row) : row :=
  mk (id b) (page_id b) (type b) (data_json b) p (created_at b) t.

(** [UPDATE blocks SET data_json=?, updated_at=?] on one row. *)
Definition set_data_json (d : string) (t : string) (b : row) : row :=
  mk (id b) (page_id b) (type b) d (position b) (created_at b) t.
End Block.

(** ** The SQLite database

    The tables, the [sqlite_sequence] counters of the AUTOINCREMENT keys,
    and the connection's [foreign_keys] pragma. *)

Record database := mk_database {
  users : list User.row;
  pages : list Page.row;
  blocks : list Block.row;
  seq_users : Z;
  seq_pages : Z;
  seq_blocks : Z;
  foreign_keys : bool }.

Definition with_users (db : database) (us : list User.row) (s : Z) : database :=
  mk_database us (pages db) (blocks db) s (seq_pages db) (seq_blocks db)
    (foreign_keys db).

Definition with_pages (db : database) (ps : list Page.row) (s : Z) : database :=
  mk_database (users db) ps (blocks db) (seq_users db) s (seq_blocks db)
    (foreign_keys db).

Definition with_blocks (db : database) (bs : list Block.row) (s : Z) : database :=
  mk_database (users db) (pages db) bs (seq_users db) (seq_pages db) s
    (foreign_keys db).

(** A database file that holds nothing yet. *)
Definition fresh_file : database := mk_database [] [] [] 0 0 0 false.

(** [openDb]: a connection on the file.  No statement of the program sets
    [PRAGMA foreign_keys], so the connection keeps SQLite's default: foreign
    keys are not enforced. *)
Definition openDb (file : database) : database :=
  mk_database (users file) (pages file) (blocks file)
    (seq_users file) (seq_pages file) (seq_blocks file) false.

(** [initDb]: [openDb], then the four [CREATE TABLE IF NOT EXISTS], which
    make the empty tables of a fresh file and leave those of another as they
    are. *)
Definition initDb (file : database) : database := openDb file.

Inductive sql_error :=
| SQLITE_CONSTRAINT_NOTNULL (column : string)
| SQLITE_CONSTRAINT_CHECK (column : string)
| SQLITE_CONSTRAINT_UNIQUE (column : string)
| SQLITE_CONSTRAINT_FOREIGNKEY.

(** The key AUTOINCREMENT gives the next row: one more than the largest key
    the table holds or has ever held. *)
Definition next_rowid (seq : Z) (ids : list Z) : Z :=
  Z.max seq (fold_right Z.max 0 ids) + 1.

Definition mem_string (s : string) (l : list string) : bool :=
  existsb (String.eqb s) l.

(** *** Text compared with an INTEGER column

    [WHERE id=?] receives the route parameter as TEXT.  SQLite applies
    NUMERIC affinity to it: a text that is a well-formed integer or real
    literal (white space around it allowed) is compared as the number it
    denotes, any other text equals no integer.  The literal is evaluated
    exactly here; SQLite evaluates one with a fraction or an exponent in
    double precision, which gives the same integer for literals of up to 15
    significant digits. *)

(** [sqlite3Isspace]: TAB, LF, VT, FF, CR and SP. *)
Definition sqlite_space (c : ascii) : bool :=
  let n := N_of_ascii c in ((9 <=? n)%N && (n <=? 13)%N) || (n =? 32)%N.

(** The exponent part of a real literal, [0] when there is none; [None] for
    an [e] that no digit follows. *)
Definition exponent (s : string) : option (Z * string) :=
  match s with
  | String c r =>
      if ((c =? "e") || (c =? "E"))%char then
        let (neg, r1) := sign r in
        let '(e, n, r2) := digits r1 0%N O in
        match n with
        | O => None
        | S _ => Some (signed neg e, r2)
        end
      else Some (0, s)
  | EmptyString => Some (0, s)
  end.

Definition text_to_integer (s : string) : option Z :=
  let (neg, s1) := sign (skip sqlite_space s) in
  let '(m1, n1, s2) := digits s1 0%N O in
  let '(m, n2, s3) :=
    match s2 with
    | String c r => if (c =? ".")%char then digits r m1 O else (m1, O, s2)
    | EmptyString => (m1, O, s2)
    end in
  match (n1 + n2)%nat with
  | O => None
  | S _ =>
      match exponent s3 with
      | None => None
      | Some (e, s4) =>
          match skip sqlite_space s4 with
          | EmptyString =>
              let e' := e - Z.of_nat n2 in
              if 0 <=? e' then Some (signed neg m * 10 ^ e')
              else if (Z.of_N m mod 10 ^ (- e') =? 0)
                   then Some (signed neg m / 10 ^ (- e'))
                   else None
          | String _ _ => None
          end
      end
  end.

(** [id = ?] with the parameter bound as TEXT. *)
Definition id_eq (param : string) (id : Z) : bool :=
  match text_to_integer param with
  | Some n => n =? id
  | None => false
  end.

(** *** Statements on [blocks] *)

Definition block_types : list string :=
  ["text"; "image"; "video"; "callout"; "quiz"].

(** [SELECT * FROM blocks WHERE id=?] *)
Definition select_block (db : database) (param : string) : option Block.row :=
  find (fun b => id_eq param (Block.id b)) (blocks db).

Definition of_page (page_id : Z) (b : Block.row) : bool :=
  Block.page_id b =? page_id.

(** [ORDER BY]: an insertion sort, so that rows of equal key stay in rowid
    order (SQLite leaves their order open). *)
Fixpoint insert_by {A : Type} (le : A -> A -> bool) (x : A) (l : list A) : list A :=
  match l with
  | [] => [x]
  | y :: r => if le x y then x :: l else y :: insert_by le x r
  end.

Definition order_by {A : Type} (le : A -> A -> bool) (l : list A) : list A :=
  fold_right (insert_by le) [] l.

(** [ORDER BY position ASC] *)
Definition position_asc (b c : Block.row) : bool :=
  Block.position b <=? Block.position c.

Definition order_by_position : list Block.row -> list Block.row :=
  order_by position_asc.

(** [SELECT * FROM blocks WHERE page_id=? ORDER BY position ASC] *)
Definition select_blocks_of_page (db : database) (page_id : Z) : list Block.row :=
  order_by_position (filter (of_page page_id) (blocks db)).

(** [SELECT COUNT( * ) as c FROM blocks WHERE page_id=?] *)
Definition count_blocks_of_page (db : database) (page_id : Z) : Z :=
  Z.of_nat (List.length (filter (of_page page_id) (blocks db))).

(** [INSERT INTO blocks (page_id, type, data_json, position, created_at,
    updated_at) VALUES (?,?,?,?,?,?)] *)
Definition insert_block (db : database) (page_id : Z) (type : field)
    (data_json : string) (position : Z) (t : string) : sql_error + database :=
  match type with
  | None => inl (SQLITE_CONSTRAINT_NOTNULL "type")
  | Some ty =>
      if negb (mem_string ty block_types) then inl (SQLITE_CONSTRAINT_CHECK "type")
      else if foreign_keys db
              && negb (existsb (fun p => Page.id p =? page_id) (pages db))
      then inl SQLITE_CONSTRAINT_FOREIGNKEY
      else
        let id := next_rowid (seq_blocks db) (map Block.id (blocks db)) in
        inr (with_blocks db
               (blocks db ++ [Block.mk id page_id ty data_json position t t]) id)
  end.

(** [UPDATE blocks SET position=?, updated_at=? WHERE id=?] with a numeric
    key. *)
Definition update_block_position (db : database) (position : Z) (t : string)
    (id : Z) : database :=
  with_blocks db
    (map (fun b => if Block.id b =? id then Block.set_position position t b else b)
       (blocks db))
    (seq_blocks db).

(** [UPDATE blocks SET data_json=?, updated_at=? WHERE id=?] *)
Definition update_block_data_json (db : database) (data_json : string)
    (t : string) (id : Z) : database :=
  with_blocks db
    (map (fun b => if Block.id b =? id then Block.set_data_json data_json t b else b)
       (blocks db))
    (seq_blocks db).

(** [DELETE FROM blocks WHERE id=?] with a numeric key. *)
Definition delete_block (db : database) (id : Z) : database :=
  with_blocks db (filter (fun b => negb (Block.id b =? id)) (blocks db))
    (seq_blocks db).

(** *** Statements on [pages] *)

Definition audiences : list string := ["junior"; "undergrad"; "general"].
Definition statuses : list string := ["draft"; "published"].

(** [SELECT * FROM pages WHERE id=?] *)
Definition select_page (db : database) (param : string) : option Page.row :=
  find (fun p => id_eq param (Page.id p)) (pages db).

(** [SELECT * FROM pages WHERE id=?] with a numeric key ([block.page_id]). *)
Definition select_page_by_key (db : database) (id : Z) : option Page.row :=
  find (fun p => Page.id p =? id) (pages db).

(** [SELECT * FROM pages WHERE slug=? AND status='published'] *)
Definition select_published_page (db : database) (slug : string) : option Page.row :=
  find (fun p => (Page.slug p =? slug)%string && (Page.status p =? "published")%string)
    (pages db).

(** [INSERT INTO pages (title, slug, audience, status, created_at, updated_at)
    VALUES (?,?,?,?,?,?)] *)
Definition insert_page (db : database) (title slug audience status t : string)
    : sql_error + database :=
  if negb (mem_string audience audiences) then inl (SQLITE_CONSTRAINT_CHECK "audience")
  else if negb (mem_string status statuses) then inl (SQLITE_CONSTRAINT_CHECK "status")
  else if existsb (fun p => (Page.slug p =? slug)%string) (pages db)
  then inl (SQLITE_CONSTRAINT_UNIQUE "slug")
  else
    let id := next_rowid (seq_pages db) (map Page.id (pages db)) in
    inr (with_pages db (pages db ++ [Page.mk id title slug audience status t t]) id).

(** [UPDATE pages SET title=?, slug=?, audience=?, status=?, updated_at=?
    WHERE id=?].  The key is unique, so at most one row is updated; the new
    slug must not be that of another row. *)
Definition update_page (db : database) (title slug audience status t : string)
    (param : string) : sql_error + database :=
  if negb (existsb (fun p => id_eq param (Page.id p)) (pages db)) then inr db
  else if negb (mem_string audience audiences) then inl (SQLITE_CONSTRAINT_CHECK "audience")
  else if negb (mem_string status statuses) then inl (SQLITE_CONSTRAINT_CHECK "status")
  else if existsb (fun p => negb (id_eq param (Page.id p)) && (Page.slug p =? slug)%string)
            (pages db)
  then inl (SQLITE_CONSTRAINT_UNIQUE "slug")
  else
    inr (with_pages db
           (map (fun p =>
                   if id_eq param (Page.id p)
                   then Page.mk (Page.id p) title slug audience status
                          (Page.created_at p) t
                   else p)
              (pages db))
           (seq_pages db)).

(** [DELETE FROM pages WHERE id=?].  The schema declares
    [FOREIGN KEY(page_id) REFERENCES pages(id) ON DELETE CASCADE] on [blocks];
    SQLite acts on it only on a connection whose [foreign_keys] pragma is on. *)
Definition delete_page (db : database) (param : string) : database :=
  let deleted (id : Z) := id_eq param id && existsb (fun p => Page.id p =? id) (pages db) in
  mk_database (users db)
    (filter (fun p => negb (id_eq param (Page.id p))) (pages db))
    (if foreign_keys db
     then filter (fun b => negb (deleted (Block.page_id b))) (blocks db)
     else blocks db)
    (seq_users db) (seq_pages db) (seq_blocks db) (foreign_keys db).

(** *** Statements on [users] *)

Module UserListing.
Record row := mk {
  id : Z;
  username : string;
  role : string;
  created_at : string }.
End UserListing.

Definition roles : list string := ["admin"; "editor"].

(** [SELECT * FROM users WHERE username=?]; an [undefined] parameter is bound
    as NULL, which equals no username. *)
Definition select_user_by_username (db : database) (username : field)
    : option User.row :=
  match username with
  | Some u => find (fun r => (User.username r =? u)%string) (users db)
  | None => None
  end.

Definition created_at_desc (u v : User.row) : bool :=
  (User.created_at v <=? User.created_at u)%string.

(** [SELECT id, username, role, created_at FROM users ORDER BY created_at DESC] *)
Definition select_users (db : database) : list UserListing.row :=
  map (fun u => UserListing.mk (User.id u) (User.username u) (User.role u)
                  (User.created_at u))
    (order_by created_at_desc (users db)).

(** [INSERT INTO users (username, password_hash, role, created_at)
    VALUES (?,?,?,?)] *)
Definition insert_user (db : database) (username password_hash role t : string)
    : sql_error + database :=
  if negb (mem_string role roles) then inl (SQLITE_CONSTRAINT_CHECK "role")
  else if existsb (fun u => (User.username u =? username)%string) (users db)
  then inl (SQLITE_CONSTRAINT_UNIQUE "username")
  else
    let id := next_rowid (seq_users db) (map User.id (users db)) in
    inr (with_users db (users db ++ [User.mk id username password_hash role t]) id).

(** [DELETE FROM users WHERE id=?] *)
Definition delete_user (db : database) (param : string) : database :=
  with_users db (filter (fun u => negb (id_eq param (User.id u))) (users db))
    (seq_users db).

(** ** JSON values, [JSON.stringify] and [JSON.parse]

    A JavaScript value that JSON can carry.  A string is the sequence of the
    bytes of its UTF-8 encoding, which is what SQLite stores as TEXT (a
    string with a lone surrogate has no such encoding and is outside the
    model).  The numbers of the model are the integers, which a double holds
    exactly below 2^53: the payloads hold one number, the answer index of a
    quiz question.  An object is the list of its own properties in property
    order. *)

Module JSON.

#[warnings="-register-all"]
Inductive value :=
| Null
| Bool (b : bool)
| Num (n : Z)
| Str (s : string)
| Arr (l : list value)
| Obj (l : list (string * value)).

(** Own property [k] of [v]; [None] is [undefined], also on a value that is
    no object. *)
Definition get (v : value) (k : string) : option value :=
  match v with
  | Obj l => option_map snd (find (fun kv => (fst kv =? k)%string) l)
  | _ => None
  end.

(** [Array.isArray(v.k)] *)
Definition isArray (v : option value) : bool :=
  match v with
  | Some (Arr _) => true
  | _ => false
  end.

(** JavaScript truthiness of a parsed value. *)
Definition truthy (v : value) : bool :=
  match v with
  | Null => false
  | Bool b => b
  | Num n => negb (n =? 0)
  | Str s => negb (s =? "")%string
  | Arr _ => true
  | Obj _ => true
  end.

(** *** [JSON.stringify] without indentation (ECMA-262, SerializeJSONProperty) *)

Definition dquote : ascii := ascii_of_N 34.
Definition backslash : ascii := ascii_of_N 92.

Definition hex_digit (n : N) : ascii :=
  ascii_of_N (if (n <? 10)%N then 48 + n else 87 + n)%N.

(** QuoteJSONString on one character. *)
Definition quote_char (c : ascii) : string :=
  let n := N_of_ascii c in
  if (n =? 34)%N then String backslash (String dquote "")
  else if (n =? 92)%N then String backslash (String backslash "")
  else if (n =? 8)%N then String backslash "b"
  else if (n =? 12)%N then String backslash "f"
  else if (n =? 10)%N then String backslash "n"
  else if (n =? 13)%N then String backslash "r"
  else if (n =? 9)%N then String backslash "t"
  else if (n <? 32)%N then
    String backslash
      (String "u" (String "0" (String "0"
         (String (hex_digit (n / 16)) (String (hex_digit (n mod 16)) "")))))
  else String c "".

Fixpoint quote_chars (s : string) : string :=
  match s with
  | EmptyString => EmptyString
  | String c r => (quote_char c ++ quote_chars r)%string
  end.

Definition quote (s : string) : string :=
  String dquote (quote_chars s ++ String dquote "")%string.

Fixpoint stringify (v : value) : string :=
  match v with
  | Null => "null"
  | Bool true => "true"
  | Bool false => "false"
  | Num n => string_of_Z n
  | Str s => quote s
  | Arr l =>
      let fix elements (l : list value) : string :=
        match l with
        | [] => ""
        | x :: r =>
            (stringify x ++
             match r with
             | [] => ""
             | _ :: _ => String "," (elements r)
             end)%string
        end in
      String "[" (elements l ++ "]")%string
  | Obj l =>
      let fix members (l : list (string * value)) : string :=
        match l with
        | [] => ""
        | (k, x) :: r =>
            (quote k ++ String ":" (stringify x) ++
             match r with
             | [] => ""
             | _ :: _ => String "," (members r)
             end)%string
        end in
      String "{" (members l ++ "}")%string
  end.

(** *** [JSON.parse] (ECMA-262, the JSON grammar)

    A reference reader for the texts of the model.  A number literal with a
    fraction or an exponent denotes a double and a [\u] escape of a lone
    surrogate denotes no UTF-8 string: the reader does not read them.  The
    handlers below do not depend on it; they take the parser of the platform
    as a parameter. *)

(** JSON white space: TAB, LF, CR and SP. *)
Definition ws (c : ascii) : bool :=
  let n := N_of_ascii c in
  (n =? 9)%N || (n =? 10)%N || (n =? 13)%N || (n =? 32)%N.

Definition hex_value (c : ascii) : option N :=
  let n := N_of_ascii c in
  if (48 <=? n)%N && (n <=? 57)%N then Some (n - 48)%N
  else if (97 <=? n)%N && (n <=? 102)%N then Some (n - 87)%N
  else if (65 <=? n)%N && (n <=? 70)%N then Some (n - 55)%N
  else None.

Definition hex4 (a b c d : ascii) : option N :=
  match hex_value a, hex_value b, hex_value c, hex_value d with
  | Some x, Some y, Some z, Some w => Some (((x * 16 + y) * 16 + z) * 16 + w)%N
  | _, _, _, _ => None
  end.

(** The character a one-letter escape stands for. *)
Definition unescape (e : ascii) : option ascii :=
  let n := N_of_ascii e in
  if (n =? 34)%N then Some dquote
  else if (n =? 92)%N then Some backslash
  else if (n =? 47)%N then Some "/"%char
  else if (n =? 98)%N then Some (ascii_of_N 8)
  else if (n =? 102)%N then Some (ascii_of_N 12)
  else if (n =? 110)%N then Some (ascii_of_N 10)
  else if (n =? 114)%N then Some (ascii_of_N 13)
  else if (n =? 116)%N then Some (ascii_of_N 9)
  else None.

(** The UTF-8 encoding of a code point. *)
Definition utf8 (cp : N) : string :=
  let byte (n : N) := ascii_of_N n in
  (if cp <? 128 then String (byte cp) ""
   else if cp <? 2048 then
     String (byte (192 + cp / 64)) (String (byte (128 + cp mod 64)) "")
   else if cp <? 65536 then
     String (byte (224 + cp / 4096))
       (String (byte (128 + (cp / 64) mod 64)) (String (byte (128 + cp mod 64)) ""))
   else
     String (byte (240 + cp / 262144))
       (String (byte (128 + (cp / 4096) mod 64))
          (String (byte (128 + (cp / 64) mod 64))
             (String (byte (128 + cp mod 64)) ""))))%N.

Definition prepend (s : string) (r : option (string * string))
    : option (string * string) :=
  match r with
  | Some (x, rest) => Some ((s ++ x)%string, rest)
  | None => None
  end.

(** The characters of a string literal after its opening quote, up to the
    closing one, and the text after it.  A [\u] escape names a UTF-16 code
    unit; a high surrogate must be followed by the escape of a low one, and
    the two name one code point. *)
Fixpoint parse_string (s : string) : option (string * string) :=
  match s with
  | EmptyString => None
  | String c r =>
      let n := N_of_ascii c in
      if (n =? 34)%N then Some (EmptyString, r)
      else if (n =? 92)%N then
        match r with
        | EmptyString => None
        | String e r1 =>
            if (e =? "u")%char then
              match r1 with
              | String h1 (String h2 (String h3 (String h4 r2))) =>
                  match hex4 h1 h2 h3 h4 with
                  | Some code =>
                      if (code <? 55296)%N || (57343 <? code)%N
                      then prepend (utf8 code) (parse_string r2)
                      else if (code <? 56320)%N then
                        match r2 with
                        | String b (String u (String l1 (String l2 (String l3
                            (String l4 r3))))) =>
                            if (b =? backslash)%char && (u =? "u")%char then
                              match hex4 l1 l2 l3 l4 with
                              | Some low =>
                                  if (56320 <=? low)%N && (low <=? 57343)%N
                                  then
                                    prepend
                                      (utf8 (65536 + (code - 55296) * 1024
                                             + (low - 56320))%N)
                                      (parse_string r3)
                                  else None
                              | None => None
                              end
                            else None
                        | _ => None
                        end
                      else None
                  | None => None
                  end
              | _ => None
              end
            else
              match unescape e with
              | Some c' => prepend (String c' "") (parse_string r1)
              | None => None
              end
        end
      else if (n <? 32)%N then None
      else prepend (String c "") (parse_string r)
  end.

(** The digits at the head of [s], as a decimal numeral. *)
Fixpoint read_uint (s : string) : uint * string :=
  match s with
  | String c r =>
      if is_digit c then
        let (d, rest) := read_uint r in
        (match digit_value c with
         | 0 => D0 d | 1 => D1 d | 2 => D2 d | 3 => D3 d | 4 => D4 d
         | 5 => D5 d | 6 => D6 d | 7 => D7 d | 8 => D8 d | _ => D9 d
         end%N, rest)
      else (Nil, s)
  | EmptyString => (Nil, s)
  end.

(** May the text after an integer literal follow a number?  A fraction or an
    exponent makes the literal a real. *)
Definition ends_integer (rest : string) : bool :=
  match rest with
  | String c _ => negb ((c =? ".") || (c =? "e") || (c =? "E"))%char
  | EmptyString => true
  end.

(** The digits of an integer literal: [0], or digits that do not start
    with [0]. *)
Definition parse_unsigned (s : string) : option (N * string) :=
  let (d, rest) := read_uint s in
  match d with
  | Nil => None
  | D0 (D0 _ | D1 _ | D2 _ | D3 _ | D4 _ | D5 _ | D6 _ | D7 _ | D8 _ | D9 _) => None
  | _ => if ends_integer rest then Some (N.of_uint d, rest) else None
  end.

(** An integer literal: an optional minus, then the digits. *)
Definition parse_number (s : string) : option (Z * string) :=
  match s with
  | String c r =>
      if (c =? "-")%char
      then
        match parse_unsigned r with
        | Some (n, rest) => Some (- Z.of_N n, rest)
        | None => None
        end
      else
        match parse_unsigned s with
        | Some (n, rest) => Some (Z.of_N n, rest)
        | None => None
        end
  | EmptyString => None
  end.

(** The rest of [s] after the word [w], when [s] starts with it. *)
Fixpoint expect (w s : string) : option string :=
  match w with
  | EmptyString => Some s
  | String a w' =>
      match s with
      | String b s' => if (a =? b)%char then expect w' s' else None
      | EmptyString => None
      end
  end.

(** Is [k] an array index (a canonical numeral below 2^32 - 1)?  Such keys
    come first in property order, in ascending order. *)
Definition array_index (k : string) : option N :=
  let '(m, n, rest) := digits k 0%N O in
  match n, rest with
  | S _, EmptyString =>
      if (NilZero.string_of_uint (N.to_uint m) =? k)%string && (m <? 4294967295)%N
      then Some m else None
  | _, _ => None
  end.

(** Insertion of a new key at its place in property order. *)
Fixpoint add_property (l : list (string * value)) (k : string) (v : value)
    : list (string * value) :=
  match l with
  | [] => [(k, v)]
  | (k', v') :: r =>
      match array_index k, array_index k' with
      | Some i, Some i' =>
          if (i <? i')%N then (k, v) :: l else (k', v') :: add_property r k v
      | Some _, None => (k, v) :: l
      | None, _ => (k', v') :: add_property r k v
      end
  end.

(** CreateDataProperty: a key already there keeps its place and takes the
    new value. *)
Definition set_property (l : list (string * value)) (k : string) (v : value)
    : list (string * value) :=
  if existsb (fun kv => (fst kv =? k)%string) l
  then map (fun kv => if (fst kv =? k)%string then (k, v) else kv) l
  else add_property l k v.

Fixpoint parse_value (fuel : nat) (s : string) : option (value * string) :=
  match fuel with
  | O => None
  | S fuel =>
      match skip ws s with
      | EmptyString => None
      | String c r =>
          if (c =? "n")%char then option_map (pair Null) (expect "ull" r)
          else if (c =? "t")%char then option_map (pair (Bool true)) (expect "rue" r)
          else if (c =? "f")%char then option_map (pair (Bool false)) (expect "alse" r)
          else if (c =? dquote)%char then
            match parse_string r with
            | Some (str, rest) => Some (Str str, rest)
            | None => None
            end
          else if (c =? "[")%char then
            match skip ws r with
            | EmptyString => None
            | String c1 r1 =>
                if (c1 =? "]")%char then Some (Arr [], r1)
                else
                  match parse_elements fuel r with
                  | Some (l, rest) => Some (Arr l, rest)
                  | None => None
                  end
            end
          else if (c =? "{")%char then
            match skip ws r with
            | EmptyString => None
            | String c1 r1 =>
                if (c1 =? "}")%char then Some (Obj [], r1)
                else
                  match parse_members fuel r [] with
                  | Some (l, rest) => Some (Obj l, rest)
                  | None => None
                  end
            end
          else
            match parse_number (String c r) with
            | Some (n, rest) => Some (Num n, rest)
            | None => None
            end
      end
  end

with parse_elements (fuel : nat) (s : string) : option (list value * string) :=
  match fuel with
  | O => None
  | S fuel =>
      match parse_value fuel s with
      | None => None
      | Some (v, r) =>
          match skip ws r with
          | EmptyString => None
          | String c r1 =>
              if (c =? ",")%char then
                match parse_elements fuel r1 with
                | Some (l, rest) => Some (v :: l, rest)
                | None => None
                end
              else if (c =? "]")%char then Some ([v], r1)
              else None
          end
      end
  end

with parse_members (fuel : nat) (s : string) (acc : list (string * value))
    : option (list (string * value) * string) :=
  match fuel with
  | O => None
  | S fuel =>
      match skip ws s with
      | EmptyString => None
      | String q r =>
          if negb (q =? dquote)%char then None
          else
            match parse_string r with
            | None => None
            | Some (k, r1) =>
                match skip ws r1 with
                | EmptyString => None
                | String colon r2 =>
                    if negb (colon =? ":")%char then None
                    else
                      match parse_value fuel r2 with
                      | None => None
                      | Some (v, r3) =>
                          let acc' := set_property acc k v in
                          match skip ws r3 with
                          | EmptyString => None
                          | String c r4 =>
                              if (c =? ",")%char then parse_members fuel r4 acc'
                              else if (c =? "}")%char then Some (acc', r4)
                              else None
                          end
                      end
                end
            end
      end
  end.

(** [JSON.parse(s)]: [None] when it throws a SyntaxError.  The fuel bounds
    the depth of the calls of the reader, which the length of the text
    exceeds. *)
Definition parse (s : string) : option value :=
  match parse_value (S (String.length s)) s with
  | Some (v, rest) =>
      match skip ws rest with
      | EmptyString => Some v
      | String _ _ => None
      end
  | None => None
  end.

End JSON.

(** ** Requests and responses *)

Module Session.
(** [req.session.user] *)
Record user := mk {
  id : Z;
  username : string;
  role : string }.
End Session.

(** What makes the promise of an async handler reject: Express 4 then writes
    no response. *)
Inductive exception :=
| SqliteError (e : sql_error)
| IllegalArguments
| TypeError.

(** [{ ...b, data: parseJsonSafe(b.data_json, {}) }] *)
Record rendered_block := mk_rendered {
  block : Block.row;
  data : JSON.value }.

(** The views and the locals each is rendered with. *)
Inductive view :=
| public_page (page : Page.row) (blocks : list rendered_block)
    (user : option Session.user)
| public_notfound (user : option Session.user)
| admin_login (error : option string)
| admin_page_form (user : Session.user) (page : option Page.row)
    (error : option string)
| admin_blocks (user : Session.user) (page : Page.row)
    (blocks : list rendered_block)
| admin_block_edit (user : Session.user) (page : option Page.row)
    (block : Block.row) (data : JSON.value) (error : option string)
| admin_users (user : Session.user) (users : list UserListing.row)
    (error : option string).

Inductive response :=
| redirect (url : string)
| render (status : Z) (v : view)
| send (status : Z) (body : string)
| rejected (e : exception).

(** [req.body] of the block editor: the value posted under each name. *)
Definition form := string -> field.

(** [x === "s"] for a field. *)
Definition field_is (x : field) (s : string) : bool :=
  match x with
  | Some y => (y =? s)%string
  | None => false
  end.

(** [x || y] between two fields. *)
Definition js_or_field (x y : field) : field := if truthy x then x else y.

(** [blocks.findIndex(p)], -1 when no element satisfies [p]. *)
Fixpoint findIndex {A : Type} (p : A -> bool) (l : list A) : Z :=
  match l with
  | [] => -1
  | x :: r =>
      if p x then 0
      else let i := findIndex p r in if i =? -1 then -1 else i + 1
  end.

Definition blocks_url (page_id : Z) : string :=
  ("/admin/pages/" ++ string_of_Z page_id ++ "/blocks")%string.

Definition requireAuth (session : option Session.user) (db : database)
    (next : Session.user -> database * response) : database * response :=
  match session with
  | None => (db, redirect "/admin/login")
  | Some user => next user
  end.

Definition requireAdmin (session : option Session.user) (db : database)
    (next : Session.user -> database * response) : database * response :=
  match session with
  | None => (db, redirect "/admin/login")
  | Some user =>
      if negb (Session.role user =? "admin")%string
      then (db, send 403 "Forbidden: admin only")
      else next user
  end.

(** The seed content of a new block ([POST /admin/pages/:id/blocks/add]). *)
Definition default_data (type : field) : JSON.value :=
  let data := JSON.Obj [] in
  let data :=
    if field_is type "text"
    then JSON.Obj [("heading", JSON.Str ""); ("body", JSON.Str "")] else data in
  let data :=
    if field_is type "image"
    then JSON.Obj [("heading", JSON.Str ""); ("imageUrl", JSON.Str "");
                   ("caption", JSON.Str "")] else data in
  let data :=
    if field_is type "video"
    then JSON.Obj [("heading", JSON.Str ""); ("mode", JSON.Str "youtube");
                   ("youtubeUrl", JSON.Str ""); ("mp4Url", JSON.Str "");
                   ("caption", JSON.Str "")] else data in
  let data :=
    if field_is type "callout"
    then JSON.Obj [("kind", JSON.Str "Key idea"); ("body", JSON.Str "")] else data in
  let data :=
    if field_is type "quiz"
    then JSON.Obj
           [("title", JSON.Str "Quick Quiz");
            ("questions",
             JSON.Arr
               [JSON.Obj
                  [("q", JSON.Str "Sample question 1?");
                   ("options",
                    JSON.Arr [JSON.Str "A"; JSON.Str "B"; JSON.Str "C"; JSON.Str "D"]);
                   ("answer", JSON.Num 0)]])]
    else data in
  data.

(** The loop of [POST /admin/blocks/:blockId/delete]: row [i] of the listing
    takes position [i + 1]. *)
Fixpoint renumber (db : database) (now : nat -> string) (i : nat)
    (bs : list Block.row) : database :=
  match bs with
  | [] => db
  | b :: r =>
      renumber (update_block_position db (Z.of_nat i + 1) (now i) (Block.id b))
        now (S i) r
  end.

Section Server.

(** The collaborators of the server. *)

(** [slugify(input, { lower: true, strict: true, trim: true })] *)
Variable slugify : string -> string.
(** [bcrypt.hash(password, 10)], with the salt it draws. *)
Variable bcrypt_hash : string -> string.
(** [bcrypt.compare(password, hash)] on two strings. *)
Variable bcrypt_compare : string -> string -> bool.
(** [JSON.parse]: [None] when it throws. *)
Variable JSON_parse : string -> option JSON.value.
Variable JSON_stringify : JSON.value -> string.

(** The clock: [now k] is what the call number [k] of [nowIso()] returns in
    the request at hand. *)
Variable now : nat -> string.

Definition safeSlug (input : string) : string := slugify input.

Definition parseJsonSafe (s : string) (fallback : JSON.value) : JSON.value :=
  match JSON_parse s with
  | Some v => v
  | None => fallback
  end.

(** [parseJsonSafe] on a field of the form: [JSON.parse(undefined)] reads the
    text [undefined]. *)
Definition parseJsonSafe_field (x : field) (fallback : JSON.value) : JSON.value :=
  match x with
  | Some s => parseJsonSafe s fallback
  | None => parseJsonSafe "undefined" fallback
  end.

Definition renderBlocks (blocks : list Block.row) : list rendered_block :=
  map (fun b => mk_rendered b (parseJsonSafe (Block.data_json b) (JSON.Obj []))) blocks.

(** The start of the server: the admin account is created unless a user of
    that name is there. *)
Definition seed (db : database) : database :=
  match select_user_by_username db (Some "admin") with
  | Some _ => db
  | None =>
      match insert_user db "admin" (bcrypt_hash "admin123") "admin" (now 0%nat) with
      | inr db' => db'
      | inl _ => db
      end
  end.

(** *** Public *)

(** [GET /p/:slug] *)
Definition get_page (db : database) (session : option Session.user)
    (slug : string) : response :=
  match select_published_page db slug with
  | None => render 404 (public_notfound session)
  | Some page =>
      let blocks := select_blocks_of_page db (Page.id page) in
      render 200 (public_page page (renderBlocks blocks) session)
  end.

(** *** Admin auth *)

(** [POST /admin/login]: the session after the request and the response. *)
Definition post_login (db : database) (session : option Session.user)
    (username password : field) : option Session.user * response :=
  match select_user_by_username db username with
  | None => (session, render 200 (admin_login (Some "Invalid username or password")))
  | Some user =>
      match password with
      | None => (session, rejected IllegalArguments)
      | Some p =>
          if negb (bcrypt_compare p (User.password_hash user))
          then (session, render 200 (admin_login (Some "Invalid username or password")))
          else (Some (Session.mk (User.id user) (User.username user) (User.role user)),
                redirect "/admin")
      end
  end.

(** *** Pages *)

(** [POST /admin/pages/new] *)
Definition post_pages_new (db : database) (session : option Session.user)
    (title slug audience status : field) : database * response :=
  requireAuth session db (fun user =>
    let finalSlug := safeSlug (js_or (js_or_field slug title) "") in
    if negb (truthy title) || (finalSlug =? "")%string
    then (db, render 200 (admin_page_form user None (Some "Title and slug are required.")))
    else
      let t := now 0%nat in
      (* [title] is a non-empty string here, so [js_or title ""] is [title] *)
      match insert_page db (js_or title "") finalSlug (js_or audience "general")
              (js_or status "draft") t with
      | inr db' => (db', redirect "/admin")
      | inl _ =>
          (db, render 200 (admin_page_form user None
                             (Some "Slug already exists. Choose another.")))
      end).

(** [POST /admin/pages/:id/edit] *)
Definition post_pages_edit (db : database) (session : option Session.user)
    (id : string) (title slug audience status : field) : database * response :=
  requireAuth session db (fun user =>
    match select_page db id with
    | None => (db, send 404 "Page not found")
    | Some page =>
        let finalSlug := safeSlug (js_or (js_or_field slug title) "") in
        if negb (truthy title) || (finalSlug =? "")%string
        then (db, render 200 (admin_page_form user (Some page)
                                (Some "Title and slug are required.")))
        else
          match update_page db (js_or title "") finalSlug (js_or audience "general")
                  (js_or status "draft") (now 0%nat) id with
          | inr db' => (db', redirect "/admin")
          | inl _ =>
              (db, render 200 (admin_page_form user (Some page)
                                 (Some "Slug already exists. Choose another.")))
          end
    end).

(** [POST /admin/pages/:id/delete] *)
Definition post_pages_delete (db : database) (session : option Session.user)
    (id : string) : database * response :=
  requireAuth session db (fun user =>
    if negb (Session.role user =? "admin")%string
    then (db, send 403 "Only admin can delete pages.")
    else (delete_page db id, redirect "/admin")).

(** *** Blocks *)

(** [GET /admin/pages/:id/blocks] *)
Definition get_pages_blocks (db : database) (session : option Session.user)
    (id : string) : database * response :=
  requireAuth session db (fun user =>
    match select_page db id with
    | None => (db, send 404 "Page not found")
    | Some page =>
        let blocks := select_blocks_of_page db (Page.id page) in
        (db, render 200 (admin_blocks user page (renderBlocks blocks)))
    end).

(** [POST /admin/pages/:id/blocks/add] *)
Definition post_blocks_add (db : database) (session : option Session.user)
    (id : string) (type : field) : database * response :=
  requireAuth session db (fun user =>
    match select_page db id with
    | None => (db, send 404 "Page not found")
    | Some page =>
        let c := count_blocks_of_page db (Page.id page) in
        let pos := js_or_num c 0 + 1 in
        let t := now 0%nat in
        let data := default_data type in
        match insert_block db (Page.id page) type (JSON_stringify data) pos t with
        | inl e => (db, rejected (SqliteError e))
        | inr db' => (db', redirect (blocks_url (Page.id page)))
        end
    end).

(** [GET /admin/blocks/:blockId/edit] *)
Definition get_blocks_edit (db : database) (session : option Session.user)
    (blockId : string) : database * response :=
  requireAuth session db (fun user =>
    match select_block db blockId with
    | None => (db, send 404 "Block not found")
    | Some block =>
        let page := select_page_by_key db (Block.page_id block) in
        let data := parseJsonSafe (Block.data_json block) (JSON.Obj []) in
        (db, render 200 (admin_block_edit user page block data None))
    end).

(** The payload [POST /admin/blocks/:blockId/edit] builds for a block of type
    [type], or the error it reports. *)
Definition edited_data (type : string) (form : form) : string + JSON.value :=
  if (type =? "text")%string then
    inr (JSON.Obj [("heading", JSON.Str (js_or (form "heading") ""));
                   ("body", JSON.Str (js_or (form "body") ""))])
  else if (type =? "image")%string then
    inr (JSON.Obj [("heading", JSON.Str (js_or (form "heading") ""));
                   ("imageUrl", JSON.Str (js_or (form "imageUrl") ""));
                   ("caption", JSON.Str (js_or (form "caption") ""))])
  else if (type =? "video")%string then
    inr (JSON.Obj [("heading", JSON.Str (js_or (form "heading") ""));
                   ("mode", JSON.Str (js_or (form "mode") "youtube"));
                   ("youtubeUrl", JSON.Str (js_or (form "youtubeUrl") ""));
                   ("mp4Url", JSON.Str (js_or (form "mp4Url") ""));
                   ("caption", JSON.Str (js_or (form "caption") ""))])
  else if (type =? "callout")%string then
    inr (JSON.Obj [("kind", JSON.Str (js_or (form "kind") "Key idea"));
                   ("body", JSON.Str (js_or (form "body") ""))])
  else if (type =? "quiz")%string then
    let parsed := parseJsonSafe_field (form "quiz_json") JSON.Null in
    if negb (JSON.truthy parsed) || negb (JSON.isArray (JSON.get parsed "questions"))
    then inl "Invalid quiz JSON. Ensure it has { title, questions: [...] }."
    else inr parsed
  else inr (JSON.Obj []).

(** [POST /admin/blocks/:blockId/edit] *)
Definition post_blocks_edit (db : database) (session : option Session.user)
    (blockId : string) (form : form) : database * response :=
  requireAuth session db (fun user =>
    match select_block db blockId with
    | None => (db, send 404 "Block not found")
    | Some block =>
        let page := select_page_by_key db (Block.page_id block) in
        match edited_data (Block.type block) form with
        | inl error =>
            (db, render 200
                   (admin_block_edit user page block
                      (parseJsonSafe (Block.data_json block) (JSON.Obj []))
                      (Some error)))
        | inr data =>
            let db' :=
              update_block_data_json db (JSON_stringify data) (now 0%nat)
                (Block.id block) in
            match page with
            | Some p => (db', redirect (blocks_url (Page.id p)))
            | None => (db', rejected TypeError)
            end
        end
    end).

(** [POST /admin/blocks/:blockId/delete] *)
Definition post_blocks_delete (db : database) (session : option Session.user)
    (blockId : string) : database * response :=
  requireAuth session db (fun user =>
    match select_block db blockId with
    | None => (db, send 404 "Block not found")
    | Some block =>
        let pageId := Block.page_id block in
        let db1 := delete_block db (Block.id block) in
        let blocks := select_blocks_of_page db1 pageId in
        (renumber db1 now O blocks, redirect (blocks_url pageId))
    end).

(** [POST /admin/blocks/:blockId/move] *)
Definition post_blocks_move (db : database) (session : option Session.user)
    (blockId : string) (dir : field) : database * response :=
  requireAuth session db (fun user =>
    match select_block db blockId with
    | None => (db, send 404 "Block not found")
    | Some block =>
        let pageId := Block.page_id block in
        let blocks := select_blocks_of_page db pageId in
        let idx := findIndex (fun b => Block.id b =? Block.id block) blocks in
        if idx =? -1 then (db, redirect (blocks_url pageId))
        else
          let swapIdx := idx in
          let swapIdx := if field_is dir "up" then idx - 1 else swapIdx in
          let swapIdx := if field_is dir "down" then idx + 1 else swapIdx in
          if (swapIdx <? 0) || (swapIdx >=? Z.of_nat (List.length blocks))
          then (db, redirect (blocks_url pageId))
          else
            match nth_error blocks (Z.to_nat idx), nth_error blocks (Z.to_nat swapIdx) with
            | Some a, Some b =>
                let db1 :=
                  update_block_position db (Block.position b) (now 0%nat) (Block.id a) in
                let db2 :=
                  update_block_position db1 (Block.position a) (now 1%nat) (Block.id b) in
                (db2, redirect (blocks_url pageId))
            | _, _ => (db, rejected TypeError)
            end
    end).

(** *** Users (admin only) *)

(** [POST /admin/users/new] *)
Definition post_users_new (db : database) (session : option Session.user)
    (username password role : field) : database * response :=
  requireAdmin session db (fun user =>
    let users := select_users db in
    if negb (truthy username) || negb (truthy password)
    then (db, render 200 (admin_users user users (Some "Username and password required.")))
    else
      (* [username] and [password] are non-empty strings here *)
      let password_hash := bcrypt_hash (js_or password "") in
      match insert_user db (js_or username "") password_hash
              (if field_is role "admin" then "admin" else "editor") (now 0%nat) with
      | inr db' => (db', redirect "/admin/users")
      | inl _ =>
          (db, render 200 (admin_users user users (Some "Username already exists.")))
      end).

(** [POST /admin/users/:id/delete] *)
Definition post_users_delete (db : database) (session : option Session.user)
    (id : string) : database * response :=
  requireAdmin session db (fun user =>
    if match parseInt id with
       | Some n => n =? Session.id user
       | None => false
       end
    then (db, send 400 "You cannot delete yourself.")
    else (delete_user db id, redirect "/admin/users")).

End Server.

(** ** The position invariant and the requests that touch it *)

(** The rows of [blocks] that belong to a page, in rowid order. *)
Definition page_blocks (db : database) (page_id : Z) : list Block.row :=
  filter (of_page page_id) (blocks db).

Definition positions (db : database) (page_id : Z) : list Z :=
  map Block.position (page_blocks db page_id).

(** [[1; 2; ...; n]] *)
Definition one_to (n : nat) : list Z := map Z.of_nat (seq 1 n).

(** The positions of a page are exactly 1..N, each once, N being the number
    of its blocks. *)
Definition gapless (db : database) (page_id : Z) : Prop :=
  Permutation (positions db page_id) (one_to (List.length (page_blocks db page_id))).

(** [id INTEGER PRIMARY KEY] on [blocks]. *)
Definition primary_key (db : database) : Prop :=
  NoDup (map Block.id (blocks db)).

(** A request that adds, deletes or moves a block. *)
Inductive block_request :=
| add_block (page : string) (type : field)
| delete_block_of (blockId : string)
| move_block (blockId : string) (dir : field).

(** One request as the server handles it: who sends it, the clock during
    it, and what it asks. *)
Record request := mk_request {
  session : option Session.user;
  clock : nat -> string;
  asks : block_request }.

Definition serve (JSON_stringify : JSON.value -> string) (db : database)
    (r : request) : database * response :=
  match asks r with
  | add_block page type =>
      post_blocks_add JSON_stringify (clock r) db (session r) page type
  | delete_block_of blockId => post_blocks_delete (clock r) db (session r) blockId
  | move_block blockId dir => post_blocks_move (clock r) db (session r) blockId dir
  end.

(** The database after a sequence of requests, each handled to completion
    before the next. *)
Definition serve_all (JSON_stringify : JSON.value -> string) (db : database)
    (rs : list request) : database :=
  fold_left (fun d r => fst (serve JSON_stringify d r)) rs db.

(** The row of a block with its position and time stamp replaced when it is
    [a] or [b], as a swap of the two leaves it. *)
Definition swapped (a b : Block.row) (ta tb : string) (c : Block.row) : Block.row :=
  if Block.id c =? Block.id a then Block.set_position (Block.position b) ta c
  else if Block.id c =? Block.id b then Block.set_position (Block.position a) tb c
  else c.

(** The databases the server can be in: it starts on a fresh file, may be
    started again on the file it left, and handles the requests one after the
    other, whoever sends them and whatever they hold.  (The media table,
    which no other table refers to, is left out.) *)
Inductive reachable : database -> Prop :=
| reach_start (bcrypt_hash : string -> string) (now : nat -> string) :
    reachable (seed bcrypt_hash now (initDb fresh_file))
| reach_restart (bcrypt_hash : string -> string) (now : nat -> string)
    (db : database) :
    reachable db -> reachable (seed bcrypt_hash now (initDb db))
| reach_pages_new (slugify : string -> string) (now : nat -> string)
    (db : database) (session : option Session.user)
    (title slug audience status : field) :
    reachable db ->
    reachable (fst (post_pages_new slugify now db session title slug audience status))
| reach_pages_edit (slugify : string -> string) (now : nat -> string)
    (db : database) (session : option Session.user) (id : string)
    (title slug audience status : field) :
    reachable db ->
    reachable (fst (post_pages_edit slugify now db session id title slug audience
                      status))
| reach_pages_delete (db : database) (session : option Session.user) (id : string) :
    reachable db -> reachable (fst (post_pages_delete db session id))
| reach_blocks_edit (JSON_parse : string -> option JSON.value)
    (JSON_stringify : JSON.value -> string) (now : nat -> string) (db : database)
    (session : option Session.user) (blockId : string) (form : form) :
    reachable db ->
    reachable (fst (post_blocks_edit JSON_parse JSON_stringify now db session blockId
                      form))
| reach_blocks (JSON_stringify : JSON.value -> string) (db : database) (r : request) :
    reachable db -> reachable (fst (serve JSON_stringify db r))
| reach_users_new (bcrypt_hash : string -> string) (now : nat -> string)
    (db : database) (session : option Session.user) (username password role : field) :
    reachable db ->
    reachable (fst (post_users_new bcrypt_hash now db session username password role))
| reach_users_delete (db : database) (session : option Session.user) (id : string) :
    reachable db -> reachable (fst (post_users_delete db session id)).

(** The position a block has after rows [a] and [b] exchanged theirs. *)
Definition position_after_swap (a b c : Block.row) : Z :=
  if Block.id c =? Block.id a then Block.position b
  else if Block.id c =? Block.id b then Block.position a
  else Block.position c.

(** The place of a key in a list of keys. *)
Fixpoint index_of (id : Z) (ids : list Z) : option nat :=
  match ids with
  | [] => None
  | x :: r => if x =? id then Some O else option_map S (index_of id r)
  end.

(** What the renumbering loop, started at counter [i] over the rows of keys
    [ids], makes of a row. *)
Definition renumbered (now : nat -> string) (i : nat) (ids : list Z)
    (c : Block.row) : Block.row :=
  match index_of (Block.id c) ids with
  | Some k => Block.set_position (Z.of_nat (i + k) + 1) (now (i + k)%nat) c
  | None => c
  end.

(** ** The values [JSON.parse] restores *)

(** Induction on a value, with the hypothesis on every element of an array
    and on every property of an object. *)
Definition value_ind' (P : JSON.value -> Prop)
    (HNull : P JSON.Null) (HBool : forall b, P (JSON.Bool b))
    (HNum : forall n, P (JSON.Num n)) (HStr : forall s, P (JSON.Str s))
    (HArr : forall l, Forall P l -> P (JSON.Arr l))
    (HObj : forall l, Forall (fun kv => P (snd kv)) l -> P (JSON.Obj l))
    : forall v, P v :=
  fix F (v : JSON.value) : P v :=
    match v with
    | JSON.Null => HNull
    | JSON.Bool b => HBool b
    | JSON.Num n => HNum n
    | JSON.Str s => HStr s
    | JSON.Arr l =>
        HArr l
          ((fix G (l : list JSON.value) : Forall P l :=
              match l with
              | [] => Forall_nil _
              | x :: r => Forall_cons x (F x) (G r)
              end) l)
    | JSON.Obj l =>
        HObj l
          ((fix G (l : list (string * JSON.value))
              : Forall (fun kv => P (snd kv)) l :=
              match l with
              | [] => Forall_nil _
              | kv :: r => Forall_cons kv (F (snd kv)) (G r)
              end) l)
    end.

(** The elements of an array between the brackets. *)
Fixpoint elements (l : list JSON.value) : string :=
  match l with
  | [] => ""
  | x :: r =>
      (JSON.stringify x ++
       match r with
       | [] => ""
       | _ :: _ => String "," (elements r)
       end)%string
  end.

(** The members of an object between the braces. *)
Fixpoint members (l : list (string * JSON.value)) : string :=
  match l with
  | [] => ""
  | (k, x) :: r =>
      (JSON.quote k ++ String ":" (JSON.stringify x) ++
       match r with
       | [] => ""
       | _ :: _ => String "," (members r)
       end)%string
  end.

(** Property order: array indices first, in ascending order, then the other
    keys in the order of their creation. *)
Definition key_before (k k' : string) : Prop :=
  match JSON.array_index k, JSON.array_index k' with
  | Some i, Some i' => (i < i')%N
  | None, Some _ => False
  | _, None => True
  end.

Definition object_keys (l : list (string * JSON.value)) : Prop :=
  NoDup (map fst l) /\ StronglySorted key_before (map fst l).

(** A value as a JavaScript program holds it: the keys of an object are
    distinct and in property order, at every depth. *)
Fixpoint well_formed (v : JSON.value) : Prop :=
  match v with
  | JSON.Arr l =>
      (fix all (l : list JSON.value) : Prop :=
         match l with
         | [] => True
         | x :: r => well_formed x /\ all r
         end) l
  | JSON.Obj l =>
      object_keys l /\
      (fix all (l : list (string * JSON.value)) : Prop :=
         match l with
         | [] => True
         | kv :: r => well_formed (snd kv) /\ all r
         end) l
  | _ => True
  end.

(** What may follow a number in a text: no digit, and nothing that would
    turn it into a real. *)
Definition ends_number (rest : string) : bool :=
  match rest with
  | String c _ => negb (is_digit c) && JSON.ends_integer rest
  | EmptyString => true
  end.

(** [JSON.parse] reads back the text of [v], whatever follows it in a text
    that goes on with [rest]. *)
Definition restores (v : JSON.value) : Prop :=
  well_formed v ->
  forall (fuel : nat) (rest : string),
    (String.length (JSON.stringify v) <= fuel)%nat ->
    ends_number rest = true ->
    JSON.parse_value fuel (JSON.stringify v ++ rest) = Some (v, rest).

(** A character that starts a value: no white space and no closing bracket. *)
Definition value_head (c : ascii) : bool :=
  negb (JSON.ws c) && negb (c =? "]")%char && negb (c =? "}")%char.

(** The text after an element of an array, up to and including [close]. *)
Definition elements_tail (l : list JSON.value) (close : string) : string :=
  match l with
  | [] => close
  | _ :: _ => String "," (elements l ++ close)
  end.

(** The text after a member of an object, up to and including [close]. *)
Definition members_tail (l : list (string * JSON.value)) (close : string) : string :=
  match l with
  | [] => close
  | _ :: _ => String "," (members l ++ close)
  end.

(** ** The payloads of the five block types *)

(** A question of a quiz: its text, its options, and the zero-based index of
    the answer among them. *)
Record question := mk_question {
  q : string;
  options : list string;
  answer : nat }.

Inductive payload :=
| text (heading body : string)
| image (heading imageUrl caption : string)
| video (heading mode youtubeUrl mp4Url caption : string)
| callout (kind body : string)
| quiz (title : string) (questions : list question).

Definition question_value (x : question) : JSON.value :=
  JSON.Obj [("q", JSON.Str (q x));
            ("options", JSON.Arr (map JSON.Str (options x)));
            ("answer", JSON.Num (Z.of_nat (answer x)))].

(** The object the handlers build for a payload, property by property as the
    object literals of the source list them. *)
Definition payload_value (p : payload) : JSON.value :=
  match p with
  | text heading body =>
      JSON.Obj [("heading", JSON.Str heading); ("body", JSON.Str body)]
  | image heading imageUrl caption =>
      JSON.Obj [("heading", JSON.Str heading); ("imageUrl", JSON.Str imageUrl);
                ("caption", JSON.Str caption)]
  | video heading mode youtubeUrl mp4Url caption =>
      JSON.Obj [("heading", JSON.Str heading); ("mode", JSON.Str mode);
                ("youtubeUrl", JSON.Str youtubeUrl); ("mp4Url", JSON.Str mp4Url);
                ("caption", JSON.Str caption)]
  | callout kind body =>
      JSON.Obj [("kind", JSON.Str kind); ("body", JSON.Str body)]
  | quiz title questions =>
      JSON.Obj [("title", JSON.Str title);
                ("questions", JSON.Arr (map question_value questions))]
  end.

(** What is written to [data_json], and what is read back from it. *)
Definition encode (p : payload) : string := JSON.stringify (payload_value p).

Definition decode (s : string) : JSON.value :=
  parseJsonSafe JSON.parse s (JSON.Obj []).

(** What a missing field of the editor's form is replaced by. *)
Definition default_of (k : string) : string :=
  if (k =? "mode")%string then "youtube"
  else if (k =? "kind")%string then "Key idea"
  else "".

(** The fields of the payload of a text, an image, a video and a callout, as
    the data model lists them. *)
Definition fields (type : string) : list string :=
  if (type =? "text")%string then ["heading"; "body"]
  else if (type =? "image")%string then ["heading"; "imageUrl"; "caption"]
  else if (type =? "video")%string
  then ["heading"; "mode"; "youtubeUrl"; "mp4Url"; "caption"]
  else if (type =? "callout")%string then ["kind"; "body"]
  else [].

(** ** The other routes of the server *)

(** *** The listings of pages *)

Definition published (p : Page.row) : bool := (Page.status p =? "published")%string.

Definition updated_at_desc (p q : Page.row) : bool :=
  (Page.updated_at q <=? Page.updated_at p)%string.

(** [SELECT * FROM pages WHERE status='published' ORDER BY updated_at DESC] *)
Definition select_published_pages (db : database) : list Page.row :=
  order_by updated_at_desc (filter published (pages db)).

(** [SELECT * FROM pages ORDER BY updated_at DESC] *)
Definition select_pages (db : database) : list Page.row :=
  order_by updated_at_desc (pages db).

(** *** The media library

    The rows of [media] with the counter of their AUTOINCREMENT key, and the
    names of the files in [public/uploads].  No other table refers to
    [media], and no handler touches both. *)

(** A JavaScript string as the sequence of its UTF-16 code units, which is
    what a regular expression without the [u] flag works on. *)
Definition code_units := list N.

Module Media.
Record row := mk {
  id : Z;
  filename : string;
  originalname : code_units;
  mimetype : string;
  size : Z;
  url : string;
  created_at : string }.
End Media.

Record library := mk_library {
  media : list Media.row;
  seq_media : Z;
  uploads : list string }.

(** [req.file] before multer has named it: what the browser sent. *)
Record upload := mk_upload {
  upload_originalname : code_units;
  upload_mimetype : string;
  upload_size : Z }.

(** The character class [[a-zA-Z0-9._-]]. *)
Definition kept (u : N) : bool :=
  ((97 <=? u) && (u <=? 122) || (65 <=? u) && (u <=? 90) || (48 <=? u) && (u <=? 57)
   || (u =? 46) || (u =? 95) || (u =? 45))%N.

(** [.replace(/[^a-zA-Z0-9._-]/g, "_")]: every code unit outside the class
    becomes an underscore; what is left is ASCII. *)
Definition replace_unsafe (s : code_units) : string :=
  string_of_list_ascii (map (fun u => if kept u then ascii_of_N u else "_"%char) s).

(** [SELECT * FROM media WHERE id=?] *)
Definition select_media (lib : library) (param : string) : option Media.row :=
  find (fun m => id_eq param (Media.id m)) (media lib).

Definition media_created_at_desc (m n : Media.row) : bool :=
  (Media.created_at n <=? Media.created_at m)%string.

(** [SELECT * FROM media ORDER BY created_at DESC] *)
Definition select_all_media (lib : library) : list Media.row :=
  order_by media_created_at_desc (media lib).

(** [INSERT INTO media (filename, originalname, mimetype, size, url,
    created_at) VALUES (?,?,?,?,?,?)]: the table has no constraint an insert of
    six values can break. *)
Definition insert_media (lib : library) (filename : string)
    (originalname : code_units) (mimetype : string) (size : Z) (url t : string)
    : library :=
  let id := next_rowid (seq_media lib) (map Media.id (media lib)) in
  mk_library
    (media lib ++ [Media.mk id filename originalname mimetype size url t])
    id (uploads lib).

(** [DELETE FROM media WHERE id=?] with a numeric key. *)
Definition delete_media (lib : library) (id : Z) : library :=
  mk_library (filter (fun m => negb (Media.id m =? id)) (media lib))
    (seq_media lib) (uploads lib).

(** multer's disk storage writes the upload under the name the [filename]
    callback gives, over a file of that name if there is one. *)
Definition write_file (lib : library) (name : string) : library :=
  mk_library (media lib) (seq_media lib)
    (if mem_string name (uploads lib) then uploads lib else uploads lib ++ [name]).

(** [if (fs.existsSync(filePath)) fs.unlinkSync(filePath)], the path being
    that of the file of this name in [public/uploads]. *)
Definition unlink_file (lib : library) (name : string) : library :=
  mk_library (media lib) (seq_media lib)
    (filter (fun f => negb (f =? name)%string) (uploads lib)).

(** The views of the listings and the locals each is rendered with. *)
Inductive listing :=
| public_home (pages : list Page.row) (user : option Session.user)
| admin_dashboard (user : Session.user) (pages : list Page.row)
| admin_media (user : Session.user) (items : list Media.row).

(** What a route of a listing answers with. *)
Inductive reply :=
| to (url : string)
| shows (v : listing)
| refuses (status : Z) (body : string).

Module Library.
(** [requireAuth] in front of a handler on the media library. *)
Definition requireAuth (session : option Session.user) (lib : library)
    (next : Session.user -> library * reply) : library * reply :=
  match session with
  | None => (lib, to "/admin/login")
  | Some user => next user
  end.
End Library.

Section Routes.

(** [path.basename] on code units. *)
Variable basename : code_units -> code_units.
(** [Date.now()] when multer names the file. *)
Variable stamp : Z.
Variable now : nat -> string.

(** The [filename] callback of the disk storage. *)
Definition filename (originalname : code_units) : string :=
  let safeBase := replace_unsafe (basename originalname) in
  (string_of_Z stamp ++ "_" ++ safeBase)%string.

(** [GET /] *)
Definition get_home (db : database) (session : option Session.user) : reply :=
  shows (public_home (select_published_pages db) session).

(** [GET /admin/login] *)
Definition get_login : response := render 200 (admin_login None).

(** [POST /admin/logout]: the session after it and the response. *)
Definition post_logout (session : option Session.user)
    : option Session.user * response :=
  (None, redirect "/").

(** [GET /admin], behind [requireAuth]. *)
Definition get_admin (db : database) (session : option Session.user) : reply :=
  match session with
  | None => to "/admin/login"
  | Some user => shows (admin_dashboard user (select_pages db))
  end.

(** [GET /admin/pages/new] *)
Definition get_pages_new (db : database) (session : option Session.user)
    : database * response :=
  requireAuth session db (fun user =>
    (db, render 200 (admin_page_form user None None))).

(** [GET /admin/pages/:id/edit] *)
Definition get_pages_edit (db : database) (session : option Session.user)
    (id : string) : database * response :=
  requireAuth session db (fun user =>
    match select_page db id with
    | None => (db, send 404 "Page not found")
    | Some page => (db, render 200 (admin_page_form user (Some page) None))
    end).

(** [GET /admin/users] *)
Definition get_users (db : database) (session : option Session.user)
    : database * response :=
  requireAdmin session db (fun user =>
    (db, render 200 (admin_users user (select_users db) None))).

(** [GET /admin/media] *)
Definition get_media (lib : library) (session : option Session.user)
    : library * reply :=
  Library.requireAuth session lib (fun user =>
    (lib, shows (admin_media user (select_all_media lib)))).

(** [POST /admin/media/upload]: [requireAuth], then [upload.single("file")],
    which stores the file when the form has one, then the handler. *)
Definition post_media_upload (lib : library) (session : option Session.user)
    (file : option upload) : library * reply :=
  Library.requireAuth session lib (fun user =>
    match file with
    | None => (lib, to "/admin/media")
    | Some f =>
        let name := filename (upload_originalname f) in
        let lib1 := write_file lib name in
        let url := ("/public/uploads/" ++ name)%string in
        (insert_media lib1 name (upload_originalname f) (upload_mimetype f)
           (upload_size f) url (now 0%nat),
         to "/admin/media")
    end).

(** [POST /admin/media/:id/delete] *)
Definition post_media_delete (lib : library) (session : option Session.user)
    (id : string) : library * reply :=
  Library.requireAuth session lib (fun user =>
    if negb (Session.role user =? "admin")%string
    then (lib, refuses 403 "Only admin can delete media.")
    else
      match select_media lib id with
      | Some item =>
          (delete_media (unlink_file lib (Media.filename item)) (Media.id item),
           to "/admin/media")
      | None => (lib, to "/admin/media")
      end).

End Routes.

(** ** What the schema promises about the rows

    The keys and the UNIQUE columns hold each value once, the CHECK columns
    hold one of their values, no key exceeds the counter AUTOINCREMENT keeps
    for its table, and no block refers to a page beyond the counter of
    [pages]. *)

Definition pages_ok (db : database) : Prop :=
  NoDup (map Page.id (pages db)) /\
  NoDup (map Page.slug (pages db)) /\
  forall p, In p (pages db) ->
    Page.id p <= seq_pages db /\
    In (Page.audience p) audiences /\ In (Page.status p) statuses.

Definition users_ok (db : database) : Prop :=
  NoDup (map User.id (users db)) /\
  NoDup (map User.username (users db)) /\
  forall u, In u (users db) -> User.id u <= seq_users db /\ In (User.role u) roles.

Definition blocks_ok (db : database) : Prop :=
  NoDup (map Block.id (blocks db)) /\
  forall b, In b (blocks db) ->
    Block.id b <= seq_blocks db /\ Block.page_id b <= seq_pages db /\
    In (Block.type b) block_types.

Definition schema (db : database) : Prop :=
  pages_ok db /\ users_ok db /\ blocks_ok db.

(** The page a block request works on, when it finds one. *)
Definition page_of_request (db : database) (r : block_request) : option Z :=
  match r with
  | add_block page _ => option_map Page.id (select_page db page)
  | delete_block_of blockId | move_block blockId _ =>
      option_map Block.page_id (select_block db blockId)
  end.

(** What holds of the media library: the keys are distinct and none exceeds
    the counter, and the address of every item is that of its file in
    [public/uploads]. *)
Definition library_ok (lib : library) : Prop :=
  NoDup (map Media.id (media lib)) /\
  forall m, In m (media lib) ->
    Media.id m <= seq_media lib /\
    Media.url m = ("/public/uploads/" ++ Media.filename m)%string.

(** A library with nothing in it. *)
Definition empty_library : library := mk_library [] 0 [].

(** What a move and the move back leave of a row: all but the time stamp. *)
Definition content (c : Block.row) : Z * Z * string * string * Z :=
  (Block.id c, Block.page_id c, Block.type c, Block.data_json c, Block.position c).

(** A library of two uploads, the first named [robot.png] by the browser,
    for the examples. *)
Definition shelf : library :=
  mk_library
    [Media.mk 1 "1714560000000_robot.png" [114; 111; 98; 111; 116; 46; 112; 110; 103]%N
       "image/png" 20480 "/public/uploads/1714560000000_robot.png"
       "2024-05-01T10:40:00.000Z";
     Media.mk 2 "1714560600000_arm.mp4" [97; 114; 109; 46; 109; 112; 52]%N
       "video/mp4" 1048576 "/public/uploads/1714560600000_arm.mp4"
       "2024-05-01T10:50:00.000Z"]
    2
    ["1714560000000_robot.png"; "1714560600000_arm.mp4"].

(** The values of a column of an example are distinct, and each row of an
    example has what the schema wants: by computation. *)
Ltac distinct :=
  simpl; repeat (constructor; [simpl; intuition discriminate|]); constructor.

Ltac each_row :=
  let r := fresh "r" in
  let H := fresh "H" in
  intros r H; simpl in H;
  repeat (destruct H as [<-|H]; [simpl; repeat split; try lia; tauto|]);
  contradiction.


(** ** A small site, for the examples *)

Definition admin : Session.user := Session.mk 1 "admin" "admin".
Definition editor : Session.user := Session.mk 2 "sam" "editor".

(** Stand-ins for the collaborators, where an example has to run one. *)
Definition slugify_ascii (s : string) : string := s.
Definition hash_plain (p : string) : string := ("$" ++ p)%string.
Definition compare_plain (p h : string) : bool := (hash_plain p =? h)%string.
Definition noon (k : nat) : string := "2024-05-01T12:00:00.000Z".

(** The site after the seeded admin made an editor account and a published
    page with a quiz and a text block, over a connection as [openDb] gives
    it. *)
Definition site : database :=
  mk_database
    [User.mk 1 "admin" (hash_plain "admin123") "admin" "2024-04-01T08:00:00.000Z";
     User.mk 2 "sam" (hash_plain "s3cret") "editor" "2024-04-02T08:00:00.000Z"]
    [Page.mk 1 "Sensors 101" "sensors-101" "undergrad" "published"
       "2024-04-03T08:00:00.000Z" "2024-04-03T08:00:00.000Z"]
    [Block.mk 1 1 "quiz" (JSON.stringify (default_data (Some "quiz"))) 1
       "2024-04-03T09:00:00.000Z" "2024-04-03T09:00:00.000Z";
     Block.mk 2 1 "text" (JSON.stringify (default_data (Some "text"))) 2
       "2024-04-03T09:05:00.000Z" "2024-04-03T09:05:00.000Z"]
    2 1 2 false.

(** The number a decimal numeral denotes on top of [acc]. *)
Fixpoint uint_value (d : uint) (acc : N) : N :=
  match d with
  | Nil => acc
  | D0 d => uint_value d (10 * acc)
  | D1 d => uint_value d (10 * acc + 1)
  | D2 d => uint_value d (10 * acc + 2)
  | D3 d => uint_value d (10 * acc + 3)
  | D4 d => uint_value d (10 * acc + 4)
  | D5 d => uint_value d (10 * acc + 5)
  | D6 d => uint_value d (10 * acc + 6)
  | D7 d => uint_value d (10 * acc + 7)
  | D8 d => uint_value d (10 * acc + 8)
  | D9 d => uint_value d (10 * acc + 9)
  end%N.

(** Does [s] start with something else than a digit? *)
Definition no_digit_ahead (s : string) : bool :=
  match s with
  | String c _ => negb (is_digit c)
  | EmptyString => true
  end.

(** The keys of an object literal of the source are distinct and in
    property order: by computation. *)
Ltac keys_in_order :=
  split;
  [ repeat (constructor; [simpl; intuition discriminate|]); constructor
  | repeat (constructor; [|repeat (constructor; [vm_compute; exact I|]); constructor]);
    constructor ].

(** * Properties *)

(** ** Lists, keys and [ORDER BY] *)

Lemma insert_by_perm {A : Type} (le : A -> A -> bool) (x : A) (l : list A) :
  Permutation (insert_by le x l) (x :: l).
Proof.
  induction l as [|y r IH]; simpl.
  - apply Permutation_refl.
  - destruct (le x y).
    + apply Permutation_refl.
    + eapply perm_trans; [apply perm_skip, IH | apply perm_swap].
Qed.

Lemma order_by_perm {A : Type} (le : A -> A -> bool) (l : list A) :
  Permutation (order_by le l) l.
Proof.
  induction l as [|x r IH]; simpl.
  - constructor.
  - eapply perm_trans; [apply insert_by_perm | now apply perm_skip].
Qed.

Lemma order_by_length {A : Type} (le : A -> A -> bool) (l : list A) :
  List.length (order_by le l) = List.length l.
Proof. apply Permutation_length, order_by_perm. Qed.

Lemma order_by_in {A : Type} (le : A -> A -> bool) (l : list A) (x : A) :
  In x (order_by le l) <-> In x l.
Proof.
  split; apply Permutation_in;
    [apply order_by_perm | apply Permutation_sym, order_by_perm].
Qed.

Lemma insert_by_position_sorted (b : Block.row) (l : list Block.row) :
  StronglySorted (fun x y => Block.position x <= Block.position y) l ->
  StronglySorted (fun x y => Block.position x <= Block.position y)
    (insert_by position_asc b l).
Proof.
  induction 1 as [|c r Hr IH Hc]; simpl.
  - repeat constructor.
  - unfold position_asc at 1.
    destruct (Z.leb_spec (Block.position b) (Block.position c)) as [Hle|Hgt].
    + constructor; [now constructor|].
      constructor; [exact Hle|].
      rewrite Forall_forall in Hc |- *. intros y Hy. specialize (Hc y Hy). lia.
    + constructor; [exact IH|].
      rewrite Forall_forall in Hc |- *. intros y Hy.
      apply (Permutation_in _ (insert_by_perm position_asc b r)) in Hy.
      destruct Hy as [<-|Hy]; [lia | now apply Hc].
Qed.

Lemma order_by_position_sorted (l : list Block.row) :
  StronglySorted (fun x y => Block.position x <= Block.position y)
    (order_by_position l).
Proof.
  induction l as [|x r IH]; simpl.
  - constructor.
  - now apply insert_by_position_sorted.
Qed.

(** Two ascending lists of integers with the same elements are equal. *)
Lemma sorted_perm_eq (l1 l2 : list Z) :
  StronglySorted Z.le l1 -> StronglySorted Z.le l2 -> Permutation l1 l2 -> l1 = l2.
Proof.
  intros H1; revert l2.
  induction H1 as [|x r Hr IH Hx]; intros l2 H2 HP.
  - now apply Permutation_nil in HP.
  - destruct H2 as [|y s Hs Hy].
    + apply Permutation_sym, Permutation_nil in HP. discriminate.
    + assert (x = y) as <-.
      { rewrite Forall_forall in Hx, Hy.
        assert (In y (x :: r)) as [->|Hin]
          by (eapply Permutation_in; [apply Permutation_sym, HP | now left]);
          [reflexivity|].
        assert (In x (y :: s)) as [->|Hin']
          by (eapply Permutation_in; [apply HP | now left]); [reflexivity|].
        specialize (Hx _ Hin). specialize (Hy _ Hin'). lia. }
      f_equal. apply IH; [exact Hs|]. now apply Permutation_cons_inv in HP.
Qed.

Lemma one_to_sorted (n : nat) : StronglySorted Z.le (one_to n).
Proof.
  unfold one_to. generalize 1%nat.
  induction n as [|n IH]; intros k; simpl.
  - constructor.
  - constructor; [apply IH|].
    rewrite Forall_forall. intros y Hy.
    apply in_map_iff in Hy as (m & <- & Hm). apply in_seq in Hm. lia.
Qed.

Lemma one_to_S (n : nat) : one_to (S n) = one_to n ++ [Z.of_nat n + 1].
Proof.
  unfold one_to. rewrite seq_S, map_app. simpl. do 2 f_equal. lia.
Qed.

Lemma one_to_length (n : nat) : List.length (one_to n) = n.
Proof. unfold one_to. now rewrite length_map, length_seq. Qed.

Lemma one_to_nth (n i : nat) :
  (i < n)%nat -> nth_error (one_to n) i = Some (Z.of_nat i + 1).
Proof.
  intros Hi. unfold one_to.
  rewrite nth_error_map, nth_error_seq.
  destruct (Nat.ltb_spec i n); [|lia]. simpl. f_equal. lia.
Qed.

(** Rows of a table with a key are told apart by the key. *)
Lemma key_inj {A : Type} (key : A -> Z) (l : list A) (x y : A) :
  NoDup (map key l) -> In x l -> In y l -> key x = key y -> x = y.
Proof.
  induction l as [|z r IH]; simpl; [easy|].
  intros Hnd Hx Hy Hk. inversion Hnd as [|? ? Hz Hr]; subst.
  destruct Hx as [->|Hx], Hy as [->|Hy]; auto.
  - exfalso. apply Hz. rewrite Hk. now apply in_map.
  - exfalso. apply Hz. rewrite <- Hk. now apply in_map.
Qed.

Lemma NoDup_map_filter {A : Type} (key : A -> Z) (p : A -> bool) (l : list A) :
  NoDup (map key l) -> NoDup (map key (filter p l)).
Proof.
  induction l as [|x r IH]; simpl; [easy|].
  intros Hnd. inversion Hnd as [|? ? Hx Hr]; subst.
  destruct (p x); simpl; [constructor|]; auto.
  intros Hin. apply Hx. apply in_map_iff in Hin as (y & Hy & Hin).
  apply filter_In in Hin as [Hin _]. rewrite <- Hy. now apply in_map.
Qed.

(** ** What the statements on [blocks] change *)

Lemma filter_of_page_map (f : Block.row -> Block.row) (p : Z) (l : list Block.row) :
  (forall c, Block.page_id (f c) = Block.page_id c) ->
  filter (of_page p) (map f l) = map f (filter (of_page p) l).
Proof.
  intros Hf. induction l as [|c r IH]; simpl; [reflexivity|].
  replace (of_page p (f c)) with (of_page p c)
    by (unfold of_page; now rewrite Hf).
  destruct (of_page p c); simpl; now rewrite IH.
Qed.

Lemma map_fixed {A : Type} (f : A -> A) (l : list A) :
  (forall c, In c l -> f c = c) -> map f l = l.
Proof.
  intros Hf. rewrite <- (map_id l) at 2. now apply map_ext_in.
Qed.

Lemma update_block_position_ids (db : database) (pos : Z) (t : string) (id : Z) :
  map Block.id (blocks (update_block_position db pos t id)) = map Block.id (blocks db).
Proof.
  simpl. rewrite map_map. apply map_ext. intros c.
  now destruct (Block.id c =? id).
Qed.

Lemma update_block_position_key (db : database) (pos : Z) (t : string) (id : Z) :
  primary_key db -> primary_key (update_block_position db pos t id).
Proof. unfold primary_key. now rewrite update_block_position_ids. Qed.

Lemma page_blocks_update (db : database) (pos : Z) (t : string) (id p : Z) :
  page_blocks (update_block_position db pos t id) p =
  map (fun b => if Block.id b =? id then Block.set_position pos t b else b)
    (page_blocks db p).
Proof.
  unfold page_blocks. simpl. apply filter_of_page_map.
  intros c. now destruct (Block.id c =? id).
Qed.

Lemma page_blocks_length_update (db : database) (pos : Z) (t : string) (id p : Z) :
  List.length (page_blocks (update_block_position db pos t id) p) =
  List.length (page_blocks db p).
Proof. now rewrite page_blocks_update, length_map. Qed.

Lemma page_blocks_key (db : database) (p : Z) :
  primary_key db -> NoDup (map Block.id (page_blocks db p)).
Proof. apply NoDup_map_filter. Qed.

Lemma in_page_blocks (db : database) (p : Z) (c : Block.row) :
  In c (page_blocks db p) <-> In c (blocks db) /\ Block.page_id c = p.
Proof.
  unfold page_blocks, of_page. rewrite filter_In. now rewrite Z.eqb_eq.
Qed.

Lemma in_select_blocks_of_page (db : database) (p : Z) (c : Block.row) :
  In c (select_blocks_of_page db p) <-> In c (blocks db) /\ Block.page_id c = p.
Proof.
  unfold select_blocks_of_page, order_by_position.
  rewrite order_by_in. apply in_page_blocks.
Qed.

Lemma select_block_in (db : database) (param : string) (b : Block.row) :
  select_block db param = Some b -> In b (blocks db).
Proof. intros H. now apply find_some in H. Qed.

(** *** Two positions exchanged *)

Lemma perm_exchange (x y : Z) (l1 l2 l3 : list Z) :
  Permutation (l1 ++ y :: l2 ++ x :: l3) (l1 ++ x :: l2 ++ y :: l3).
Proof.
  apply Permutation_app_head.
  apply perm_trans with (y :: x :: l2 ++ l3).
  - apply perm_skip, Permutation_sym, Permutation_middle.
  - eapply perm_trans; [apply perm_swap|].
    apply perm_skip, Permutation_middle.
Qed.

Lemma position_after_swap_other (a b c : Block.row) :
  Block.id c <> Block.id a -> Block.id c <> Block.id b ->
  position_after_swap a b c = Block.position c.
Proof.
  intros Ha Hb. unfold position_after_swap.
  apply Z.eqb_neq in Ha, Hb. now rewrite Ha, Hb.
Qed.

Lemma map_position_after_swap_other (a b : Block.row) (l : list Block.row) :
  ~ In (Block.id a) (map Block.id l) -> ~ In (Block.id b) (map Block.id l) ->
  map (position_after_swap a b) l = map Block.position l.
Proof.
  intros Ha Hb. apply map_ext_in. intros c Hc.
  apply position_after_swap_other; intros E; [apply Ha | apply Hb];
    rewrite <- E; now apply in_map.
Qed.

Lemma NoDup_app_cons_not_in (x : Z) (l1 l2 : list Z) :
  NoDup (l1 ++ x :: l2) -> ~ In x l1 /\ ~ In x l2 /\ NoDup (l1 ++ l2).
Proof.
  intros H. apply NoDup_remove in H as [H1 H2].
  rewrite in_app_iff in H2. tauto.
Qed.

(** Exchanging the positions of two rows of a keyed list leaves the same
    positions, in another order. *)
Lemma swap_positions_perm (a b : Block.row) (l : list Block.row) :
  NoDup (map Block.id l) -> In a l -> In b l ->
  Permutation (map (position_after_swap a b) l) (map Block.position l).
Proof.
  intros Hnd Ha Hb.
  destruct (Z.eq_dec (Block.id a) (Block.id b)) as [E|NE].
  - assert (a = b) as <- by (eapply key_inj; eauto).
    replace (map (position_after_swap a a) l) with (map Block.position l);
      [apply Permutation_refl|].
    apply map_ext_in. intros c Hc. unfold position_after_swap.
    destruct (Z.eqb_spec (Block.id c) (Block.id a)) as [Ec|]; [|reflexivity].
    now rewrite (key_inj Block.id l c a Hnd Hc Ha Ec).
  - assert (Hab : a <> b) by congruence.
    assert (Haa : position_after_swap a b a = Block.position b).
    { unfold position_after_swap. now rewrite Z.eqb_refl. }
    assert (Hbb : position_after_swap a b b = Block.position a).
    { unfold position_after_swap. rewrite Z.eqb_refl.
      destruct (Z.eqb_spec (Block.id b) (Block.id a)); congruence. }
    destruct (in_split _ _ Ha) as (l1 & l2 & ->).
    rewrite map_app in Hnd. simpl in Hnd.
    destruct (NoDup_app_cons_not_in _ _ _ Hnd) as (Ha1 & Ha2 & Hnd').
    apply in_app_or in Hb as [Hb|[Hb|Hb]]; [|congruence|].
    + destruct (in_split _ _ Hb) as (l3 & l4 & ->).
      rewrite map_app in Hnd', Ha1. simpl in Hnd', Ha1.
      rewrite <- app_assoc in Hnd'. simpl in Hnd'.
      destruct (NoDup_app_cons_not_in _ _ _ Hnd') as (Hb3 & Hb4 & _).
      rewrite in_app_iff in Hb4, Ha1. simpl in Ha1.
      rewrite <- app_assoc. simpl. rewrite !map_app. simpl. rewrite !map_app. simpl.
      rewrite Haa, Hbb.
      rewrite !map_position_after_swap_other by tauto.
      apply perm_exchange.
    + destruct (in_split _ _ Hb) as (l3 & l4 & ->).
      rewrite map_app in Hnd', Ha2. simpl in Hnd', Ha2.
      rewrite app_assoc in Hnd'.
      destruct (NoDup_app_cons_not_in _ _ _ Hnd') as (Hb3 & Hb4 & _).
      rewrite in_app_iff in Hb3, Ha2. simpl in Ha2.
      rewrite !map_app. simpl. rewrite !map_app. simpl.
      rewrite Haa, Hbb.
      rewrite !map_position_after_swap_other by tauto.
      apply perm_exchange.
Qed.

Lemma positions_after_two_updates (db : database) (a b : Block.row)
    (ta tb : string) (p : Z) :
  (Block.id a = Block.id b -> Block.position a = Block.position b) ->
  positions
    (update_block_position
       (update_block_position db (Block.position b) ta (Block.id a))
       (Block.position a) tb (Block.id b)) p =
  map (position_after_swap a b) (page_blocks db p).
Proof.
  intros Hab. unfold positions. rewrite !page_blocks_update, !map_map.
  apply map_ext. intros c. unfold position_after_swap.
  destruct (Z.eqb_spec (Block.id c) (Block.id a)) as [Ea|Na]; simpl.
  - destruct (Z.eqb_spec (Block.id c) (Block.id b)) as [Eb|Nb]; simpl; [|reflexivity].
    apply Hab. congruence.
  - now destruct (Block.id c =? Block.id b).
Qed.

Lemma swap_preserves_positions (db : database) (a b : Block.row) (p : Z) :
  primary_key db -> In a (blocks db) -> In b (blocks db) ->
  Block.page_id a = Block.page_id b ->
  Permutation (map (position_after_swap a b) (page_blocks db p)) (positions db p).
Proof.
  intros Hk Ha Hb Hp. unfold positions.
  destruct (Z.eq_dec (Block.page_id a) p) as [E|NE].
  - apply swap_positions_perm.
    + now apply page_blocks_key.
    + apply in_page_blocks. auto.
    + apply in_page_blocks. split; [auto | congruence].
  - rewrite map_position_after_swap_other; [apply Permutation_refl| |];
      intros Hin; apply in_map_iff in Hin as (c & Hc & Hin);
      apply in_page_blocks in Hin as [Hin Hpc].
    + assert (c = a) by (eapply key_inj; eauto). congruence.
    + assert (c = b) by (eapply key_inj; eauto). congruence.
Qed.

(** *** A row added *)

Lemma le_fold_max (x : Z) (ids : list Z) :
  In x ids -> x <= fold_right Z.max 0 ids.
Proof.
  induction ids as [|y r IH]; simpl; [easy|].
  intros [->|H]; [lia|]. specialize (IH H). lia.
Qed.

Lemma next_rowid_fresh (seq : Z) (ids : list Z) : ~ In (next_rowid seq ids) ids.
Proof.
  intros H. apply le_fold_max in H. unfold next_rowid in H. lia.
Qed.

Lemma insert_block_inr (db db' : database) (page_id : Z) (type : field)
    (data_json : string) (position : Z) (t : string) :
  insert_block db page_id type data_json position t = inr db' ->
  exists ty,
    type = Some ty /\ mem_string ty block_types = true /\
    blocks db' =
      blocks db ++
      [Block.mk (next_rowid (seq_blocks db) (map Block.id (blocks db)))
         page_id ty data_json position t t].
Proof.
  unfold insert_block. destruct type as [ty|]; [|discriminate].
  destruct (mem_string ty block_types) eqn:Hty; simpl; [|discriminate].
  destruct (foreign_keys db && _); [discriminate|].
  intros [= <-]. exists ty. simpl. auto.
Qed.

Lemma insert_block_key (db db' : database) (page_id : Z) (type : field)
    (data_json : string) (position : Z) (t : string) :
  insert_block db page_id type data_json position t = inr db' ->
  primary_key db -> primary_key db'.
Proof.
  intros H Hk. apply insert_block_inr in H as (ty & _ & _ & H).
  unfold primary_key. rewrite H, map_app. simpl.
  apply (Permutation_NoDup (Permutation_cons_append _ _)).
  constructor; [apply next_rowid_fresh | exact Hk].
Qed.

Lemma js_or_num_count (c : Z) : js_or_num c 0 = c.
Proof. unfold js_or_num. destruct (Z.eqb_spec c 0); congruence. Qed.

Lemma page_blocks_app (db : database) (l1 l2 : list Block.row) (s p : Z) :
  blocks db = l1 ++ l2 ->
  page_blocks db p = filter (of_page p) l1 ++ filter (of_page p) l2.
Proof. intros H. unfold page_blocks. now rewrite H, filter_app. Qed.

(** *** The renumbering loop *)

Lemma index_of_not_in (id : Z) (ids : list Z) :
  ~ In id ids -> index_of id ids = None.
Proof.
  induction ids as [|x r IH]; simpl; [easy|].
  intros H. destruct (Z.eqb_spec x id); [tauto|].
  rewrite IH; tauto.
Qed.

Lemma index_of_in (id : Z) (ids : list Z) :
  In id ids -> exists k, index_of id ids = Some k /\ (k < List.length ids)%nat.
Proof.
  induction ids as [|x r IH]; simpl; [easy|].
  intros H. destruct (Z.eqb_spec x id) as [E|NE].
  - exists O. split; [reflexivity | lia].
  - destruct H as [H|H]; [congruence|].
    destruct (IH H) as (k & -> & Hk). exists (S k). split; [reflexivity | lia].
Qed.

Lemma renumbered_id (now : nat -> string) (i : nat) (ids : list Z) (c : Block.row) :
  Block.id (renumbered now i ids c) = Block.id c.
Proof. unfold renumbered. now destruct (index_of _ _). Qed.

Lemma renumbered_page_id (now : nat -> string) (i : nat) (ids : list Z)
    (c : Block.row) :
  Block.page_id (renumbered now i ids c) = Block.page_id c.
Proof. unfold renumbered. now destruct (index_of _ _). Qed.

Lemma renumber_blocks (now : nat -> string) (bs : list Block.row) :
  NoDup (map Block.id bs) ->
  forall (db : database) (i : nat),
    blocks (renumber db now i bs) =
    map (renumbered now i (map Block.id bs)) (blocks db).
Proof.
  induction bs as [|b r IH]; intros Hnd db i; simpl.
  - symmetry. apply map_fixed. reflexivity.
  - inversion Hnd as [|? ? Hb Hr]; subst.
    rewrite (IH Hr). simpl. rewrite map_map. apply map_ext. intros c.
    unfold renumbered. simpl.
    destruct (Z.eqb_spec (Block.id c) (Block.id b)) as [E|NE].
    + simpl. rewrite E, Z.eqb_refl, index_of_not_in by exact Hb.
      now rewrite Nat.add_0_r.
    + destruct (Z.eqb_spec (Block.id b) (Block.id c)) as [|_]; [congruence|].
      destruct (index_of (Block.id c) (map Block.id r)) as [k|]; simpl; [|reflexivity].
      now replace (i + S k)%nat with (S i + k)%nat by lia.
Qed.

Lemma renumbered_positions (now : nat -> string) (bs : list Block.row) :
  NoDup (map Block.id bs) ->
  forall i : nat,
    map (fun c => Block.position (renumbered now i (map Block.id bs) c)) bs =
    map Z.of_nat (seq (S i) (List.length bs)).
Proof.
  induction bs as [|b r IH]; intros Hnd i; simpl; [reflexivity|].
  inversion Hnd as [|? ? Hb Hr]; subst.
  f_equal.
  - unfold renumbered. simpl. rewrite Z.eqb_refl. simpl. lia.
  - rewrite <- (IH Hr (S i)). apply map_ext_in. intros c Hc.
    unfold renumbered. simpl.
    destruct (Z.eqb_spec (Block.id b) (Block.id c)) as [E|NE].
    + exfalso. apply Hb. rewrite E. now apply in_map.
    + destruct (index_of (Block.id c) (map Block.id r)) as [k|]; simpl; [|reflexivity].
      lia.
Qed.

Lemma renumber_key (now : nat -> string) (bs : list Block.row) (db : database)
    (i : nat) :
  NoDup (map Block.id bs) -> primary_key db -> primary_key (renumber db now i bs).
Proof.
  intros Hnd Hk. unfold primary_key. rewrite renumber_blocks by exact Hnd.
  rewrite map_map.
  erewrite map_ext; [exact Hk|]. intros c. apply renumbered_id.
Qed.

Lemma page_blocks_renumber (now : nat -> string) (bs : list Block.row)
    (db : database) (i : nat) (p : Z) :
  NoDup (map Block.id bs) ->
  page_blocks (renumber db now i bs) p =
  map (renumbered now i (map Block.id bs)) (page_blocks db p).
Proof.
  intros Hnd. unfold page_blocks. rewrite renumber_blocks by exact Hnd.
  apply filter_of_page_map. intros c. apply renumbered_page_id.
Qed.

(** ** The three block operations keep the positions of every page 1..N *)

Section Ordering.

Variable JSON_stringify : JSON.value -> string.
Variable now : nat -> string.

Lemma post_blocks_add_gapless (db : database) (session : option Session.user)
    (id : string) (type : field) (p : Z) :
  primary_key db -> gapless db p ->
  primary_key (fst (post_blocks_add JSON_stringify now db session id type)) /\
  gapless (fst (post_blocks_add JSON_stringify now db session id type)) p.
Proof.
  intros Hk Hg. unfold post_blocks_add, requireAuth.
  destruct session as [user|]; [|now split].
  destruct (select_page db id) as [page|]; [|now split].
  destruct (insert_block _ _ _ _ _ _) as [e|db'] eqn:Hins; [now split|]. simpl.
  split; [eapply insert_block_key; eauto|].
  apply insert_block_inr in Hins as (ty & _ & _ & Hb).
  unfold gapless, positions in *.
  rewrite (page_blocks_app db' _ _ 0 p Hb). fold (page_blocks db p).
  unfold filter, of_page. simpl.
  destruct (Z.eqb_spec (Page.id page) p) as [->|NE].
  - rewrite map_app, length_app. simpl.
    rewrite Nat.add_1_r, one_to_S, js_or_num_count.
    unfold count_blocks_of_page. fold (page_blocks db p).
    now apply Permutation_app_tail.
  - now rewrite app_nil_r.
Qed.

Lemma delete_block_other_page (db : database) (block : Block.row) (p : Z) :
  primary_key db -> In block (blocks db) -> Block.page_id block <> p ->
  page_blocks (delete_block db (Block.id block)) p = page_blocks db p.
Proof.
  intros Hk Hin Hp. unfold page_blocks, delete_block. simpl.
  assert (H : forall c, In c (blocks db) -> Block.id c = Block.id block ->
                        of_page p c = false).
  { intros c Hc E. assert (c = block) as -> by (eapply key_inj; eauto).
    unfold of_page. now apply Z.eqb_neq. }
  clear Hk Hin.
  induction (blocks db) as [|c r IH]; simpl; [reflexivity|].
  destruct (Z.eqb_spec (Block.id c) (Block.id block)) as [E|NE]; simpl.
  - rewrite (H c) by (simpl; auto). apply IH. intros; apply H; simpl; auto.
  - destruct (of_page p c); rewrite IH; auto; intros; apply H; simpl; auto.
Qed.

Lemma delete_block_in (db : database) (id : Z) (c : Block.row) :
  In c (blocks (delete_block db id)) <-> In c (blocks db) /\ Block.id c <> id.
Proof.
  unfold delete_block. simpl. rewrite filter_In, negb_true_iff, Z.eqb_neq. tauto.
Qed.

Lemma delete_block_key (db : database) (id : Z) :
  primary_key db -> primary_key (delete_block db id).
Proof. apply NoDup_map_filter. Qed.

Lemma select_blocks_of_page_key (db : database) (p : Z) :
  primary_key db -> NoDup (map Block.id (select_blocks_of_page db p)).
Proof.
  intros Hk. unfold select_blocks_of_page, order_by_position.
  eapply Permutation_NoDup; [|apply (page_blocks_key db p Hk)].
  apply Permutation_map, Permutation_sym, order_by_perm.
Qed.

(** After the renumbering loop over the listing of a page, the positions of
    that page are 1..N whatever they were before. *)
Lemma renumber_gapless (db : database) (p : Z) :
  primary_key db ->
  gapless (renumber db now O (select_blocks_of_page db p)) p.
Proof.
  intros Hk. unfold gapless, positions.
  pose proof (select_blocks_of_page_key db p Hk) as Hnd.
  rewrite page_blocks_renumber by exact Hnd.
  rewrite length_map, map_map.
  eapply perm_trans.
  - apply Permutation_map. apply Permutation_sym.
    apply (order_by_perm position_asc (page_blocks db p)).
  - fold (order_by_position (page_blocks db p)).
    fold (select_blocks_of_page db p).
    rewrite renumbered_positions by exact Hnd.
    unfold select_blocks_of_page, order_by_position.
    rewrite order_by_length. apply Permutation_refl.
Qed.

(** The renumbering loop over the listing of a page leaves the rows of the
    other pages as they are. *)
Lemma renumber_other_page (db : database) (p q : Z) :
  primary_key db -> p <> q ->
  page_blocks (renumber db now O (select_blocks_of_page db q)) p = page_blocks db p.
Proof.
  intros Hk Hpq.
  rewrite page_blocks_renumber by now apply select_blocks_of_page_key.
  apply map_fixed. intros c Hc. unfold renumbered.
  rewrite index_of_not_in; [reflexivity|].
  intros Hin. apply in_map_iff in Hin as (c' & E & Hc').
  apply in_select_blocks_of_page in Hc' as [Hc' Hq].
  apply in_page_blocks in Hc as [Hc Hp].
  assert (c' = c) by (eapply key_inj; eauto). congruence.
Qed.

Lemma post_blocks_delete_gapless (db : database) (session : option Session.user)
    (blockId : string) (p : Z) :
  primary_key db -> gapless db p ->
  primary_key (fst (post_blocks_delete now db session blockId)) /\
  gapless (fst (post_blocks_delete now db session blockId)) p.
Proof.
  intros Hk Hg. unfold post_blocks_delete, requireAuth.
  destruct session as [user|]; [|now split].
  destruct (select_block db blockId) as [block|] eqn:Hsel; [|now split]. simpl.
  apply select_block_in in Hsel.
  pose proof (delete_block_key db (Block.id block) Hk) as Hk1.
  split.
  - apply renumber_key; [now apply select_blocks_of_page_key | exact Hk1].
  - destruct (Z.eq_dec p (Block.page_id block)) as [->|NE].
    + now apply renumber_gapless.
    + unfold gapless, positions in *.
      rewrite renumber_other_page by assumption.
      rewrite delete_block_other_page by auto. exact Hg.
Qed.

Lemma findIndex_nth {A : Type} (q : A -> bool) (l : list A) :
  findIndex q l <> -1 ->
  0 <= findIndex q l < Z.of_nat (List.length l) /\
  exists x, nth_error l (Z.to_nat (findIndex q l)) = Some x /\ q x = true.
Proof.
  induction l as [|x r IH]; simpl; [easy|].
  destruct (q x) eqn:Hq.
  - intros _. split; [lia|]. exists x. auto.
  - destruct (Z.eqb_spec (findIndex q r) (-1)) as [E|NE]; [easy|].
    intros _. destruct (IH NE) as (Hr & y & Hy & Hqy).
    split; [lia|]. exists y. split; [|exact Hqy].
    replace (Z.to_nat (findIndex q r + 1)) with (S (Z.to_nat (findIndex q r))) by lia.
    exact Hy.
Qed.

Lemma post_blocks_move_gapless (db : database) (session : option Session.user)
    (blockId : string) (dir : field) (p : Z) :
  primary_key db -> gapless db p ->
  primary_key (fst (post_blocks_move now db session blockId dir)) /\
  gapless (fst (post_blocks_move now db session blockId dir)) p.
Proof.
  intros Hk Hg. unfold post_blocks_move, requireAuth.
  destruct session as [user|]; [|now split].
  destruct (select_block db blockId) as [block|] eqn:Hsel; [|now split].
  cbv zeta.
  set (L := select_blocks_of_page db (Block.page_id block)).
  set (idx := findIndex _ L).
  set (swapIdx := if field_is dir "down" then idx + 1 else _).
  destruct (idx =? -1); [now split|].
  destruct (_ || _); [now split|].
  destruct (nth_error L (Z.to_nat idx)) as [a|] eqn:Ha; [|now split].
  destruct (nth_error L (Z.to_nat swapIdx)) as [b|] eqn:Hb; [|now split]. simpl.
  apply nth_error_In, in_select_blocks_of_page in Ha as [Ha Hpa].
  apply nth_error_In, in_select_blocks_of_page in Hb as [Hb Hpb].
  split; [now do 2 apply update_block_position_key|].
  unfold gapless. rewrite !page_blocks_length_update.
  rewrite positions_after_two_updates.
  - eapply perm_trans; [|exact Hg].
    apply swap_preserves_positions; auto. congruence.
  - intros E. now rewrite (key_inj Block.id (blocks db) a b Hk Ha Hb E).
Qed.

End Ordering.

Lemma serve_gapless (JSON_stringify : JSON.value -> string) (db : database)
    (r : request) (p : Z) :
  primary_key db -> gapless db p ->
  primary_key (fst (serve JSON_stringify db r)) /\
  gapless (fst (serve JSON_stringify db r)) p.
Proof.
  intros Hk Hg. unfold serve. destruct (asks r).
  - now apply post_blocks_add_gapless.
  - now apply post_blocks_delete_gapless.
  - now apply post_blocks_move_gapless.
Qed.

(** C1.  Whatever block requests (add, delete, move) the server handles one
    after the other, by whomever and for whichever page or block, a page
    whose positions are 1..N before them has positions 1..N' after them, N'
    being the number of blocks it then has: each value once, none missing.
    A single request is the sequence of length one. *)
Theorem positions_stay_gapless (JSON_stringify : JSON.value -> string)
    (rs : list request) (db : database) (p : Z) :
  primary_key db -> gapless db p ->
  gapless (serve_all JSON_stringify db rs) p.
Proof.
  unfold serve_all. revert db.
  induction rs as [|r rs IH]; intros db Hk Hg; simpl; [exact Hg|].
  destruct (serve_gapless JSON_stringify db r p Hk Hg) as [Hk' Hg'].
  now apply IH.
Qed.

(** ** The listing of a page under the invariant *)

Lemma sorted_map_position (l : list Block.row) :
  StronglySorted (fun x y => Block.position x <= Block.position y) l ->
  StronglySorted Z.le (map Block.position l).
Proof.
  induction 1 as [|c r Hr IH Hc]; simpl; constructor; [exact IH|].
  rewrite Forall_forall in Hc |- *. intros y Hy.
  apply in_map_iff in Hy as (x & <- & Hx). now apply Hc.
Qed.

Lemma select_blocks_of_page_length (db : database) (p : Z) :
  List.length (select_blocks_of_page db p) = List.length (page_blocks db p).
Proof. apply order_by_length. Qed.

(** In display order the blocks of a gapless page have positions 1, 2, ... *)
Lemma listing_positions (db : database) (p : Z) :
  gapless db p ->
  map Block.position (select_blocks_of_page db p) =
  one_to (List.length (page_blocks db p)).
Proof.
  intros Hg. apply sorted_perm_eq.
  - apply sorted_map_position, order_by_position_sorted.
  - apply one_to_sorted.
  - eapply perm_trans; [|exact Hg].
    apply Permutation_map, order_by_perm.
Qed.

Lemma listing_nth_position (db : database) (p : Z) (i : nat) (c : Block.row) :
  gapless db p -> nth_error (select_blocks_of_page db p) i = Some c ->
  Block.position c = Z.of_nat i + 1.
Proof.
  intros Hg Hc.
  assert (Hi : (i < List.length (page_blocks db p))%nat).
  { rewrite <- select_blocks_of_page_length. apply nth_error_Some. congruence. }
  pose proof (one_to_nth _ _ Hi) as H.
  rewrite <- (listing_positions db p Hg), nth_error_map, Hc in H.
  simpl in H. congruence.
Qed.

Lemma findIndex_lower {A : Type} (q : A -> bool) (l : list A) : -1 <= findIndex q l.
Proof.
  induction l as [|x r IH]; simpl; [lia|].
  destruct (q x); [lia|].
  destruct (Z.eqb_spec (findIndex q r) (-1)); lia.
Qed.

Lemma findIndex_found {A : Type} (q : A -> bool) (l : list A) (x : A) :
  In x l -> q x = true -> findIndex q l <> -1.
Proof.
  induction l as [|y r IH]; simpl; [easy|].
  intros Hin Hq. destruct (q y) eqn:Hy; [lia|].
  destruct Hin as [->|Hin]; [congruence|].
  specialize (IH Hin Hq). pose proof (findIndex_lower q r).
  destruct (Z.eqb_spec (findIndex q r) (-1)); lia.
Qed.

(** The block a request names is found in the listing of its page at the
    index one below its position. *)
Lemma findIndex_listing (db : database) (block : Block.row) :
  primary_key db -> In block (blocks db) -> gapless db (Block.page_id block) ->
  let L := select_blocks_of_page db (Block.page_id block) in
  let idx := findIndex (fun b => Block.id b =? Block.id block) L in
  idx = Block.position block - 1 /\
  nth_error L (Z.to_nat idx) = Some block /\
  1 <= Block.position block <= Z.of_nat (List.length L).
Proof.
  intros Hk Hin Hg L idx.
  assert (Hne : idx <> -1).
  { apply (findIndex_found _ L block); [|apply Z.eqb_refl].
    apply in_select_blocks_of_page; auto. }
  destruct (findIndex_nth _ L Hne) as (Hr & x & Hx & Hq). fold idx in Hr, Hx.
  apply Z.eqb_eq in Hq.
  assert (x = block) as ->.
  { apply nth_error_In, in_select_blocks_of_page in Hx as [Hx _].
    eapply key_inj; eauto. }
  pose proof (listing_nth_position _ _ _ _ Hg Hx) as Hp.
  repeat split; try lia. exact Hx.
Qed.

(** ** Moving a block *)

Lemma two_updates_swapped (db : database) (a b : Block.row) (ta tb : string) :
  Block.id a <> Block.id b ->
  update_block_position
    (update_block_position db (Block.position b) ta (Block.id a))
    (Block.position a) tb (Block.id b) =
  with_blocks db (map (swapped a b ta tb) (blocks db)) (seq_blocks db).
Proof.
  intros Hab. unfold update_block_position, with_blocks. simpl. f_equal.
  rewrite map_map. apply map_ext. intros c. unfold swapped.
  destruct (Z.eqb_spec (Block.id c) (Block.id a)) as [Ea|Na]; simpl.
  - destruct (Z.eqb_spec (Block.id c) (Block.id b)); [congruence | reflexivity].
  - reflexivity.
Qed.

Lemma field_is_up_down (dir : field) :
  field_is dir "up" = true -> field_is dir "down" = false.
Proof.
  destruct dir as [d|]; simpl; [|discriminate].
  intros H. apply String.eqb_eq in H. now subst.
Qed.



(** ** Appending a block *)

Lemma insert_by_last {A : Type} (le : A -> A -> bool) (y x : A) (l : list A) :
  le y x = true -> (forall z, In z l -> le z x = true) ->
  insert_by le y (l ++ [x]) = insert_by le y l ++ [x].
Proof.
  intros Hy Hl. induction l as [|z r IH]; simpl.
  - now rewrite Hy.
  - destruct (le y z); [reflexivity|].
    rewrite IH; [reflexivity|]. intros; apply Hl; now right.
Qed.

Lemma order_by_last {A : Type} (le : A -> A -> bool) (x : A) (l : list A) :
  (forall z, In z l -> le z x = true) ->
  order_by le (l ++ [x]) = order_by le l ++ [x].
Proof.
  intros Hl. induction l as [|z r IH]; simpl; [reflexivity|].
  rewrite IH by (intros; apply Hl; now right).
  apply insert_by_last; [apply Hl; now left|].
  intros w Hw. apply order_by_in in Hw. apply Hl. now right.
Qed.

Lemma gapless_bound (db : database) (p : Z) (c : Block.row) :
  gapless db p -> In c (page_blocks db p) ->
  1 <= Block.position c <= Z.of_nat (List.length (page_blocks db p)).
Proof.
  intros Hg Hc.
  assert (H : In (Block.position c) (one_to (List.length (page_blocks db p)))).
  { eapply Permutation_in; [exact Hg|]. unfold positions. now apply in_map. }
  unfold one_to in H. apply in_map_iff in H as (m & <- & Hm).
  apply in_seq in Hm. lia.
Qed.

Lemma select_page_in (db : database) (param : string) (page : Page.row) :
  select_page db param = Some page -> In page (pages db).
Proof. intros H. now apply find_some in H. Qed.

(** C8.  A block added to a page by an authenticated user, with one of the
    five types, becomes a new last row of [blocks] whose position is the
    number of blocks the page had plus one; on a page whose positions were
    1..N the listing by ascending position is the former listing followed by
    the new block. *)
Theorem add_appends_at_count_plus_one (JSON_stringify : JSON.value -> string)
    (now : nat -> string) (db : database) (user : Session.user) (id : string)
    (page : Page.row) (type : string) :
  select_page db id = Some page ->
  In type block_types ->
  let pid := Page.id page in
  let new :=
    Block.mk (next_rowid (seq_blocks db) (map Block.id (blocks db))) pid type
      (JSON_stringify (default_data (Some type)))
      (count_blocks_of_page db pid + 1) (now 0%nat) (now 0%nat) in
  let added := post_blocks_add JSON_stringify now db (Some user) id (Some type) in
  added = (with_blocks db (blocks db ++ [new]) (Block.id new),
           redirect (blocks_url pid)) /\
  (gapless db pid ->
   select_blocks_of_page (fst added) pid = select_blocks_of_page db pid ++ [new]).
Proof.
  intros Hsel Hty pid new added.
  assert (Hadd : added = (with_blocks db (blocks db ++ [new]) (Block.id new),
                          redirect (blocks_url pid))).
  { unfold added, post_blocks_add, requireAuth. rewrite Hsel. cbv zeta.
    rewrite js_or_num_count. unfold insert_block.
    assert (mem_string type block_types = true) as ->.
    { unfold mem_string. apply existsb_exists. exists type.
      split; [exact Hty | apply String.eqb_refl]. }
    assert (existsb (fun p => Page.id p =? Page.id page) (pages db) = true) as ->.
    { apply existsb_exists. exists page.
      split; [now apply select_page_in in Hsel | apply Z.eqb_refl]. }
    simpl. rewrite andb_false_r. reflexivity. }
  split; [exact Hadd|].
  intros Hg. rewrite Hadd. unfold select_blocks_of_page. simpl.
  rewrite filter_app. simpl.
  unfold of_page at 2. simpl. rewrite Z.eqb_refl.
  apply order_by_last. intros z Hz.
  pose proof (gapless_bound db pid z Hg Hz) as Hb.
  unfold position_asc, new, count_blocks_of_page. simpl.
  fold (page_blocks db pid). apply Z.leb_le. lia.
Qed.

(** ** [JSON.parse] after [JSON.stringify] *)

Lemma stringify_Arr (l : list JSON.value) :
  JSON.stringify (JSON.Arr l) = String "[" (elements l ++ "]").
Proof. reflexivity. Qed.

Lemma stringify_Obj (l : list (string * JSON.value)) :
  JSON.stringify (JSON.Obj l) = String "{" (members l ++ "}").
Proof. reflexivity. Qed.

Lemma well_formed_Arr (l : list JSON.value) :
  well_formed (JSON.Arr l) <-> Forall well_formed l.
Proof.
  simpl. induction l as [|x r IH]; split; intros H.
  - constructor.
  - exact I.
  - destruct H as [Hx Hr]. constructor; [exact Hx | now apply IH].
  - inversion H; subst. split; [assumption | now apply IH].
Qed.

Lemma well_formed_Obj (l : list (string * JSON.value)) :
  well_formed (JSON.Obj l) <->
  object_keys l /\ Forall (fun kv => well_formed (snd kv)) l.
Proof.
  simpl. apply and_iff_compat_l.
  induction l as [|x r IH]; split; intros H.
  - constructor.
  - exact I.
  - destruct H as [Hx Hr]. constructor; [exact Hx | now apply IH].
  - inversion H; subst. split; [assumption | now apply IH].
Qed.

(** *** Strings *)

Lemma append_assoc (a b c : string) : ((a ++ b) ++ c = a ++ (b ++ c))%string.
Proof. induction a as [|x a IH]; simpl; [reflexivity | now rewrite IH]. Qed.

Lemma parse_string_quote_char (c : ascii) (tail : string) :
  JSON.parse_string (JSON.quote_char c ++ tail) =
  JSON.prepend (String c "") (JSON.parse_string tail).
Proof.
  destruct c as [[] [] [] [] [] [] [] []]; reflexivity.
Qed.

Lemma parse_string_quote_chars (s rest : string) :
  JSON.parse_string (JSON.quote_chars s ++ String JSON.dquote rest) = Some (s, rest).
Proof.
  induction s as [|c s IH]; simpl; [reflexivity|].
  now rewrite append_assoc, parse_string_quote_char, IH.
Qed.

Lemma quote_append (s rest : string) :
  (JSON.quote s ++ rest)%string =
  String JSON.dquote (JSON.quote_chars s ++ String JSON.dquote rest).
Proof. unfold JSON.quote. simpl. now rewrite append_assoc. Qed.

(** *** Numbers *)

Lemma ends_number_digit (rest : string) :
  ends_number rest = true ->
  match rest with
  | String c _ => is_digit c = false
  | EmptyString => True
  end.
Proof.
  destruct rest as [|c r]; simpl; [easy|].
  intros H. apply andb_true_iff in H as [H _]. now apply negb_true_iff in H.
Qed.

Lemma ends_number_integer (rest : string) :
  ends_number rest = true -> JSON.ends_integer rest = true.
Proof.
  destruct rest as [|c r]; [easy|]. unfold ends_number.
  intros H. now apply andb_true_iff in H as [_ H].
Qed.

Lemma read_uint_string_of_uint (d : uint) (rest : string) :
  ends_number rest = true ->
  JSON.read_uint (NilEmpty.string_of_uint d ++ rest) = (d, rest).
Proof.
  intros H. apply ends_number_digit in H.
  induction d; simpl; try (rewrite IHd; reflexivity).
  destruct rest as [|c r]; simpl; [reflexivity | now rewrite H].
Qed.

Lemma nzhead_not_D0 (d d' : uint) : nzhead d <> D0 d'.
Proof. induction d; simpl; congruence. Qed.

Lemma to_uint_head (p : positive) :
  match Pos.to_uint p with
  | Nil | D0 _ => False
  | _ => True
  end.
Proof.
  pose proof (DecimalPos.Unsigned.to_of (Pos.to_uint p)) as H.
  rewrite DecimalPos.Unsigned.of_to in H. simpl in H.
  pose proof (DecimalPos.Unsigned.to_uint_nonzero p) as Hz.
  destruct (Pos.to_uint p) as [|d| | | | | | | | |] eqn:E; try exact I.
  - now apply (DecimalPos.Unsigned.to_uint_nonnil p).
  - unfold unorm in H. simpl in H.
    destruct (nzhead d) as [|u| | | | | | | | |] eqn:En; try discriminate.
    + injection H as H. subst d. now apply Hz.
    + now apply (nzhead_not_D0 d u).
Qed.

Lemma parse_unsigned_to_uint (p : positive) (rest : string) :
  ends_number rest = true ->
  JSON.parse_unsigned (NilEmpty.string_of_uint (Pos.to_uint p) ++ rest) =
  Some (Npos p, rest).
Proof.
  intros H. unfold JSON.parse_unsigned.
  rewrite (read_uint_string_of_uint _ _ H), (ends_number_integer _ H).
  pose proof (to_uint_head p) as Hh.
  pose proof (DecimalPos.Unsigned.of_to p) as Hv. unfold N.of_uint.
  destruct (Pos.to_uint p); try easy; now rewrite Hv.
Qed.

Lemma string_of_uint_head (d : uint) (rest : string) :
  match d with Nil => False | _ => True end ->
  exists c s,
    (NilEmpty.string_of_uint d ++ rest)%string = String c s /\
    is_digit c = true.
Proof.
  destruct d; simpl; try easy; intros _; eexists; eexists; split; reflexivity.
Qed.

Lemma NilZero_string_of_uint (p : positive) :
  NilZero.string_of_uint (Pos.to_uint p) = NilEmpty.string_of_uint (Pos.to_uint p).
Proof.
  pose proof (to_uint_head p) as Hh. now destruct (Pos.to_uint p).
Qed.

Lemma is_digit_not_minus (c : ascii) : is_digit c = true -> (c =? "-")%char = false.
Proof. destruct c as [[] [] [] [] [] [] [] []]; vm_compute; congruence. Qed.

Lemma parse_number_string_of_Z (n : Z) (rest : string) :
  ends_number rest = true ->
  JSON.parse_number (string_of_Z n ++ rest) = Some (n, rest).
Proof.
  intros H. unfold string_of_Z, JSON.parse_number.
  destruct n as [|p|p]; simpl.
  - unfold JSON.parse_unsigned.
    change (String "0" rest) with (NilEmpty.string_of_uint (D0 Nil) ++ rest)%string.
    now rewrite (read_uint_string_of_uint _ _ H), (ends_number_integer _ H).
  - rewrite NilZero_string_of_uint.
    destruct (string_of_uint_head (Pos.to_uint p) rest) as (c & s & E & Hc).
    { pose proof (to_uint_head p). now destruct (Pos.to_uint p). }
    rewrite E, (is_digit_not_minus _ Hc), <- E.
    now rewrite (parse_unsigned_to_uint _ _ H).
  - rewrite NilZero_string_of_uint.
    now rewrite (parse_unsigned_to_uint _ _ H).
Qed.

(** *** The first character of a value *)

Lemma string_length_append (a b : string) :
  String.length (a ++ b) = (String.length a + String.length b)%nat.
Proof. induction a as [|c a IH]; simpl; [reflexivity | now rewrite IH]. Qed.

Lemma string_of_Z_head (n : Z) (rest : string) :
  exists c s,
    (string_of_Z n ++ rest)%string = String c s /\
    (is_digit c = true \/ c = "-"%char).
Proof.
  unfold string_of_Z. destruct n as [|p|p]; simpl.
  - exists "0"%char, rest. auto.
  - rewrite NilZero_string_of_uint.
    destruct (string_of_uint_head (Pos.to_uint p) rest) as (c & s & E & Hc).
    { pose proof (to_uint_head p). now destruct (Pos.to_uint p). }
    exists c, s. auto.
  - eexists. eexists. split; [reflexivity | now right].
Qed.

Lemma number_head (c : ascii) :
  is_digit c = true \/ c = "-"%char ->
  value_head c = true /\
  (c =? "n")%char = false /\ (c =? "t")%char = false /\ (c =? "f")%char = false /\
  (c =? JSON.dquote)%char = false /\ (c =? "[")%char = false /\
  (c =? "{")%char = false.
Proof.
  intros [H| ->]; [|now vm_compute].
  revert H. destruct c as [[] [] [] [] [] [] [] []]; vm_compute; intros H;
    try discriminate H; repeat split.
Qed.

Lemma stringify_head (v : JSON.value) (rest : string) :
  exists c s, (JSON.stringify v ++ rest)%string = String c s /\ value_head c = true.
Proof.
  destruct v as [|[]|n|s|l|l].
  - now exists "n"%char, ("ull" ++ rest)%string.
  - now exists "t"%char, ("rue" ++ rest)%string.
  - now exists "f"%char, ("alse" ++ rest)%string.
  - destruct (string_of_Z_head n rest) as (c & s & E & Hc).
    exists c, s. split; [exact E | now apply number_head].
  - change (JSON.stringify (JSON.Str s)) with (JSON.quote s).
    rewrite quote_append. eexists. eexists. split; reflexivity.
  - rewrite stringify_Arr. eexists. eexists. split; reflexivity.
  - rewrite stringify_Obj. eexists. eexists. split; reflexivity.
Qed.

Lemma skip_ws_head (c : ascii) (s : string) :
  value_head c = true -> skip JSON.ws (String c s) = String c s.
Proof.
  unfold value_head. intros H. simpl.
  destruct (JSON.ws c); [discriminate | reflexivity].
Qed.

Lemma stringify_nonempty (v : JSON.value) : (1 <= String.length (JSON.stringify v))%nat.
Proof.
  destruct (stringify_head v "") as (c & s & E & _).
  assert (H : String.length (JSON.stringify v ++ "") = S (String.length s))
    by now rewrite E.
  rewrite string_length_append in H. simpl in H. lia.
Qed.

(** *** Properties created in order *)

Lemma add_property_last (l : list (string * JSON.value)) (k : string)
    (v : JSON.value) :
  (forall k', In k' (map fst l) -> key_before k' k) ->
  JSON.add_property l k v = l ++ [(k, v)].
Proof.
  induction l as [|[k' v'] r IH]; simpl; intros H; [reflexivity|].
  pose proof (H k' (or_introl eq_refl)) as Hk. unfold key_before in Hk.
  rewrite IH by (intros; apply H; now right).
  destruct (JSON.array_index k) as [i|], (JSON.array_index k') as [i'|];
    try reflexivity; try contradiction.
  destruct (N.ltb_spec i i'); [lia | reflexivity].
Qed.

Lemma set_property_new (l : list (string * JSON.value)) (k : string)
    (v : JSON.value) :
  object_keys (l ++ [(k, v)]) -> JSON.set_property l k v = l ++ [(k, v)].
Proof.
  intros [Hnd Hs]. rewrite map_app in Hnd, Hs. simpl in Hnd, Hs.
  unfold JSON.set_property.
  assert (Hk : ~ In k (map fst l)).
  { apply NoDup_remove_2 in Hnd. now rewrite app_nil_r in Hnd. }
  destruct (existsb _ l) eqn:E.
  - exfalso. apply Hk. apply existsb_exists in E as (kv & Hin & Heq).
    apply String.eqb_eq in Heq. rewrite <- Heq. now apply in_map.
  - apply add_property_last. clear E Hnd Hk.
    induction (map fst l) as [|k' r IH]; simpl in *; [easy|].
    inversion Hs as [|? ? Hr Hk']; subst.
    intros k'' [<-|Hin]; [|now apply IH].
    rewrite Forall_forall in Hk'. apply Hk'. apply in_or_app. right. now left.
Qed.

Lemma NoDup_prefix {A : Type} (a l : list A) (x : A) :
  NoDup (a ++ x :: l) -> NoDup (a ++ [x]).
Proof.
  induction a as [|y a IH]; simpl; intros H.
  - constructor; [easy | constructor].
  - inversion H as [|? ? Hy Ha]; subst. constructor; [|now apply IH].
    intros Hin. apply Hy. apply in_app_or in Hin as [Hin|[<-|[]]];
      apply in_or_app; [now left | right; now left].
Qed.

Lemma StronglySorted_prefix {A : Type} (R : A -> A -> Prop) (a l : list A) (x : A) :
  StronglySorted R (a ++ x :: l) -> StronglySorted R (a ++ [x]).
Proof.
  induction a as [|y a IH]; simpl; intros H.
  - constructor; constructor.
  - inversion H as [|? ? Ha Hy]; subst. constructor; [now apply IH|].
    rewrite Forall_forall in Hy |- *. intros z Hz. apply Hy.
    apply in_app_or in Hz as [Hz|[<-|[]]]; apply in_or_app;
      [now left | right; now left].
Qed.

Lemma object_keys_prefix (acc l : list (string * JSON.value)) (kv : string * JSON.value) :
  object_keys (acc ++ kv :: l) -> object_keys (acc ++ [kv]).
Proof.
  unfold object_keys. rewrite !map_app. simpl. intros [Hnd Hs]. split.
  - now apply NoDup_prefix in Hnd.
  - now apply StronglySorted_prefix in Hs.
Qed.

(** *** The reader on the text of a value *)

Lemma parse_elements_S (fuel : nat) (s : string) :
  JSON.parse_elements (S fuel) s =
  match JSON.parse_value fuel s with
  | None => None
  | Some (v, r) =>
      match skip JSON.ws r with
      | EmptyString => None
      | String c r1 =>
          if (c =? ",")%char then
            match JSON.parse_elements fuel r1 with
            | Some (l, rest) => Some (v :: l, rest)
            | None => None
            end
          else if (c =? "]")%char then Some ([v], r1)
          else None
      end
  end.
Proof. reflexivity. Qed.

Lemma parse_members_S (fuel : nat) (s : string) (acc : list (string * JSON.value)) :
  JSON.parse_members (S fuel) s acc =
  match skip JSON.ws s with
  | EmptyString => None
  | String q r =>
      if negb (q =? JSON.dquote)%char then None
      else
        match JSON.parse_string r with
        | None => None
        | Some (k, r1) =>
            match skip JSON.ws r1 with
            | EmptyString => None
            | String colon r2 =>
                if negb (colon =? ":")%char then None
                else
                  match JSON.parse_value fuel r2 with
                  | None => None
                  | Some (v, r3) =>
                      let acc' := JSON.set_property acc k v in
                      match skip JSON.ws r3 with
                      | EmptyString => None
                      | String c r4 =>
                          if (c =? ",")%char then JSON.parse_members fuel r4 acc'
                          else if (c =? "}")%char then Some (acc', r4)
                          else None
                      end
                  end
            end
        end
  end.
Proof. reflexivity. Qed.

Lemma parse_value_number (fuel : nat) (c : ascii) (s : string) :
  is_digit c = true \/ c = "-"%char ->
  JSON.parse_value (S fuel) (String c s) =
  match JSON.parse_number (String c s) with
  | Some (n, rest) => Some (JSON.Num n, rest)
  | None => None
  end.
Proof.
  intros H. destruct (number_head c H) as (Hh & H1 & H2 & H3 & H4 & H5 & H6).
  cbn [JSON.parse_value]. rewrite (skip_ws_head c s Hh).
  now rewrite H1, H2, H3, H4, H5, H6.
Qed.

Lemma parse_value_array (fuel : nat) (s : string) :
  JSON.parse_value (S fuel) (String "[" s) =
  match skip JSON.ws s with
  | EmptyString => None
  | String c1 r1 =>
      if (c1 =? "]")%char then Some (JSON.Arr [], r1)
      else
        match JSON.parse_elements fuel s with
        | Some (l, rest) => Some (JSON.Arr l, rest)
        | None => None
        end
  end.
Proof. reflexivity. Qed.

Lemma parse_value_object (fuel : nat) (s : string) :
  JSON.parse_value (S fuel) (String "{" s) =
  match skip JSON.ws s with
  | EmptyString => None
  | String c1 r1 =>
      if (c1 =? "}")%char then Some (JSON.Obj [], r1)
      else
        match JSON.parse_members fuel s [] with
        | Some (l, rest) => Some (JSON.Obj l, rest)
        | None => None
        end
  end.
Proof. reflexivity. Qed.

Lemma parse_value_string (fuel : nat) (s : string) :
  JSON.parse_value (S fuel) (String JSON.dquote s) =
  match JSON.parse_string s with
  | Some (str, rest) => Some (JSON.Str str, rest)
  | None => None
  end.
Proof. reflexivity. Qed.

Lemma restores_scalar (v : JSON.value) :
  match v with JSON.Arr _ | JSON.Obj _ => False | _ => True end -> restores v.
Proof.
  intros Hv _ fuel rest Hf Hr.
  destruct fuel as [|fuel]; [pose proof (stringify_nonempty v); lia|].
  destruct v as [|[]|n|s|l|l]; try contradiction; try reflexivity.
  - change (JSON.stringify (JSON.Num n)) with (string_of_Z n).
    destruct (string_of_Z_head n rest) as (c & s & E & Hc).
    rewrite E, (parse_value_number _ _ _ Hc), <- E.
    now rewrite parse_number_string_of_Z.
  - change (JSON.stringify (JSON.Str s)) with (JSON.quote s).
    now rewrite quote_append, parse_value_string, parse_string_quote_chars.
Qed.

Lemma elements_cons (x : JSON.value) (l : list JSON.value) (close : string) :
  (elements (x :: l) ++ close)%string =
  (JSON.stringify x ++ elements_tail l close)%string.
Proof.
  cbn [elements]. rewrite append_assoc. now destruct l.
Qed.

Lemma parse_elements_restore (l : list JSON.value) :
  Forall restores l -> Forall well_formed l -> l <> [] ->
  forall (fuel : nat) (rest : string),
    (String.length (elements l) < fuel)%nat ->
    JSON.parse_elements fuel (elements l ++ String "]" rest) = Some (l, rest).
Proof.
  induction 1 as [|x l Hx Hl IH]; intros Hwf Hne fuel rest Hf; [congruence|].
  inversion Hwf as [|? ? Hwx Hwl]; subst.
  destruct fuel as [|fuel]; [lia|].
  rewrite parse_elements_S, elements_cons.
  assert (Hlen : String.length (elements (x :: l)) =
                 (String.length (JSON.stringify x) +
                  match l with [] => 0 | _ :: _ => S (String.length (elements l)) end)%nat).
  { cbn [elements]. rewrite string_length_append. now destruct l. }
  rewrite (Hx Hwx fuel (elements_tail l (String "]" rest)));
    [|lia | now destruct l].
  destruct l as [|y l]; [reflexivity|].
  cbn [elements_tail].
  set (t := (elements (y :: l) ++ String "]" rest)%string).
  simpl. unfold t.
  rewrite IH; [reflexivity | exact Hwl | congruence | lia].
Qed.

Lemma members_cons (k : string) (x : JSON.value) (l : list (string * JSON.value))
    (close : string) :
  (members ((k, x) :: l) ++ close)%string =
  String JSON.dquote
    (JSON.quote_chars k ++
     String JSON.dquote (String ":" (JSON.stringify x ++ members_tail l close))).
Proof.
  cbn [members]. rewrite append_assoc, quote_append. do 2 f_equal.
  simpl. f_equal. rewrite append_assoc. now destruct l.
Qed.

Lemma parse_members_restore (l : list (string * JSON.value)) :
  Forall (fun kv => restores (snd kv)) l ->
  Forall (fun kv => well_formed (snd kv)) l -> l <> [] ->
  forall (acc : list (string * JSON.value)) (fuel : nat) (rest : string),
    object_keys (acc ++ l) ->
    (String.length (members l) < fuel)%nat ->
    JSON.parse_members fuel (members l ++ String "}" rest) acc = Some (acc ++ l, rest).
Proof.
  induction 1 as [|[k x] l Hx Hl IH]; intros Hwf Hne acc fuel rest Hk Hf;
    [congruence|].
  inversion Hwf as [|? ? Hwx Hwl]; subst. simpl in Hx, Hwx.
  destruct fuel as [|fuel]; [lia|].
  assert (Hlen : String.length (members ((k, x) :: l)) =
                 (String.length (JSON.quote k) + S (String.length (JSON.stringify x) +
                  match l with [] => 0 | _ :: _ => S (String.length (members l)) end))%nat).
  { cbn [members]. rewrite string_length_append. simpl.
    rewrite !string_length_append. destruct l; simpl; lia. }
  rewrite parse_members_S, members_cons.
  set (t := (JSON.stringify x ++ members_tail l (String "}" rest))%string).
  change (skip JSON.ws (String JSON.dquote ?s)) with (String JSON.dquote s).
  cbv iota. change (negb (JSON.dquote =? JSON.dquote)%char) with false. cbv iota.
  rewrite parse_string_quote_chars.
  change (skip JSON.ws (String ":" t)) with (String ":" t).
  cbv iota. change (negb (":" =? ":")%char) with false. cbv iota.
  unfold t.
  rewrite (Hx Hwx fuel (members_tail l (String "}" rest)));
    [|lia | now destruct l].
  cbv zeta. rewrite (set_property_new acc k x) by (eapply object_keys_prefix; eauto).
  destruct l as [|kv l]; [reflexivity|].
  cbn [members_tail].
  set (u := (members (kv :: l) ++ String "}" rest)%string).
  simpl. unfold u.
  rewrite IH; [now rewrite <- app_assoc | exact Hwl | congruence | | lia].
  now rewrite <- app_assoc.
Qed.

Lemma restores_all (v : JSON.value) : restores v.
Proof.
  induction v as [| | | |l IH|l IH] using value_ind';
    try (apply restores_scalar; exact I).
  - intros Hwf fuel rest Hf Hr. apply well_formed_Arr in Hwf.
    rewrite stringify_Arr in *. simpl in Hf.
    rewrite string_length_append in Hf. simpl in Hf.
    destruct fuel as [|fuel]; [lia|].
    cbn [append]. rewrite append_assoc. cbn [append].
    rewrite parse_value_array.
    destruct l as [|x l]; [reflexivity|].
    rewrite elements_cons.
    destruct (stringify_head x (elements_tail l (String "]" rest)))
      as (c & s & E & Hc).
    rewrite E at 1. rewrite (skip_ws_head _ _ Hc).
    assert ((c =? "]")%char = false) as ->.
    { unfold value_head in Hc. destruct (c =? "]")%char; [|reflexivity].
      now rewrite andb_false_r in Hc. }
    rewrite <- elements_cons.
    rewrite parse_elements_restore; [reflexivity | exact IH | exact Hwf | congruence | lia].
  - intros Hwf fuel rest Hf Hr. apply well_formed_Obj in Hwf as [Hk Hwf].
    rewrite stringify_Obj in *. simpl in Hf.
    rewrite string_length_append in Hf. simpl in Hf.
    destruct fuel as [|fuel]; [lia|].
    cbn [append]. rewrite append_assoc. cbn [append].
    rewrite parse_value_object.
    destruct l as [|[k x] l]; [reflexivity|].
    rewrite members_cons.
    change (skip JSON.ws (String JSON.dquote ?s)) with (String JSON.dquote s).
    cbv iota. change ((JSON.dquote =? "}")%char) with false. cbv iota.
    rewrite <- members_cons.
    rewrite parse_members_restore; [reflexivity | exact IH | exact Hwf | congruence | exact Hk | lia].
Qed.

Lemma append_empty (s : string) : (s ++ "")%string = s.
Proof. induction s as [|c s IH]; simpl; [reflexivity | now rewrite IH]. Qed.

Lemma parse_stringify (v : JSON.value) :
  well_formed v -> JSON.parse (JSON.stringify v) = Some v.
Proof.
  intros Hwf. unfold JSON.parse.
  rewrite <- (append_empty (JSON.stringify v)) at 2.
  rewrite (restores_all v Hwf); [reflexivity | lia | reflexivity].
Qed.

(** ** The payloads survive storage *)

Lemma well_formed_question (x : question) : well_formed (question_value x).
Proof.
  apply well_formed_Obj. split; [keys_in_order|].
  repeat (constructor; [simpl; try exact I|]); [|constructor].
  apply well_formed_Arr, Forall_map, Forall_forall. now intros.
Qed.

Lemma well_formed_payload (p : payload) : well_formed (payload_value p).
Proof.
  destruct p; apply well_formed_Obj; (split; [keys_in_order|]);
    repeat (constructor; [simpl; try exact I|]); try constructor.
  apply well_formed_Arr, Forall_map, Forall_forall.
  intros x _. apply well_formed_question.
Qed.

(** C7.  For every payload of each of the five block types, a quiz with any
    number of questions included, reading back what was written to
    [data_json] gives the payload again, field for field. *)
Theorem decode_encode (p : payload) : decode (encode p) = payload_value p.
Proof.
  unfold decode, encode, parseJsonSafe.
  now rewrite (parse_stringify _ (well_formed_payload p)).
Qed.

(** ** Deleting a page *)

(** On a connection that does not enforce foreign keys, deleting a page
    leaves the table of blocks as it is. *)
Lemma post_pages_delete_keeps_blocks (db : database)
    (session : option Session.user) (id : string) :
  foreign_keys db = false ->
  blocks (fst (post_pages_delete db session id)) = blocks db.
Proof.
  intros Hfk. unfold post_pages_delete, requireAuth.
  destruct session as [user|]; [|reflexivity].
  destruct (negb _); [reflexivity|]. simpl. now rewrite Hfk.
Qed.

(** The handlers never switch the pragma. *)
Lemma foreign_keys_renumber (now : nat -> string) (bs : list Block.row)
    (db : database) (i : nat) :
  foreign_keys (renumber db now i bs) = foreign_keys db.
Proof.
  revert db i. induction bs as [|b r IH]; intros db i; simpl; [reflexivity|].
  now rewrite IH.
Qed.

Lemma foreign_keys_serve (JSON_stringify : JSON.value -> string) (db : database)
    (r : request) :
  foreign_keys (fst (serve JSON_stringify db r)) = foreign_keys db.
Proof.
  unfold serve, post_blocks_add, post_blocks_delete, post_blocks_move, requireAuth.
  destruct (asks r); destruct (session r); try reflexivity.
  - destruct (select_page db page); [|reflexivity].
    unfold insert_block. destruct type; [|reflexivity].
    destruct (negb _); [reflexivity|]. destruct (_ && _); reflexivity.
  - destruct (select_block db blockId); [|reflexivity]. simpl.
    now rewrite foreign_keys_renumber.
  - destruct (select_block db blockId); [|reflexivity]. cbv zeta.
    destruct (_ =? -1); [reflexivity|]. destruct (_ || _); [reflexivity|].
    destruct (nth_error _ _); [|reflexivity].
    destruct (nth_error _ _); reflexivity.
Qed.

(** With the pragma on, the cascade of the schema removes the blocks of the
    deleted page: no block refers to a page that is gone. *)
Lemma post_pages_delete_cascades_when_enforced (db : database)
    (user : Session.user) (id : string) (b : Block.row) :
  foreign_keys db = true ->
  Session.role user = "admin" ->
  (forall c, In c (blocks db) -> exists p, In p (pages db) /\ Page.id p = Block.page_id c) ->
  In b (blocks (fst (post_pages_delete db (Some user) id))) ->
  exists p, In p (pages (fst (post_pages_delete db (Some user) id))) /\
            Page.id p = Block.page_id b.
Proof.
  intros Hfk Hrole Hrefs. unfold post_pages_delete, requireAuth.
  rewrite Hrole. simpl. rewrite Hfk. intros Hb.
  apply filter_In in Hb as [Hb Hkeep]. apply negb_true_iff in Hkeep.
  destruct (Hrefs b Hb) as (p & Hp & Hid). exists p. split; [|exact Hid].
  apply filter_In. split; [exact Hp|]. apply negb_true_iff.
  rewrite Hid. apply andb_false_iff in Hkeep as [H|H]; [exact H|].
  exfalso. assert (existsb (fun p0 => Page.id p0 =? Block.page_id b) (pages db) = true).
  { apply existsb_exists. exists p. split; [exact Hp | now apply Z.eqb_eq]. }
  congruence.
Qed.

(** C2, on the connection the program opens.  The admin deletes page 1 of
    the example site.  The page is gone, and so is the way to its blocks
    through the page (the listing of the page and the public page answer 404),
    but both blocks are still stored, each referring to page 1, and the editor
    view of block 1 still fetches and shows it, now without a page.  The
    cascade declared in the schema does not run, since [openDb] never turns
    [PRAGMA foreign_keys] on. *)
Theorem page_delete_leaves_its_blocks :
  let db' := fst (post_pages_delete site (Some admin) "1") in
  pages db' = [] /\
  blocks db' = blocks site /\
  map Block.page_id (blocks db') = [1; 1] /\
  snd (get_pages_blocks JSON.parse db' (Some admin) "1") = send 404 "Page not found" /\
  get_page JSON.parse db' None "sensors-101" = render 404 (public_notfound None) /\
  exists block data,
    get_blocks_edit JSON.parse db' (Some admin) "1" =
      (db', render 200 (admin_block_edit admin None block data None)) /\
    Block.id block = 1 /\ Block.page_id block = 1.
Proof.
  cbv zeta. repeat split.
  eexists. eexists. repeat split.
Qed.

(** ** Deleting a user *)

(** *** The two readings of the route parameter on a canonical numeral *)

Lemma digits_digit (c : ascii) (r : string) (acc : N) (k : nat) (v : N) :
  is_digit c = true -> digit_value c = v ->
  digits (String c r) acc k = digits r (10 * acc + v)%N (S k).
Proof. intros H <-. cbn [digits]. now rewrite H. Qed.

Lemma digits_string_of_uint (d : uint) (rest : string) :
  no_digit_ahead rest = true ->
  forall (acc : N) (k : nat),
    digits (NilEmpty.string_of_uint d ++ rest) acc k =
    (uint_value d acc, (k + nb_digits d)%nat, rest).
Proof.
  intros H.
  induction d; intros acc k;
    cbn [NilEmpty.string_of_uint append uint_value nb_digits];
    try (match goal with
         | |- digits (String ?c _) _ _ = _ =>
             let v := eval vm_compute in (digit_value c) in
             rewrite (digits_digit c _ _ _ v eq_refl eq_refl)
         end;
         rewrite IHd, ?N.add_0_r, Nat.add_succ_r; reflexivity).
  rewrite Nat.add_0_r. destruct rest as [|c r]; [reflexivity|].
  cbn [digits]. simpl in H. apply negb_true_iff in H. now rewrite H.
Qed.

Lemma uint_value_pos (d : uint) (a : positive) :
  uint_value d (Npos a) = Npos (Pos.of_uint_acc d a).
Proof.
  revert a. induction d; intros a; cbn [uint_value Pos.of_uint_acc];
    try reflexivity;
    match goal with
    | |- uint_value _ ?x = _ =>
        match goal with
        | |- _ = Npos (Pos.of_uint_acc _ ?y) =>
            replace x with (Npos y) by lia; apply IHd
        end
    end.
Qed.

Lemma uint_value_0 (d : uint) : uint_value d 0 = N.of_uint d.
Proof.
  unfold N.of_uint.
  induction d; cbn [uint_value Pos.of_uint]; try reflexivity; try exact IHd;
    apply uint_value_pos.
Qed.

Lemma uint_value_to_uint (p : positive) : uint_value (Pos.to_uint p) 0 = Npos p.
Proof.
  rewrite uint_value_0. unfold N.of_uint. apply DecimalPos.Unsigned.of_to.
Qed.

Lemma nb_digits_to_uint (p : positive) : exists n, nb_digits (Pos.to_uint p) = S n.
Proof.
  pose proof (to_uint_head p) as H.
  destruct (Pos.to_uint p); try contradiction; simpl; eauto.
Qed.

Lemma is_digit_head (c : ascii) :
  is_digit c = true ->
  js_space c = false /\ sqlite_space c = false /\
  (c =? "-")%char = false /\ (c =? "+")%char = false.
Proof.
  destruct c as [[] [] [] [] [] [] [] []]; vm_compute; intros H;
    try discriminate H; repeat split.
Qed.

(** The digits of a positive number, as both readers see them. *)
Lemma digits_to_uint (p : positive) :
  exists c s n,
    NilEmpty.string_of_uint (Pos.to_uint p) = String c s /\
    is_digit c = true /\
    digits (String c s) 0%N O = (Npos p, S n, "").
Proof.
  destruct (string_of_uint_head (Pos.to_uint p) "") as (c & s & E & Hc).
  { pose proof (to_uint_head p). now destruct (Pos.to_uint p). }
  rewrite append_empty in E.
  destruct (nb_digits_to_uint p) as (n & Hn).
  exists c, s, n. repeat split; try assumption.
  rewrite <- E, <- (append_empty (NilEmpty.string_of_uint _)).
  rewrite digits_string_of_uint by reflexivity.
  now rewrite uint_value_to_uint, Hn.
Qed.

Lemma parseInt_string_of_Z (n : Z) : parseInt (string_of_Z n) = Some n.
Proof.
  unfold parseInt, string_of_Z. destruct n as [|p|p]; simpl; [reflexivity| |].
  - rewrite NilZero_string_of_uint.
    destruct (digits_to_uint p) as (c & s & k & E & Hc & Hd).
    destruct (is_digit_head c Hc) as (Hs & _ & Hm & Hp).
    rewrite E. simpl. rewrite Hs. unfold sign. rewrite Hm, Hp.
    now rewrite Hd.
  - rewrite NilZero_string_of_uint.
    destruct (digits_to_uint p) as (c & s & k & E & Hc & Hd).
    rewrite E. now rewrite Hd.
Qed.

Lemma text_to_integer_string_of_Z (n : Z) : text_to_integer (string_of_Z n) = Some n.
Proof.
  unfold text_to_integer, string_of_Z. destruct n as [|p|p]; simpl; [reflexivity| |].
  - rewrite NilZero_string_of_uint.
    destruct (digits_to_uint p) as (c & s & k & E & Hc & Hd).
    destruct (is_digit_head c Hc) as (_ & Hs & Hm & Hp).
    rewrite E. simpl. rewrite Hs. unfold sign. rewrite Hm, Hp.
    rewrite Hd. simpl. f_equal. lia.
  - rewrite NilZero_string_of_uint.
    destruct (digits_to_uint p) as (c & s & k & E & Hc & Hd).
    rewrite E. rewrite Hd. simpl. f_equal. lia.
Qed.

Lemma id_eq_string_of_Z (n id : Z) : id_eq (string_of_Z n) id = (n =? id).
Proof. unfold id_eq. now rewrite text_to_integer_string_of_Z. Qed.

(** When the route parameter is the plain decimal numeral of a user id, as
    the links of the users view write it, the guard works: the admin's own
    id is refused and nothing is deleted, any other id is deleted. *)
Lemma post_users_delete_numeral (db : database) (user : Session.user) (n : Z) :
  Session.role user = "admin" ->
  post_users_delete db (Some user) (string_of_Z n) =
  if n =? Session.id user
  then (db, send 400 "You cannot delete yourself.")
  else (with_users db (filter (fun u => negb (n =? User.id u)) (users db))
          (seq_users db),
        redirect "/admin/users").
Proof.
  intros Hrole. unfold post_users_delete, requireAdmin.
  rewrite Hrole, parseInt_string_of_Z. simpl.
  destruct (n =? Session.id user); [reflexivity|].
  unfold delete_user. do 2 f_equal. apply filter_ext.
  intros u. now rewrite id_eq_string_of_Z.
Qed.

(** C9, where it breaks.  The admin of the example site (id 1) posts to
    [/admin/users/10e-1/delete].  [parseInt] reads the parameter as 10, which
    is not the admin's id, so the guard lets the request pass; SQLite
    compares the same text with the INTEGER key as the number 1, so the
    admin's own row is the one deleted. *)
Theorem admin_deletes_own_account :
  parseInt "10e-1" = Some 10 /\
  text_to_integer "10e-1" = Some (Session.id admin) /\
  post_users_delete site (Some admin) "10e-1" =
    (with_users site
       [User.mk 2 "sam" (hash_plain "s3cret") "editor" "2024-04-02T08:00:00.000Z"] 2,
     redirect "/admin/users") /\
  select_user_by_username (fst (post_users_delete site (Some admin) "10e-1"))
    (Some "admin") = None.
Proof. repeat split. Qed.

(** ** Conflicts on a slug or a username *)

Lemma insert_page_duplicate (db : database) (title slug audience status t : string) :
  existsb (fun p => (Page.slug p =? slug)%string) (pages db) = true ->
  exists e, insert_page db title slug audience status t = inl e.
Proof.
  intros H. unfold insert_page.
  destruct (negb _); [eauto|]. destruct (negb _); [eauto|]. rewrite H. eauto.
Qed.

Lemma insert_user_duplicate (db : database) (username password_hash role t : string) :
  existsb (fun u => (User.username u =? username)%string) (users db) = true ->
  exists e, insert_user db username password_hash role t = inl e.
Proof.
  intros H. unfold insert_user. destruct (negb _); [eauto|]. rewrite H. eauto.
Qed.

(** C4, as the code has it.  A page posted with a non-empty title whose final
    slug is non-empty and already the slug of a page, and a user posted by an
    admin with a non-empty password whose non-empty username is already
    taken, get the form back with the message that says so, and the database
    is left as it was.  A page posted with a missing or empty title, or with
    an empty final slug, and a user posted with a missing or empty username
    or password, get the message of the missing field instead, taken or not,
    and the database is left as it was too. *)
Theorem duplicate_is_reported_as_taken (slugify : string -> string)
    (bcrypt_hash : string -> string) (now : nat -> string) (db : database)
    (user : Session.user) :
  (forall (title slug audience status : field) (existing : Page.row),
     truthy title = true ->
     In existing (pages db) ->
     Page.slug existing = safeSlug slugify (js_or (js_or_field slug title) "") ->
     Page.slug existing <> "" ->
     post_pages_new slugify now db (Some user) title slug audience status =
     (db, render 200 (admin_page_form user None
                        (Some "Slug already exists. Choose another.")))) /\
  (forall (username password role : field) (existing : User.row),
     Session.role user = "admin" ->
     truthy username = true ->
     truthy password = true ->
     In existing (users db) ->
     username = Some (User.username existing) ->
     post_users_new bcrypt_hash now db (Some user) username password role =
     (db, render 200 (admin_users user (select_users db)
                        (Some "Username already exists.")))) /\
  (forall (title slug audience status : field),
     truthy title = false \/
     safeSlug slugify (js_or (js_or_field slug title) "") = "" ->
     post_pages_new slugify now db (Some user) title slug audience status =
     (db, render 200 (admin_page_form user None
                        (Some "Title and slug are required.")))) /\
  (forall (username password role : field),
     Session.role user = "admin" ->
     truthy username = false \/ truthy password = false ->
     post_users_new bcrypt_hash now db (Some user) username password role =
     (db, render 200 (admin_users user (select_users db)
                        (Some "Username and password required.")))).
Proof.
  split; [|split; [|split]].
  - intros title slug audience status existing Ht Hin Hslug Hne.
    unfold post_pages_new, requireAuth. rewrite Ht. simpl negb. cbv zeta.
    rewrite <- Hslug.
    destruct (String.eqb_spec (Page.slug existing) "") as [|_]; [contradiction|].
    simpl orb. cbv iota.
    destruct (insert_page_duplicate db (js_or title "") (Page.slug existing)
                (js_or audience "general") (js_or status "draft") (now 0%nat))
      as (e & ->); [|reflexivity].
    apply existsb_exists. exists existing. split; [exact Hin | apply String.eqb_refl].
  - intros username password role existing Hrole Hu Hp Hin ->.
    unfold post_users_new, requireAdmin. rewrite Hrole, Hu, Hp.
    change (negb ("admin" =? "admin")%string) with false.
    cbn [negb orb]. cbv iota zeta.
    destruct (insert_user_duplicate db (js_or (Some (User.username existing)) "")
                (bcrypt_hash (js_or password ""))
                (if field_is role "admin" then "admin" else "editor") (now 0%nat))
      as (e & ->); [|reflexivity].
    apply existsb_exists. exists existing. split; [exact Hin|].
    simpl in Hu. apply negb_true_iff in Hu. simpl. rewrite Hu.
    apply String.eqb_refl.
  - intros title slug audience status Hmissing.
    unfold post_pages_new, requireAuth.
    destruct Hmissing as [Ht|Hs].
    + now rewrite Ht.
    + rewrite Hs. simpl. now rewrite orb_true_r.
  - intros username password role Hrole Hmissing.
    unfold post_users_new, requireAdmin. rewrite Hrole.
    change (negb ("admin" =? "admin")%string) with false. cbv iota.
    destruct Hmissing as [Hu|Hp].
    + now rewrite Hu.
    + rewrite Hp. simpl. now rewrite orb_true_r.
Qed.

(** C4 as stated fails without a title, whatever [slugify] computes.  A page
    is posted with no title and the slug [intro] to a database that holds a
    page under the slug [slugify] makes of it: the form comes back with
    "Title and slug are required.", the message of a missing field, not the
    one of a slug that is taken. *)
Lemma taken_slug_without_title :
  ~ exists slugify : string -> string,
      forall (now : nat -> string) (db : database) (user : Session.user)
        (title slug audience status : field) (existing : Page.row),
        In existing (pages db) ->
        Page.slug existing = safeSlug slugify (js_or (js_or_field slug title) "") ->
        snd (post_pages_new slugify now db (Some user) title slug audience status) =
        render 200 (admin_page_form user None
                      (Some "Slug already exists. Choose another.")).
Proof.
  intros (slugify & H).
  pose (existing := Page.mk 1 "Intro" (slugify "intro") "general" "published"
                      (noon 0%nat) (noon 0%nat)).
  specialize (H noon (with_pages fresh_file [existing] 1) editor None (Some "intro")
                None None existing (or_introl eq_refl) eq_refl).
  discriminate H.
Qed.

(** The handler renders the same message for every failure of the INSERT,
    not only for a slug that is taken: here the slug is new and the audience
    is none of the three the table allows. *)
Lemma other_insert_failures_read_as_taken :
  insert_page site "Motors" "motors" "everyone" "draft" (noon 0%nat) =
    inl (SQLITE_CONSTRAINT_CHECK "audience") /\
  post_pages_new slugify_ascii noon site (Some editor) (Some "Motors") (Some "motors")
    (Some "everyone") None =
    (site, render 200 (admin_page_form editor None
                         (Some "Slug already exists. Choose another."))).
Proof. split; reflexivity. Qed.

(** ** Editing a block *)

(** For each of the four plain types the handler builds the object of the
    fields of the type, in their order, each with the posted value or its
    default. *)
Lemma edited_data_plain (JSON_parse : string -> option JSON.value) (type : string)
    (form : form) :
  In type ["text"; "image"; "video"; "callout"] ->
  edited_data JSON_parse type form =
  inr (JSON.Obj (map (fun k => (k, JSON.Str (js_or (form k) (default_of k))))
                   (fields type))).
Proof. intros [<-|[<-|[<-|[<-|[]]]]]; reflexivity. Qed.

Lemma get_in (props : list (string * JSON.value)) (k : string) (v : JSON.value) :
  JSON.get (JSON.Obj props) k = Some v -> In (k, v) props.
Proof.
  simpl. destruct (find _ props) as [[k' v']|] eqn:E; [|discriminate].
  intros [= <-]. apply find_some in E as [Hin Hk].
  apply String.eqb_eq in Hk. simpl in Hk. now subst.
Qed.

(** C5, as the code has it.  For a quiz block, when the posted [quiz_json]
    does not parse to an object whose [questions] is an array, the editor is
    rendered again with the error and with the payload that is stored, and
    nothing is written.  For a text, image, video or callout block there is
    no error: the payload written is the object of the fields of the type,
    those and no other, in the order of the data model, each field being the
    posted value, or, when that is missing or empty, the empty string, except
    [mode], which becomes [youtube], and [kind], which becomes [Key idea]. *)
Theorem edit_validates_quiz_only (JSON_parse : string -> option JSON.value)
    (JSON_stringify : JSON.value -> string) (now : nat -> string) (db : database)
    (user : Session.user) (blockId : string) (block : Block.row) (form : form) :
  select_block db blockId = Some block ->
  let edited := post_blocks_edit JSON_parse JSON_stringify now db (Some user)
                  blockId form in
  let posted := match form "quiz_json" with Some s => s | None => "undefined" end in
  (Block.type block = "quiz" ->
   (forall props qs, JSON_parse posted = Some (JSON.Obj props) ->
                     JSON.get (JSON.Obj props) "questions" <> Some (JSON.Arr qs)) ->
   edited =
     (db, render 200
            (admin_block_edit user (select_page_by_key db (Block.page_id block)) block
               (parseJsonSafe JSON_parse (Block.data_json block) (JSON.Obj []))
               (Some "Invalid quiz JSON. Ensure it has { title, questions: [...] }.")))) /\
  (In (Block.type block) ["text"; "image"; "video"; "callout"] ->
   exists props,
     fst edited =
       update_block_data_json db (JSON_stringify (JSON.Obj props)) (now 0%nat)
         (Block.id block) /\
     (forall e, snd edited <> render 200 e) /\
     props = map (fun k => (k, JSON.Str (js_or (form k) (default_of k))))
               (fields (Block.type block)) /\
     (forall k, In k (fields (Block.type block)) ->
                JSON.get (JSON.Obj props) k =
                Some (JSON.Str (js_or (form k) (default_of k)))) /\
     forall k v, JSON.get (JSON.Obj props) k = Some v ->
                 In k (fields (Block.type block)) /\
                 v = JSON.Str (js_or (form k) (default_of k))).
Proof.
  intros Hsel edited posted. unfold edited, post_blocks_edit, requireAuth.
  rewrite Hsel. cbv zeta. split.
  - intros Hty Hbad. unfold edited_data. rewrite Hty. simpl String.eqb. cbv iota.
    assert (Hinvalid :
      negb (JSON.truthy (parseJsonSafe_field JSON_parse (form "quiz_json") JSON.Null))
      || negb (JSON.isArray
                 (JSON.get (parseJsonSafe_field JSON_parse (form "quiz_json") JSON.Null)
                    "questions")) = true).
    { replace (parseJsonSafe_field JSON_parse (form "quiz_json") JSON.Null)
        with (parseJsonSafe JSON_parse posted JSON.Null)
        by (unfold posted, parseJsonSafe_field; now destruct (form "quiz_json")).
      unfold parseJsonSafe.
      destruct (JSON_parse posted) as [[|b|n|s|l|props]|] eqn:E; try reflexivity;
        try (simpl; now rewrite orb_true_r).
      simpl JSON.truthy. simpl negb at 1. rewrite orb_false_l.
      destruct (JSON.get (JSON.Obj props) "questions") as [[|b|n|s|qs|o]|] eqn:G;
        try reflexivity.
      exfalso. now apply (Hbad props qs). }
    now rewrite Hinvalid.
  - intros Hty. rewrite (edited_data_plain JSON_parse _ form Hty).
    eexists. split; [|split; [|split; [reflexivity|split]]].
    + now destruct (select_page_by_key db (Block.page_id block)).
    + intros e. now destruct (select_page_by_key db (Block.page_id block)).
    + intros k Hk. revert Hk.
      destruct Hty as [<-|[<-|[<-|[<-|[]]]]]; simpl;
        intros Hk; repeat (destruct Hk as [<-|Hk]; [reflexivity|]); contradiction.
    + intros k v Hget. apply get_in in Hget.
      apply in_map_iff in Hget as (k' & [= <- <-] & Hk'). now split.
Qed.

(** C5 as stated fails on the kind of a callout, whatever [JSON.parse] does:
    with nothing posted, the field is not the empty string but [Key idea]. *)
Lemma callout_kind_is_not_empty :
  ~ exists JSON_parse : string -> option JSON.value,
      forall (type : string) (form : form) (data : JSON.value) (k : string)
        (v : JSON.value),
        In type ["text"; "image"; "video"; "callout"] ->
        edited_data JSON_parse type form = inr data ->
        form k = None ->
        JSON.get data k = Some v ->
        v = JSON.Str (if (k =? "mode")%string then "youtube" else "").
Proof.
  intros (JSON_parse & H).
  specialize (H "callout" (fun _ => None)
                (JSON.Obj [("kind", JSON.Str "Key idea"); ("body", JSON.Str "")])
                "kind" (JSON.Str "Key idea")).
  assert (E : JSON.Str "Key idea" = JSON.Str "").
  { apply H; [simpl; tauto | reflexivity | reflexivity | reflexivity]. }
  discriminate E.
Qed.

(** ** Reading a stored payload *)

(** C6.  [parseJsonSafe] returns a value for every stored string, the
    fallback when the string does not parse, so the public page of a
    published page is rendered whatever its blocks hold: all of them are
    listed, in order, and one whose payload does not parse is shown with the
    empty object as its data. *)
Theorem corrupt_payload_reads_as_empty (JSON_parse : string -> option JSON.value)
    (db : database) (session : option Session.user) (slug : string)
    (page : Page.row) (b : Block.row) :
  select_published_page db slug = Some page ->
  In b (select_blocks_of_page db (Page.id page)) ->
  JSON_parse (Block.data_json b) = None ->
  parseJsonSafe JSON_parse (Block.data_json b) (JSON.Obj []) = JSON.Obj [] /\
  exists shown,
    get_page JSON_parse db session slug = render 200 (public_page page shown session) /\
    map block shown = select_blocks_of_page db (Page.id page) /\
    In (mk_rendered b (JSON.Obj [])) shown.
Proof.
  intros Hpage Hin Hfail.
  assert (Hb : parseJsonSafe JSON_parse (Block.data_json b) (JSON.Obj []) = JSON.Obj [])
    by (unfold parseJsonSafe; now rewrite Hfail).
  split; [exact Hb|].
  unfold get_page. rewrite Hpage. eexists. split; [reflexivity|]. split.
  - unfold renderBlocks. rewrite map_map. simpl. apply map_id.
  - unfold renderBlocks. apply in_map_iff. exists b. now rewrite Hb.
Qed.

(** ** Logging in *)



(** ** Every database the server reaches *)

Lemma gapless_same_blocks (db db' : database) (p : Z) :
  blocks db' = blocks db -> gapless db p -> gapless db' p.
Proof. unfold gapless, positions, page_blocks. now intros ->. Qed.

Lemma primary_key_same_blocks (db db' : database) :
  blocks db' = blocks db -> primary_key db -> primary_key db'.
Proof. unfold primary_key. now intros ->. Qed.

Lemma insert_page_frame (db db' : database) (title slug audience status t : string) :
  insert_page db title slug audience status t = inr db' ->
  blocks db' = blocks db /\ foreign_keys db' = foreign_keys db.
Proof.
  unfold insert_page. repeat (destruct (negb _); [discriminate|]).
  destruct (existsb _ _); [discriminate|]. now intros [= <-].
Qed.

Lemma update_page_frame (db db' : database) (title slug audience status t param : string) :
  update_page db title slug audience status t param = inr db' ->
  blocks db' = blocks db /\ foreign_keys db' = foreign_keys db.
Proof.
  unfold update_page. destruct (negb _); [now intros [= <-]|].
  repeat (destruct (negb _); [discriminate|]).
  destruct (existsb _ _); [discriminate|]. now intros [= <-].
Qed.

Lemma insert_user_frame (db db' : database) (username password_hash role t : string) :
  insert_user db username password_hash role t = inr db' ->
  blocks db' = blocks db /\ foreign_keys db' = foreign_keys db.
Proof.
  unfold insert_user. destruct (negb _); [discriminate|].
  destruct (existsb _ _); [discriminate|]. now intros [= <-].
Qed.

Lemma seed_frame (bcrypt_hash : string -> string) (now : nat -> string) (db : database) :
  blocks (seed bcrypt_hash now db) = blocks db /\
  foreign_keys (seed bcrypt_hash now db) = foreign_keys db.
Proof.
  unfold seed. destruct (select_user_by_username _ _); [now split|].
  destruct (insert_user _ _ _ _ _) eqn:E; [now split|].
  now apply insert_user_frame in E.
Qed.

Lemma post_pages_new_frame (slugify : string -> string) (now : nat -> string)
    (db : database) (session : option Session.user) (title slug audience status : field) :
  blocks (fst (post_pages_new slugify now db session title slug audience status)) =
    blocks db /\
  foreign_keys (fst (post_pages_new slugify now db session title slug audience status)) =
    foreign_keys db.
Proof.
  unfold post_pages_new, requireAuth. destruct session; [|now split].
  destruct (_ || _); [now split|].
  destruct (insert_page _ _ _ _ _ _) eqn:E; [now split|].
  now apply insert_page_frame in E.
Qed.

Lemma post_pages_edit_frame (slugify : string -> string) (now : nat -> string)
    (db : database) (session : option Session.user) (id : string)
    (title slug audience status : field) :
  blocks (fst (post_pages_edit slugify now db session id title slug audience status)) =
    blocks db /\
  foreign_keys (fst (post_pages_edit slugify now db session id title slug audience
                       status)) = foreign_keys db.
Proof.
  unfold post_pages_edit, requireAuth. destruct session; [|now split].
  destruct (select_page db id); [|now split].
  destruct (_ || _); [now split|].
  destruct (update_page _ _ _ _ _ _ _) eqn:E; [now split|].
  now apply update_page_frame in E.
Qed.

Lemma post_users_new_frame (bcrypt_hash : string -> string) (now : nat -> string)
    (db : database) (session : option Session.user) (username password role : field) :
  blocks (fst (post_users_new bcrypt_hash now db session username password role)) =
    blocks db /\
  foreign_keys (fst (post_users_new bcrypt_hash now db session username password role)) =
    foreign_keys db.
Proof.
  unfold post_users_new, requireAdmin. destruct session; [|now split].
  destruct (negb _); [now split|]. destruct (_ || _); [now split|].
  destruct (insert_user _ _ _ _ _) eqn:E; [now split|].
  now apply insert_user_frame in E.
Qed.

Lemma post_users_delete_frame (db : database) (session : option Session.user)
    (id : string) :
  blocks (fst (post_users_delete db session id)) = blocks db /\
  foreign_keys (fst (post_users_delete db session id)) = foreign_keys db.
Proof.
  unfold post_users_delete, requireAdmin. destruct session; [|now split].
  destruct (negb _); [now split|].
  destruct (parseInt id) as [k|]; [destruct (k =? _)|]; now split.
Qed.

Lemma post_pages_delete_foreign_keys (db : database) (session : option Session.user)
    (id : string) :
  foreign_keys (fst (post_pages_delete db session id)) = foreign_keys db.
Proof.
  unfold post_pages_delete, requireAuth. destruct session; [|reflexivity].
  now destruct (negb _).
Qed.

(** Storing a payload changes no position. *)
Lemma update_block_data_json_frame (db : database) (data_json t : string) (id : Z) :
  foreign_keys (update_block_data_json db data_json t id) = foreign_keys db /\
  (primary_key db -> primary_key (update_block_data_json db data_json t id)) /\
  forall p, gapless db p -> gapless (update_block_data_json db data_json t id) p.
Proof.
  split; [reflexivity|]. split.
  - unfold primary_key. intros H. simpl. rewrite map_map.
    rewrite (map_ext _ Block.id); [exact H|].
    intros c. now destruct (Block.id c =? id).
  - intros p. unfold gapless, positions, page_blocks. intros H. simpl.
    rewrite filter_of_page_map by (intros c; now destruct (Block.id c =? id)).
    rewrite length_map, map_map.
    rewrite (map_ext _ Block.position); [exact H|].
    intros c. now destruct (Block.id c =? id).
Qed.

Lemma post_blocks_edit_frame (JSON_parse : string -> option JSON.value)
    (JSON_stringify : JSON.value -> string) (now : nat -> string) (db : database)
    (session : option Session.user) (blockId : string) (form : form) :
  let db' := fst (post_blocks_edit JSON_parse JSON_stringify now db session blockId form) in
  foreign_keys db' = foreign_keys db /\
  (primary_key db -> primary_key db') /\
  forall p, gapless db p -> gapless db' p.
Proof.
  unfold post_blocks_edit, requireAuth. destruct session; [|now repeat split].
  destruct (select_block db blockId) as [block|]; [|now repeat split].
  destruct (edited_data _ _ _) as [e|data]; [now repeat split|].
  destruct (select_page_by_key _ _); apply update_block_data_json_frame.
Qed.

(** From a fresh file on, whatever requests the server has handled one after
    the other: the connection does not enforce foreign keys, the keys of the
    blocks are distinct, and the positions of every page are 1..N. *)
Theorem reachable_invariants (db : database) :
  reachable db ->
  foreign_keys db = false /\ primary_key db /\ forall p, gapless db p.
Proof.
  induction 1 as [h n|h n db _ IH|s n db se t sl a st _ IH
                  |s n db se i t sl a st _ IH
                  |db se i _ IH|jp js n db se b f _ IH|js db r _ IH
                  |h n db se u pw ro _ IH|db se i _ IH].
  - destruct (seed_frame h n (initDb fresh_file)) as [Hb Hf]. rewrite Hf.
    split; [reflexivity|]. split.
    + apply (primary_key_same_blocks fresh_file); [exact Hb | constructor].
    + intros p. apply (gapless_same_blocks fresh_file); [exact Hb | constructor].
  - destruct IH as (_ & Hk & Hg).
    destruct (seed_frame h n (initDb db)) as [Hb Hf]. rewrite Hf.
    split; [reflexivity|]. split.
    + now apply (primary_key_same_blocks db).
    + intros p. now apply (gapless_same_blocks db).
  - destruct IH as (Hf & Hk & Hg).
    destruct (post_pages_new_frame s n db se t sl a st) as [Hb Hf'].
    rewrite Hf'. repeat split; [exact Hf | |].
    + now apply (primary_key_same_blocks db).
    + intros p. now apply (gapless_same_blocks db).
  - destruct IH as (Hf & Hk & Hg).
    destruct (post_pages_edit_frame s n db se i t sl a st) as [Hb Hf'].
    rewrite Hf'. repeat split; [exact Hf | |].
    + now apply (primary_key_same_blocks db).
    + intros p. now apply (gapless_same_blocks db).
  - destruct IH as (Hf & Hk & Hg).
    pose proof (post_pages_delete_keeps_blocks db se i Hf) as Hb.
    rewrite post_pages_delete_foreign_keys. repeat split; [exact Hf | |].
    + now apply (primary_key_same_blocks db).
    + intros p. now apply (gapless_same_blocks db).
  - destruct IH as (Hf & Hk & Hg).
    destruct (post_blocks_edit_frame jp js n db se b f) as (Hf' & Hk' & Hg').
    rewrite Hf'. repeat split; auto.
  - destruct IH as (Hf & Hk & Hg).
    rewrite foreign_keys_serve. repeat split; [exact Hf | |].
    + now apply (serve_gapless js db r 0 Hk (Hg 0)).
    + intros p. now apply (serve_gapless js db r p Hk (Hg p)).
  - destruct IH as (Hf & Hk & Hg).
    destruct (post_users_new_frame h n db se u pw ro) as [Hb Hf'].
    rewrite Hf'. repeat split; [exact Hf | |].
    + now apply (primary_key_same_blocks db).
    + intros p. now apply (gapless_same_blocks db).
  - destruct IH as (Hf & Hk & Hg).
    destruct (post_users_delete_frame db se i) as [Hb Hf'].
    rewrite Hf'. repeat split; [exact Hf | |].
    + now apply (primary_key_same_blocks db).
    + intros p. now apply (gapless_same_blocks db).
Qed.

(** The example site is one of them: the server starts, the admin makes the
    editor account and the page, and adds the quiz and the text. *)
Lemma site_reachable : reachable site.
Proof.
  pose (at_ (t : string) := fun _ : nat => t).
  pose (s0 := seed hash_plain (at_ "2024-04-01T08:00:00.000Z") (initDb fresh_file)).
  pose (s1 := fst (post_users_new hash_plain (at_ "2024-04-02T08:00:00.000Z") s0
                     (Some admin) (Some "sam") (Some "s3cret") (Some "editor"))).
  pose (s2 := fst (post_pages_new slugify_ascii (at_ "2024-04-03T08:00:00.000Z") s1
                     (Some admin) (Some "Sensors 101") (Some "sensors-101")
                     (Some "undergrad") (Some "published"))).
  pose (s3 := fst (serve JSON.stringify s2
                     (mk_request (Some admin) (at_ "2024-04-03T09:00:00.000Z")
                        (add_block "1" (Some "quiz"))))).
  pose (s4 := fst (serve JSON.stringify s3
                     (mk_request (Some admin) (at_ "2024-04-03T09:05:00.000Z")
                        (add_block "1" (Some "text"))))).
  change site with s4.
  unfold s4, s3, s2, s1, s0. repeat constructor.
Qed.

(** ** Who may do what *)

(** X1.  Without a session no route of the admin area shows or changes
    anything: each of the routes that write to the database or to the media
    library leaves it as it is and sends the visitor to the login page, and
    so does each of the views of the admin area. *)
Theorem no_session_no_change (slugify : string -> string)
    (bcrypt_hash : string -> string) (JSON_parse : string -> option JSON.value)
    (JSON_stringify : JSON.value -> string) (basename : code_units -> code_units)
    (stamp : Z) (now : nat -> string) (db : database) (lib : library)
    (id : string) (title slug audience status type dir username password role : field)
    (form : form) (file : option upload) :
  let login := (db, redirect "/admin/login") in
  post_pages_new slugify now db None title slug audience status = login /\
  post_pages_edit slugify now db None id title slug audience status = login /\
  post_pages_delete db None id = login /\
  post_blocks_add JSON_stringify now db None id type = login /\
  post_blocks_edit JSON_parse JSON_stringify now db None id form = login /\
  post_blocks_delete now db None id = login /\
  post_blocks_move now db None id dir = login /\
  post_users_new bcrypt_hash now db None username password role = login /\
  post_users_delete db None id = login /\
  post_media_upload basename stamp now lib None file = (lib, to "/admin/login") /\
  post_media_delete lib None id = (lib, to "/admin/login") /\
  get_admin db None = to "/admin/login" /\
  get_pages_new db None = login /\
  get_pages_edit db None id = login /\
  get_pages_blocks JSON_parse db None id = login /\
  get_blocks_edit JSON_parse db None id = login /\
  get_users db None = login /\
  get_media lib None = (lib, to "/admin/login").
Proof. repeat split. Qed.

(** X2.  A user whose role is not [admin] cannot delete a page, make or
    delete a user, or delete a media item: the request is refused with status
    403 and nothing is changed. *)
Theorem only_admin_administers (bcrypt_hash : string -> string)
    (now : nat -> string) (db : database) (lib : library) (user : Session.user)
    (id : string) (username password role : field) :
  Session.role user <> "admin" ->
  post_pages_delete db (Some user) id = (db, send 403 "Only admin can delete pages.") /\
  post_users_new bcrypt_hash now db (Some user) username password role =
    (db, send 403 "Forbidden: admin only") /\
  post_users_delete db (Some user) id = (db, send 403 "Forbidden: admin only") /\
  get_users db (Some user) = (db, send 403 "Forbidden: admin only") /\
  post_media_delete lib (Some user) id = (lib, refuses 403 "Only admin can delete media.").
Proof.
  intros Hrole.
  unfold post_pages_delete, post_users_new, post_users_delete, get_users,
    post_media_delete, requireAuth, requireAdmin, Library.requireAuth.
  destruct (String.eqb_spec (Session.role user) "admin") as [|_]; [contradiction|].
  repeat split.
Qed.

(** ** Logging in *)

(** X3.  A login opens a session only for a user of the table whose stored
    hash [bcrypt.compare] accepts for the posted password: when the answer is
    the redirect to the dashboard, the session is that of such a user, with
    its id, name and role; with every other answer the session is the one
    the request came with. *)
Theorem login_needs_matching_hash (bcrypt_compare : string -> string -> bool)
    (db : database) (session after : option Session.user) (username password : field)
    (r : response) :
  post_login bcrypt_compare db session username password = (after, r) ->
  r = redirect "/admin" /\
  (exists (user : User.row) (pw : string),
     In user (users db) /\ username = Some (User.username user) /\
     password = Some pw /\ bcrypt_compare pw (User.password_hash user) = true /\
     after = Some (Session.mk (User.id user) (User.username user) (User.role user))) \/
  r <> redirect "/admin" /\ after = session.
Proof.
  unfold post_login, select_user_by_username.
  destruct username as [name|];
    [|intros [= <- <-]; right; split; [discriminate | reflexivity]].
  destruct (find _ (users db)) as [user|] eqn:Hf;
    [|intros [= <- <-]; right; split; [discriminate | reflexivity]].
  destruct password as [pw|];
    [|intros [= <- <-]; right; split; [discriminate | reflexivity]].
  destruct (bcrypt_compare pw (User.password_hash user)) eqn:Hc; simpl;
    [|intros [= <- <-]; right; split; [discriminate | reflexivity]].
  intros [= <- <-]. left. split; [reflexivity|].
  apply find_some in Hf as [Hin Hn]. apply String.eqb_eq in Hn.
  exists user, pw. repeat split; auto. now rewrite Hn.
Qed.

(** ** [ORDER BY] on a total order *)

Lemma insert_by_sorted {A : Type} (le : A -> A -> bool) (x : A) (l : list A) :
  (forall x y, le x y = true \/ le y x = true) ->
  (forall x y z, le x y = true -> le y z = true -> le x z = true) ->
  StronglySorted (fun x y => le x y = true) l ->
  StronglySorted (fun x y => le x y = true) (insert_by le x l).
Proof.
  intros Htot Htr. induction 1 as [|y r Hr IH Hy]; simpl.
  - repeat constructor.
  - destruct (le x y) eqn:Hxy.
    + constructor; [now constructor|].
      constructor; [exact Hxy|].
      rewrite Forall_forall in Hy |- *. intros z Hz. eauto.
    + constructor; [exact IH|].
      rewrite Forall_forall in Hy |- *. intros z Hz.
      apply (Permutation_in _ (insert_by_perm le x r)) in Hz.
      destruct Hz as [<-|Hz]; [|now apply Hy].
      destruct (Htot x y) as [H|H]; [congruence | exact H].
Qed.

Lemma order_by_sorted {A : Type} (le : A -> A -> bool) (l : list A) :
  (forall x y, le x y = true \/ le y x = true) ->
  (forall x y z, le x y = true -> le y z = true -> le x z = true) ->
  StronglySorted (fun x y => le x y = true) (order_by le l).
Proof.
  intros Htot Htr. induction l as [|x r IH]; simpl.
  - constructor.
  - now apply insert_by_sorted.
Qed.

(** The order of TEXT values (BINARY collation: byte by byte) is transitive. *)
Lemma string_compare_trans (c : comparison) (s1 s2 s3 : string) :
  (s1 ?= s2)%string = c -> (s2 ?= s3)%string = c -> (s1 ?= s3)%string = c.
Proof.
  revert s2 s3. induction s1 as [|a1 s1 IH]; intros [|a2 s2] [|a3 s3]; simpl;
    try congruence.
  unfold Ascii.compare.
  destruct (N.compare_spec (N_of_ascii a1) (N_of_ascii a2)) as [E12|L12|G12];
    destruct (N.compare_spec (N_of_ascii a2) (N_of_ascii a3)) as [E23|L23|G23];
    destruct (N.compare_spec (N_of_ascii a1) (N_of_ascii a3)) as [E13|L13|G13];
    try congruence; try lia; try (intros <-; congruence).
  apply IH.
Qed.

Lemma string_leb_trans (s1 s2 s3 : string) :
  (s1 <=? s2)%string = true -> (s2 <=? s3)%string = true -> (s1 <=? s3)%string = true.
Proof.
  unfold String.leb.
  destruct (s1 ?= s2)%string eqn:E12; try discriminate;
    destruct (s2 ?= s3)%string eqn:E23; try discriminate; intros _ _.
  - apply String.compare_eq_iff in E12, E23. subst.
    destruct (String.leb_total s3 s3) as [H|H]; exact H.
  - apply String.compare_eq_iff in E12. subst. now rewrite E23.
  - apply String.compare_eq_iff in E23. subst. now rewrite E12.
  - now rewrite (string_compare_trans Lt _ _ _ E12 E23).
Qed.

(** ** What the public sees *)

Lemma updated_at_desc_total (p q : Page.row) :
  updated_at_desc p q = true \/ updated_at_desc q p = true.
Proof. unfold updated_at_desc. apply String.leb_total. Qed.

Lemma updated_at_desc_trans (p q r : Page.row) :
  updated_at_desc p q = true -> updated_at_desc q r = true ->
  updated_at_desc p r = true.
Proof. unfold updated_at_desc. intros H1 H2. eapply string_leb_trans; eauto. Qed.

(** X4.  The public route of a page serves published pages only.  When it
    renders a page, that page is a row of the table with the slug asked for
    and the status [published], and the blocks shown are the blocks of that
    page and no other, in ascending position.  When no published page has the
    slug, a draft of that slug or not, the answer is the 404 view. *)
Theorem public_page_is_published (JSON_parse : string -> option JSON.value)
    (db : database) (session : option Session.user) (slug : string) :
  (forall (page : Page.row) (shown : list rendered_block) (user : option Session.user)
          (status : Z),
     get_page JSON_parse db session slug = render status (public_page page shown user) ->
     In page (pages db) /\ Page.slug page = slug /\ Page.status page = "published" /\
     (forall b, In b shown <->
                In (block b) (blocks db) /\ Block.page_id (block b) = Page.id page /\
                data b = parseJsonSafe JSON_parse (Block.data_json (block b)) (JSON.Obj [])) /\
     StronglySorted (fun x y => Block.position (block x) <= Block.position (block y))
       shown) /\
  ((forall page, In page (pages db) -> Page.slug page = slug ->
                 Page.status page <> "published") ->
   get_page JSON_parse db session slug = render 404 (public_notfound session)).
Proof.
  unfold get_page, select_published_page. split.
  - intros page shown user status.
    destruct (find _ (pages db)) as [p|] eqn:Hf; [|discriminate].
    intros [= _ <- <- _]. apply find_some in Hf as [Hin Hp].
    apply andb_true_iff in Hp as [Hs Hst]. apply String.eqb_eq in Hs, Hst.
    split; [exact Hin|]. split; [exact Hs|]. split; [exact Hst|]. split.
    + intros b. split.
      * intros H. apply in_map_iff in H as (c & <- & Hc). simpl.
        apply in_select_blocks_of_page in Hc. tauto.
      * intros (Hb & Hp & Hd). apply in_map_iff. exists (block b). split.
        -- destruct b as [c d]. simpl in *. now rewrite Hd.
        -- now apply in_select_blocks_of_page.
    + unfold renderBlocks, select_blocks_of_page.
      pose proof (order_by_position_sorted (filter (of_page (Page.id p)) (blocks db)))
        as Hsorted.
      induction Hsorted as [|c r Hr IH Hc]; simpl; constructor; [exact IH|].
      rewrite Forall_forall in Hc |- *. intros y Hy.
      apply in_map_iff in Hy as (z & <- & Hz). simpl. now apply Hc.
  - intros Hnone. destruct (find _ (pages db)) as [p|] eqn:Hf; [|reflexivity].
    apply find_some in Hf as [Hin Hp].
    apply andb_true_iff in Hp as [Hs Hst]. apply String.eqb_eq in Hs, Hst.
    now destruct (Hnone p Hin Hs).
Qed.

(** X5.  The home page lists the published pages, each once and no draft,
    most recently updated first; the dashboard of a signed-in user lists
    every page in that order. *)
Theorem home_lists_published (db : database) (session : option Session.user)
    (user : Session.user) :
  exists listed every,
    get_home db session = shows (public_home listed session) /\
    get_admin db (Some user) = shows (admin_dashboard user every) /\
    Permutation listed (filter published (pages db)) /\
    (forall p, In p listed <-> In p (pages db) /\ Page.status p = "published") /\
    Permutation every (pages db) /\
    StronglySorted (fun p q => (Page.updated_at q <=? Page.updated_at p)%string = true)
      listed /\
    StronglySorted (fun p q => (Page.updated_at q <=? Page.updated_at p)%string = true)
      every.
Proof.
  exists (select_published_pages db), (select_pages db).
  split; [reflexivity|]. split; [reflexivity|].
  unfold select_published_pages, select_pages.
  split; [apply order_by_perm|]. split; [|split; [apply order_by_perm|split]].
  - intros p. rewrite order_by_in, filter_In. unfold published.
    now rewrite String.eqb_eq.
  - apply (order_by_sorted updated_at_desc);
      [apply updated_at_desc_total | apply updated_at_desc_trans].
  - apply (order_by_sorted updated_at_desc);
      [apply updated_at_desc_total | apply updated_at_desc_trans].
Qed.

(** ** The schema holds on every database the server reaches *)

Lemma mem_string_In (s : string) (l : list string) :
  mem_string s l = true <-> In s l.
Proof.
  unfold mem_string. rewrite existsb_exists. split.
  - intros (x & Hx & E). apply String.eqb_eq in E. now subst.
  - intros H. exists s. split; [exact H | apply String.eqb_refl].
Qed.

Lemma NoDup_map_filter_any {A B : Type} (key : A -> B) (p : A -> bool) (l : list A) :
  NoDup (map key l) -> NoDup (map key (filter p l)).
Proof.
  induction l as [|x r IH]; simpl; [easy|].
  intros Hnd. inversion Hnd as [|? ? Hx Hr]; subst.
  destruct (p x); simpl; [constructor|]; auto.
  intros Hin. apply Hx. apply in_map_iff in Hin as (y & Hy & Hin).
  apply filter_In in Hin as [Hin _]. rewrite <- Hy. now apply in_map.
Qed.

Lemma NoDup_snoc {B : Type} (x : B) (l : list B) :
  ~ In x l -> NoDup l -> NoDup (l ++ [x]).
Proof.
  intros Hx Hl. apply (Permutation_NoDup (Permutation_cons_append _ _)).
  now constructor.
Qed.

Lemma next_rowid_above (seq : Z) (ids : list Z) :
  seq < next_rowid seq ids /\ forall x, In x ids -> x < next_rowid seq ids.
Proof.
  unfold next_rowid. split; [lia|].
  intros x Hx. apply le_fold_max in Hx. lia.
Qed.

Lemma not_existsb {A : Type} (p : A -> bool) (l : list A) (x : A) :
  existsb p l = false -> In x l -> p x = false.
Proof.
  intros H Hin. destruct (p x) eqn:E; [|reflexivity].
  assert (existsb p l = true) by (apply existsb_exists; eauto). congruence.
Qed.

(** *** Statement by statement *)

Lemma insert_page_schema (db db' : database) (title slug audience status t : string) :
  insert_page db title slug audience status t = inr db' -> schema db -> schema db'.
Proof.
  unfold insert_page.
  destruct (mem_string audience audiences) eqn:Ha; [|discriminate].
  destruct (mem_string status statuses) eqn:Hs; [|discriminate].
  destruct (existsb _ (pages db)) eqn:Hu; [discriminate|]. simpl.
  intros [= <-] ((Hid & Hsl & Hp) & Hus & (Hbid & Hb)).
  destruct (next_rowid_above (seq_pages db) (map Page.id (pages db))) as [Hseq Hnew].
  split; [|split; [exact Hus|]].
  - unfold pages_ok. simpl. rewrite !map_app. simpl. split; [|split].
    + apply NoDup_snoc; [apply next_rowid_fresh | exact Hid].
    + apply NoDup_snoc; [|exact Hsl].
      intros Hin. apply in_map_iff in Hin as (p & E & Hin).
      pose proof (not_existsb _ _ p Hu Hin) as Hne. simpl in Hne.
      apply String.eqb_neq in Hne. congruence.
    + intros p Hin. apply in_app_or in Hin as [Hin|[<-|[]]].
      * destruct (Hp p Hin) as (H1 & H2 & H3). repeat split; auto. lia.
      * apply mem_string_In in Ha, Hs. repeat split; [simpl; lia | exact Ha | exact Hs].
  - split; [exact Hbid|]. simpl. intros b Hin.
    destruct (Hb b Hin) as (H1 & H2 & H3). repeat split; auto. lia.
Qed.

Lemma id_eq_same (param : string) (x y : Z) :
  id_eq param x = true -> id_eq param y = (x =? y).
Proof.
  unfold id_eq. destruct (text_to_integer param) as [n|]; [|discriminate].
  intros H. apply Z.eqb_eq in H. now subst.
Qed.

Lemma update_page_schema (db db' : database) (title slug audience status t param : string) :
  update_page db title slug audience status t param = inr db' -> schema db -> schema db'.
Proof.
  unfold update_page.
  destruct (existsb (fun p => id_eq param (Page.id p)) (pages db)) eqn:Hex;
    [|now intros [= <-]].
  destruct (mem_string audience audiences) eqn:Ha; [|discriminate].
  destruct (mem_string status statuses) eqn:Hs; [|discriminate].
  destruct (existsb (fun p => negb _ && _) (pages db)) eqn:Hu; [discriminate|]. simpl.
  intros [= <-] ((Hid & Hsl & Hp) & Hus & (Hbid & Hb)).
  split; [|split; [exact Hus | split; [exact Hbid | exact Hb]]].
  set (f := fun p : Page.row =>
              if id_eq param (Page.id p)
              then Page.mk (Page.id p) title slug audience status (Page.created_at p) t
              else p).
  assert (Hfid : forall p, Page.id (f p) = Page.id p)
    by (intros p; unfold f; now destruct (id_eq param (Page.id p))).
  unfold pages_ok. simpl. split; [|split].
  - rewrite map_map. rewrite (map_ext _ Page.id) by exact Hfid. exact Hid.
  - assert (Hother : forall p, In p (pages db) -> id_eq param (Page.id p) = false ->
                               Page.slug p <> slug).
    { intros p Hin Hne E. pose proof (not_existsb _ _ p Hu Hin) as Hx. simpl in Hx.
      rewrite Hne in Hx. simpl in Hx. apply String.eqb_neq in Hx. congruence. }
    clear Hex Hu Hp. revert Hid Hsl Hother.
    induction (pages db) as [|p r IH]; simpl; [constructor|].
    intros Hid Hsl Hother.
    inversion Hid as [|? ? Hpid Hrid]; subst. inversion Hsl as [|? ? Hpsl Hrsl]; subst.
    constructor; [|apply IH; auto].
    intros Hin. rewrite map_map in Hin. apply in_map_iff in Hin as (q & E & Hq).
    unfold f in E at 1 2.
    destruct (id_eq param (Page.id p)) eqn:Ep, (id_eq param (Page.id q)) eqn:Eq;
      simpl in E.
    + rewrite (id_eq_same _ _ _ Ep) in Eq. apply Z.eqb_eq in Eq.
      apply Hpid. rewrite Eq. now apply in_map.
    + apply (Hother q); auto.
    + apply (Hother p); auto.
    + apply Hpsl. rewrite <- E. now apply in_map.
  - intros p Hin. apply in_map_iff in Hin as (q & <- & Hq).
    destruct (Hp q Hq) as (H1 & H2 & H3). unfold f.
    apply mem_string_In in Ha, Hs.
    destruct (id_eq param (Page.id q)); repeat split; auto.
Qed.

Lemma delete_page_schema (db : database) (param : string) :
  schema db -> schema (delete_page db param).
Proof.
  intros ((Hid & Hsl & Hp) & Hus & (Hbid & Hb)). unfold delete_page.
  split; [|split; [exact Hus|]].
  - unfold pages_ok. simpl. split; [|split].
    + now apply NoDup_map_filter_any.
    + now apply NoDup_map_filter_any.
    + intros p Hin. apply filter_In in Hin as [Hin _]. now apply Hp.
  - unfold blocks_ok. simpl. destruct (foreign_keys db).
    + split; [now apply NoDup_map_filter_any|].
      intros b Hin. apply filter_In in Hin as [Hin _]. now apply Hb.
    + split; [exact Hbid | exact Hb].
Qed.

Lemma insert_user_schema (db db' : database) (username password_hash role t : string) :
  insert_user db username password_hash role t = inr db' -> schema db -> schema db'.
Proof.
  unfold insert_user.
  destruct (mem_string role roles) eqn:Hr; [|discriminate].
  destruct (existsb _ (users db)) eqn:Hu; [discriminate|]. simpl.
  intros [= <-] (Hps & (Hid & Hn & Hp) & Hbs).
  destruct (next_rowid_above (seq_users db) (map User.id (users db))) as [Hseq Hnew].
  split; [exact Hps | split; [|exact Hbs]].
  unfold users_ok. simpl. rewrite !map_app. simpl. split; [|split].
  - apply NoDup_snoc; [apply next_rowid_fresh | exact Hid].
  - apply NoDup_snoc; [|exact Hn].
    intros Hin. apply in_map_iff in Hin as (p & E & Hin).
    pose proof (not_existsb _ _ p Hu Hin) as Hne. simpl in Hne.
    apply String.eqb_neq in Hne. congruence.
  - intros p Hin. apply in_app_or in Hin as [Hin|[<-|[]]].
    + destruct (Hp p Hin) as (H1 & H2). split; [lia | exact H2].
    + apply mem_string_In in Hr. split; [simpl; lia | exact Hr].
Qed.

Lemma delete_user_schema (db : database) (param : string) :
  schema db -> schema (delete_user db param).
Proof.
  intros (Hps & (Hid & Hn & Hp) & Hbs). unfold delete_user.
  split; [exact Hps | split; [|exact Hbs]].
  unfold users_ok. simpl. split; [|split].
  - now apply NoDup_map_filter_any.
  - now apply NoDup_map_filter_any.
  - intros p Hin. apply filter_In in Hin as [Hin _]. now apply Hp.
Qed.

(** A statement that rewrites rows of [blocks] without touching their key,
    page or type. *)
Lemma map_blocks_schema (db : database) (f : Block.row -> Block.row) :
  (forall b, Block.id (f b) = Block.id b /\ Block.page_id (f b) = Block.page_id b /\
             Block.type (f b) = Block.type b) ->
  schema db -> schema (with_blocks db (map f (blocks db)) (seq_blocks db)).
Proof.
  intros Hf (Hps & Hus & (Hbid & Hb)).
  split; [exact Hps | split; [exact Hus|]].
  unfold blocks_ok. simpl. split.
  - rewrite map_map. rewrite (map_ext _ Block.id); [exact Hbid|]. intros b. apply Hf.
  - intros b Hin. apply in_map_iff in Hin as (c & <- & Hc).
    destruct (Hf c) as (-> & -> & ->). now apply Hb.
Qed.

Lemma update_block_position_schema (db : database) (pos : Z) (t : string) (id : Z) :
  schema db -> schema (update_block_position db pos t id).
Proof.
  apply map_blocks_schema. intros b. now destruct (Block.id b =? id).
Qed.

Lemma update_block_data_json_schema (db : database) (d t : string) (id : Z) :
  schema db -> schema (update_block_data_json db d t id).
Proof.
  apply map_blocks_schema. intros b. now destruct (Block.id b =? id).
Qed.

Lemma delete_block_schema (db : database) (id : Z) :
  schema db -> schema (delete_block db id).
Proof.
  intros (Hps & Hus & (Hbid & Hb)).
  split; [exact Hps | split; [exact Hus|]].
  unfold blocks_ok. simpl. split; [now apply NoDup_map_filter_any|].
  intros b Hin. apply filter_In in Hin as [Hin _]. now apply Hb.
Qed.

Lemma renumber_schema (now : nat -> string) (bs : list Block.row) (db : database)
    (i : nat) :
  schema db -> schema (renumber db now i bs).
Proof.
  revert db i. induction bs as [|b r IH]; intros db i H; simpl; [exact H|].
  apply IH. now apply update_block_position_schema.
Qed.

Lemma insert_block_schema (db db' : database) (page : Page.row) (type : field)
    (data_json : string) (position : Z) (t : string) :
  In page (pages db) ->
  insert_block db (Page.id page) type data_json position t = inr db' ->
  schema db -> schema db'.
Proof.
  intros Hpage Hins ((Hid & Hsl & Hp) & Hus & (Hbid & Hb)).
  assert (Hseqs : seq_pages db' = seq_pages db /\ pages db' = pages db /\
                  users db' = users db /\ seq_users db' = seq_users db /\
                  seq_blocks db' = next_rowid (seq_blocks db) (map Block.id (blocks db))).
  { revert Hins. unfold insert_block. destruct type as [ty|]; [|discriminate].
    destruct (negb _); [discriminate|]. destruct (_ && _); [discriminate|].
    now intros [= <-]. }
  destruct Hseqs as (Hsp & Hpp & Hu & Hsu & Hsb).
  apply insert_block_inr in Hins as (ty & -> & Hty & Hblocks).
  destruct (next_rowid_above (seq_blocks db) (map Block.id (blocks db))) as [Hseq Hnew].
  split; [|split].
  - unfold pages_ok. rewrite Hpp, Hsp. auto.
  - unfold users_ok. rewrite Hu, Hsu. exact Hus.
  - unfold blocks_ok. rewrite Hblocks, Hsb, Hsp, map_app. simpl. split.
    + apply NoDup_snoc; [apply next_rowid_fresh | exact Hbid].
    + intros b Hin. apply in_app_or in Hin as [Hin|[<-|[]]].
      * destruct (Hb b Hin) as (H1 & H2 & H3). repeat split; auto. lia.
      * apply mem_string_In in Hty.
        repeat split; [simpl; lia | simpl; now apply Hp | exact Hty].
Qed.

(** *** Handler by handler *)

Lemma seed_schema (bcrypt_hash : string -> string) (now : nat -> string)
    (db : database) :
  schema db -> schema (seed bcrypt_hash now db).
Proof.
  intros H. unfold seed. destruct (select_user_by_username _ _); [exact H|].
  destruct (insert_user _ _ _ _ _) eqn:E; [exact H|].
  eapply insert_user_schema; eauto.
Qed.

Lemma post_pages_new_schema (slugify : string -> string) (now : nat -> string)
    (db : database) (session : option Session.user) (title slug audience status : field) :
  schema db ->
  schema (fst (post_pages_new slugify now db session title slug audience status)).
Proof.
  intros H. unfold post_pages_new, requireAuth. destruct session; [|exact H].
  destruct (_ || _); [exact H|].
  destruct (insert_page _ _ _ _ _ _) eqn:E; [exact H|].
  eapply insert_page_schema; eauto.
Qed.

Lemma post_pages_edit_schema (slugify : string -> string) (now : nat -> string)
    (db : database) (session : option Session.user) (id : string)
    (title slug audience status : field) :
  schema db ->
  schema (fst (post_pages_edit slugify now db session id title slug audience status)).
Proof.
  intros H. unfold post_pages_edit, requireAuth. destruct session; [|exact H].
  destruct (select_page db id); [|exact H].
  destruct (_ || _); [exact H|].
  destruct (update_page _ _ _ _ _ _ _) eqn:E; [exact H|].
  eapply update_page_schema; eauto.
Qed.

Lemma post_pages_delete_schema (db : database) (session : option Session.user)
    (id : string) :
  schema db -> schema (fst (post_pages_delete db session id)).
Proof.
  intros H. unfold post_pages_delete, requireAuth. destruct session; [|exact H].
  destruct (negb _); [exact H|]. now apply delete_page_schema.
Qed.

Lemma post_blocks_edit_schema (JSON_parse : string -> option JSON.value)
    (JSON_stringify : JSON.value -> string) (now : nat -> string) (db : database)
    (session : option Session.user) (blockId : string) (form : form) :
  schema db ->
  schema (fst (post_blocks_edit JSON_parse JSON_stringify now db session blockId form)).
Proof.
  intros H. unfold post_blocks_edit, requireAuth. destruct session; [|exact H].
  destruct (select_block db blockId) as [block|]; [|exact H].
  destruct (edited_data _ _ _) as [e|data]; [exact H|].
  destruct (select_page_by_key _ _); now apply update_block_data_json_schema.
Qed.

Lemma serve_schema (JSON_stringify : JSON.value -> string) (db : database)
    (r : request) :
  schema db -> schema (fst (serve JSON_stringify db r)).
Proof.
  intros H.
  unfold serve, post_blocks_add, post_blocks_delete, post_blocks_move, requireAuth.
  destruct (asks r); destruct (session r); try exact H.
  - destruct (select_page db page) as [p|] eqn:Hp; [|exact H].
    destruct (insert_block _ _ _ _ _ _) eqn:E; [exact H|].
    eapply insert_block_schema; eauto. now apply select_page_in in Hp.
  - destruct (select_block db blockId); [|exact H]. simpl.
    now apply renumber_schema, delete_block_schema.
  - destruct (select_block db blockId); [|exact H]. cbv zeta.
    destruct (_ =? -1); [exact H|]. destruct (_ || _); [exact H|].
    destruct (nth_error _ _); [|exact H].
    destruct (nth_error _ _); [|exact H].
    now do 2 apply update_block_position_schema.
Qed.

Lemma post_users_new_schema (bcrypt_hash : string -> string) (now : nat -> string)
    (db : database) (session : option Session.user) (username password role : field) :
  schema db ->
  schema (fst (post_users_new bcrypt_hash now db session username password role)).
Proof.
  intros H. unfold post_users_new, requireAdmin. destruct session; [|exact H].
  destruct (negb _); [exact H|]. destruct (_ || _); [exact H|].
  destruct (insert_user _ _ _ _ _) eqn:E; [exact H|].
  eapply insert_user_schema; eauto.
Qed.

Lemma post_users_delete_schema (db : database) (session : option Session.user)
    (id : string) :
  schema db -> schema (fst (post_users_delete db session id)).
Proof.
  intros H. unfold post_users_delete, requireAdmin. destruct session; [|exact H].
  destruct (negb _); [exact H|].
  destruct (parseInt id) as [k|]; [destruct (k =? _); [exact H|]|];
    now apply delete_user_schema.
Qed.

Lemma fresh_file_schema : schema (initDb fresh_file).
Proof.
  repeat split; simpl; try constructor; contradiction.
Qed.

Lemma initDb_schema (db : database) : schema db -> schema (initDb db).
Proof. intros H. exact H. Qed.

(** X6.  From a fresh file on, whatever the requests handled since: the keys
    of pages, users and blocks, the slugs and the user names are each held
    once; every audience, status, role and block type is one of the values
    its CHECK allows; no key exceeds the counter of its table, which is why a
    key is never given twice, and no block refers to a page id beyond the
    counter of [pages]. *)
Theorem reachable_keeps_schema (db : database) : reachable db -> schema db.
Proof.
  induction 1.
  - apply seed_schema, fresh_file_schema.
  - now apply seed_schema, initDb_schema.
  - now apply post_pages_new_schema.
  - now apply post_pages_edit_schema.
  - now apply post_pages_delete_schema.
  - now apply post_blocks_edit_schema.
  - now apply serve_schema.
  - now apply post_users_new_schema.
  - now apply post_users_delete_schema.
Qed.

(** ** Making and editing a page *)

Lemma find_snoc {A : Type} (p : A -> bool) (l : list A) (y : A) :
  (forall x, In x l -> p x = false) ->
  find p (l ++ [y]) = if p y then Some y else None.
Proof.
  induction l as [|x r IH]; simpl; intros H; [reflexivity|].
  rewrite (H x) by auto. apply IH. auto.
Qed.

Lemma filter_none {A : Type} (p : A -> bool) (l : list A) :
  (forall x, In x l -> p x = false) -> filter p l = [].
Proof.
  induction l as [|x r IH]; simpl; intros H; [reflexivity|].
  rewrite (H x) by auto. apply IH. auto.
Qed.

Lemma existsb_same {A : Type} (p q : A -> bool) (l : list A) :
  (forall x, p x = q x) -> existsb p l = existsb q l.
Proof.
  intros H. induction l as [|x r IH]; simpl; [reflexivity|]. now rewrite H, IH.
Qed.

Lemma insert_page_inr (db db' : database) (title slug audience status t : string) :
  insert_page db title slug audience status t = inr db' ->
  existsb (fun p => (Page.slug p =? slug)%string) (pages db) = false /\
  db' = with_pages db
          (pages db ++
           [Page.mk (next_rowid (seq_pages db) (map Page.id (pages db))) title slug
              audience status t t])
          (next_rowid (seq_pages db) (map Page.id (pages db))).
Proof.
  unfold insert_page. repeat (destruct (negb _); [discriminate|]).
  destruct (existsb _ _); [discriminate|]. now intros [= <-].
Qed.

(** X7.  When posting a new page ends with the redirect to the dashboard, the
    page is stored as a new last row: with the posted title, the slug made
    of the posted slug or else of the title, the audience [general] and the
    status [draft] unless others were posted, and a key above every key of
    the table.  The page is found under its key, it has no block, though the
    blocks of deleted pages may still be stored, and the public route serves
    it, empty, exactly when it is published. *)
Theorem new_page_is_stored_empty (slugify : string -> string) (now : nat -> string)
    (db db' : database) (user : Session.user) (title slug audience status : field) :
  schema db ->
  post_pages_new slugify now db (Some user) title slug audience status =
    (db', redirect "/admin") ->
  exists page : Page.row,
    pages db' = pages db ++ [page] /\
    Page.title page = js_or title "" /\
    Page.slug page = safeSlug slugify (js_or (js_or_field slug title) "") /\
    Page.audience page = js_or audience "general" /\
    Page.status page = js_or status "draft" /\
    (forall p, In p (pages db) ->
               Page.id p < Page.id page /\ Page.slug p <> Page.slug page) /\
    select_page db' (string_of_Z (Page.id page)) = Some page /\
    page_blocks db' (Page.id page) = [] /\
    forall (JSON_parse : string -> option JSON.value) (visitor : option Session.user),
      get_page JSON_parse db' visitor (Page.slug page) =
      if (Page.status page =? "published")%string
      then render 200 (public_page page [] visitor)
      else render 404 (public_notfound visitor).
Proof.
  intros ((Hid & Hsl & Hp) & _ & (_ & Hb)).
  unfold post_pages_new, requireAuth.
  destruct (_ || _); [discriminate|].
  destruct (insert_page _ _ _ _ _ _) as [e|d] eqn:E; [discriminate|].
  intros [= ->]. apply insert_page_inr in E as [Hfree ->].
  destruct (next_rowid_above (seq_pages db) (map Page.id (pages db))) as [Hseq Hnew].
  set (id := next_rowid (seq_pages db) (map Page.id (pages db))) in *.
  set (final := safeSlug slugify (js_or (js_or_field slug title) "")) in *.
  set (page := Page.mk id (js_or title "") final (js_or audience "general")
                 (js_or status "draft") (now 0%nat) (now 0%nat)).
  assert (Hold : forall p, In p (pages db) ->
                           Page.id p < id /\ Page.slug p <> final).
  { intros p Hin. split.
    - apply Hnew. now apply in_map.
    - pose proof (not_existsb _ _ p Hfree Hin) as Hne. simpl in Hne.
      now apply String.eqb_neq in Hne. }
  assert (Hempty : filter (of_page id) (blocks db) = []).
  { apply filter_none. intros b Hin. unfold of_page. apply Z.eqb_neq.
    destruct (Hb b Hin) as (_ & H & _). lia. }
  exists page. repeat split; try (now apply Hold).
  - unfold select_page. simpl. rewrite find_snoc.
    + simpl. now rewrite id_eq_string_of_Z, Z.eqb_refl.
    + intros p Hin. rewrite id_eq_string_of_Z. apply Z.eqb_neq.
      destruct (Hold p Hin). lia.
  - exact Hempty.
  - intros JSON_parse visitor. unfold get_page, select_published_page. simpl.
    rewrite find_snoc.
    + simpl. rewrite String.eqb_refl. simpl.
      destruct (js_or status "draft" =? "published")%string; [|reflexivity].
      unfold select_blocks_of_page. simpl. fold id. now rewrite Hempty.
    + intros p Hin. destruct (Hold p Hin) as [_ Hne].
      apply String.eqb_neq in Hne. now rewrite Hne.
Qed.

(** X8.  Saving an existing page with a title and a slug: the page may keep
    its own slug, and it may not take the slug of another page.  In the
    first case the row keeps its key and its creation time and takes the new
    title, slug, audience and status, every other row being left alone; in
    the second nothing is changed and the form comes back with the message
    of a taken slug. *)
Theorem page_edit_slug_rule (slugify : string -> string) (now : nat -> string)
    (db : database) (user : Session.user) (id : string) (page : Page.row)
    (title slug audience status : field) :
  select_page db id = Some page ->
  truthy title = true ->
  safeSlug slugify (js_or (js_or_field slug title) "") <> "" ->
  In (js_or audience "general") audiences ->
  In (js_or status "draft") statuses ->
  let final := safeSlug slugify (js_or (js_or_field slug title) "") in
  post_pages_edit slugify now db (Some user) id title slug audience status =
  if existsb (fun p => negb (Page.id p =? Page.id page) && (Page.slug p =? final)%string)
       (pages db)
  then (db, render 200 (admin_page_form user (Some page)
                          (Some "Slug already exists. Choose another.")))
  else (with_pages db
          (map (fun p =>
                  if Page.id p =? Page.id page
                  then Page.mk (Page.id p) (js_or title "") final
                         (js_or audience "general") (js_or status "draft")
                         (Page.created_at p) (now 0%nat)
                  else p)
             (pages db))
          (seq_pages db),
        redirect "/admin").
Proof.
  intros Hsel Ht Hne Ha Hs final.
  unfold post_pages_edit, requireAuth. rewrite Hsel, Ht. fold final.
  apply String.eqb_neq in Hne. fold final in Hne. rewrite Hne. simpl.
  pose proof Hsel as Hfound. apply find_some in Hfound as [Hin Hmatch].
  assert (Hkey : forall p : Page.row, id_eq id (Page.id p) = (Page.id p =? Page.id page)).
  { intros p. rewrite (id_eq_same _ _ _ Hmatch). apply Z.eqb_sym. }
  unfold update_page.
  assert (existsb (fun p => id_eq id (Page.id p)) (pages db) = true) as ->
    by (apply existsb_exists; eauto).
  apply mem_string_In in Ha, Hs. rewrite Ha, Hs. simpl.
  rewrite (existsb_same _
             (fun p => negb (Page.id p =? Page.id page) && (Page.slug p =? final)%string))
    by (intros p; now rewrite Hkey).
  destruct (existsb _ (pages db)); [reflexivity|].
  f_equal. unfold with_pages. f_equal.
  apply map_ext. intros p. now rewrite Hkey.
Qed.

(** ** Adding a block and opening it *)

Lemma find_map {A : Type} (p : A -> bool) (f : A -> A) (l : list A) :
  (forall x, p (f x) = p x) -> find p (map f l) = option_map f (find p l).
Proof.
  intros H. induction l as [|x r IH]; simpl; [reflexivity|].
  rewrite H. now destruct (p x).
Qed.

Lemma find_same {A : Type} (p q : A -> bool) (l : list A) :
  (forall x, p x = q x) -> find p l = find q l.
Proof.
  intros H. induction l as [|x r IH]; simpl; [reflexivity|]. now rewrite H, IH.
Qed.

(** The page a route parameter selects is the page of that key. *)
Lemma select_page_by_its_key (db : database) (param : string) (page : Page.row) :
  select_page db param = Some page ->
  select_page_by_key db (Page.id page) = Some page.
Proof.
  intros Hsel. unfold select_page_by_key. rewrite <- Hsel. unfold select_page.
  apply find_some in Hsel as [_ Hm].
  apply find_same. intros p. rewrite (id_eq_same _ _ _ Hm). apply Z.eqb_sym.
Qed.

Lemma post_blocks_add_inserts (JSON_stringify : JSON.value -> string)
    (now : nat -> string) (db : database) (user : Session.user) (id : string)
    (page : Page.row) (type : string) :
  select_page db id = Some page ->
  In type block_types ->
  post_blocks_add JSON_stringify now db (Some user) id (Some type) =
  (with_blocks db
     (blocks db ++
      [Block.mk (next_rowid (seq_blocks db) (map Block.id (blocks db))) (Page.id page)
         type (JSON_stringify (default_data (Some type)))
         (count_blocks_of_page db (Page.id page) + 1) (now 0%nat) (now 0%nat)])
     (next_rowid (seq_blocks db) (map Block.id (blocks db))),
   redirect (blocks_url (Page.id page))).
Proof.
  intros Hsel Hty. unfold post_blocks_add, requireAuth. rewrite Hsel. cbv zeta.
  rewrite js_or_num_count. unfold insert_block.
  apply mem_string_In in Hty. rewrite Hty.
  assert (existsb (fun p => Page.id p =? Page.id page) (pages db) = true) as ->.
  { apply existsb_exists. exists page.
    split; [now apply select_page_in in Hsel | apply Z.eqb_refl]. }
  simpl. now rewrite andb_false_r.
Qed.

Lemma well_formed_default_data (type : string) :
  In type block_types -> well_formed (default_data (Some type)).
Proof.
  intros [<-|[<-|[<-|[<-|[<-|[]]]]]].
  - apply (well_formed_payload (text "" "")).
  - apply (well_formed_payload (image "" "" "")).
  - apply (well_formed_payload (video "" "youtube" "" "" "")).
  - apply (well_formed_payload (callout "Key idea" "")).
  - apply (well_formed_payload
             (quiz "Quick Quiz"
                [mk_question "Sample question 1?" ["A"; "B"; "C"; "D"] 0])).
Qed.

(** X9.  Adding a block needs a page and one of the five types.  For a page
    that does not exist the answer is 404.  For an existing page and a type
    that is missing or not one of the five, the INSERT fails on the NOT NULL
    or the CHECK of the column, the promise of the handler rejects with that
    error, and no block is stored: the database is left as it was. *)
Theorem add_needs_page_and_type (JSON_stringify : JSON.value -> string)
    (now : nat -> string) (db : database) (user : Session.user) (id : string)
    (type : field) :
  (select_page db id = None ->
   post_blocks_add JSON_stringify now db (Some user) id type =
   (db, send 404 "Page not found")) /\
  (forall page, select_page db id = Some page ->
     (forall ty, type = Some ty -> ~ In ty block_types) ->
     post_blocks_add JSON_stringify now db (Some user) id type =
     (db, rejected (SqliteError
                      match type with
                      | None => SQLITE_CONSTRAINT_NOTNULL "type"
                      | Some _ => SQLITE_CONSTRAINT_CHECK "type"
                      end))).
Proof.
  unfold post_blocks_add, requireAuth. split.
  - now intros ->.
  - intros page -> Hty. cbv zeta. unfold insert_block.
    destruct type as [ty|]; [|reflexivity].
    destruct (mem_string ty block_types) eqn:E; [|reflexivity].
    apply mem_string_In in E. now destruct (Hty ty eq_refl).
Qed.

(** X10.  A block that was just added opens in the editor under the decimal
    numeral of its key, with the page it was added to and with the seed
    content of its type, read back from what was stored. *)
Theorem added_block_opens_with_defaults (now : nat -> string) (db : database)
    (user : Session.user) (id : string) (page : Page.row) (type : string) :
  select_page db id = Some page ->
  In type block_types ->
  let added := fst (post_blocks_add JSON.stringify now db (Some user) id (Some type)) in
  let key := next_rowid (seq_blocks db) (map Block.id (blocks db)) in
  exists block : Block.row,
    get_blocks_edit JSON.parse added (Some user) (string_of_Z key) =
      (added, render 200 (admin_block_edit user (Some page) block
                            (default_data (Some type)) None)) /\
    Block.id block = key /\ Block.page_id block = Page.id page /\
    Block.type block = type /\
    Block.position block = count_blocks_of_page db (Page.id page) + 1.
Proof.
  intros Hsel Hty added key. unfold added.
  rewrite (post_blocks_add_inserts _ _ _ _ _ _ _ Hsel Hty). fold key. simpl fst.
  set (new := Block.mk key (Page.id page) type
                (JSON.stringify (default_data (Some type)))
                (count_blocks_of_page db (Page.id page) + 1) (now 0%nat) (now 0%nat)).
  set (db' := with_blocks db (blocks db ++ [new]) key).
  assert (Hblock : select_block db' (string_of_Z key) = Some new).
  { unfold select_block, db'. simpl blocks. rewrite find_snoc.
    - now rewrite id_eq_string_of_Z, Z.eqb_refl.
    - intros b Hin. rewrite id_eq_string_of_Z. apply Z.eqb_neq.
      intros E. apply (next_rowid_fresh (seq_blocks db) (map Block.id (blocks db))).
      fold key. rewrite E. now apply in_map. }
  assert (Hpage : select_page_by_key db' (Page.id page) = Some page)
    by exact (select_page_by_its_key _ _ _ Hsel).
  exists new. split; [|repeat split].
  unfold get_blocks_edit, requireAuth. rewrite Hblock. cbv zeta.
  change (Block.page_id new) with (Page.id page). rewrite Hpage.
  change (Block.data_json new) with (JSON.stringify (default_data (Some type))).
  unfold parseJsonSafe.
  now rewrite (parse_stringify _ (well_formed_default_data _ Hty)).
Qed.

(** ** Saving a block and opening it again *)

(** X11.  What the editor saves is what the editor shows next: after a
    block has been saved, opening it again under the same route parameter
    shows the payload that was built from the form, read back from what was
    stored; the row shown is the old one with the new text and time stamp.
    This holds for each of the five types, the payload being a value as a
    JavaScript program holds it (distinct keys, in property order), which
    the object built for a text, an image, a video or a callout always is. *)
Theorem saved_block_opens_as_saved (now : nat -> string) (db : database)
    (user : Session.user) (blockId : string) (block : Block.row) (form : form)
    (data : JSON.value) :
  select_block db blockId = Some block ->
  edited_data JSON.parse (Block.type block) form = inr data ->
  well_formed data ->
  let saved :=
    fst (post_blocks_edit JSON.parse JSON.stringify now db (Some user) blockId form) in
  get_blocks_edit JSON.parse saved (Some user) blockId =
  (saved,
   render 200
     (admin_block_edit user (select_page_by_key db (Block.page_id block))
        (Block.set_data_json (JSON.stringify data) (now 0%nat) block) data None)).
Proof.
  intros Hsel Hdata Hwf saved.
  assert (Hsaved : saved = update_block_data_json db (JSON.stringify data) (now 0%nat)
                             (Block.id block)).
  { unfold saved, post_blocks_edit, requireAuth. rewrite Hsel, Hdata.
    now destruct (select_page_by_key db (Block.page_id block)). }
  rewrite Hsaved. unfold get_blocks_edit, requireAuth, select_block. simpl blocks.
  rewrite find_map by (intros c; simpl; now destruct (Block.id c =? Block.id block)).
  fold (select_block db blockId). rewrite Hsel. simpl option_map.
  rewrite Z.eqb_refl. cbv zeta.
  unfold parseJsonSafe. simpl Block.data_json.
  now rewrite (parse_stringify _ Hwf).
Qed.

(** ** Deleting a block *)

(** A row taken out of a sorted list leaves the others where they were:
    [WHERE] and [ORDER BY] on a total order commute. *)
Lemma insert_by_filter {A : Type} (le : A -> A -> bool) (p : A -> bool) (x : A)
    (l : list A) :
  (forall x y z, le x y = true -> le y z = true -> le x z = true) ->
  StronglySorted (fun x y => le x y = true) l ->
  filter p (insert_by le x l) =
  if p x then insert_by le x (filter p l) else filter p l.
Proof.
  intros Htr. induction 1 as [|y r Hr IH Hy]; simpl.
  - now destruct (p x).
  - destruct (le x y) eqn:Hxy; simpl.
    + destruct (p x) eqn:Hpx; [|reflexivity].
      destruct (p y) eqn:Hpy; simpl; [now rewrite Hxy|].
      assert (Hall : forall z, In z (filter p r) -> le x z = true).
      { intros z Hz. apply filter_In in Hz as [Hz _].
        rewrite Forall_forall in Hy. eauto. }
      destruct (filter p r) as [|z s]; simpl; [reflexivity|].
      now rewrite (Hall z) by now left.
    + rewrite IH. destruct (p y) eqn:Hpy; simpl.
      * destruct (p x); [now rewrite Hxy | reflexivity].
      * reflexivity.
Qed.

Lemma order_by_filter {A : Type} (le : A -> A -> bool) (p : A -> bool) (l : list A) :
  (forall x y, le x y = true \/ le y x = true) ->
  (forall x y z, le x y = true -> le y z = true -> le x z = true) ->
  filter p (order_by le l) = order_by le (filter p l).
Proof.
  intros Htot Htr. induction l as [|x r IH]; simpl; [reflexivity|].
  rewrite insert_by_filter by (auto; now apply order_by_sorted).
  rewrite IH. now destruct (p x).
Qed.

Lemma position_asc_total (b c : Block.row) :
  position_asc b c = true \/ position_asc c b = true.
Proof. unfold position_asc. rewrite !Z.leb_le. lia. Qed.

Lemma position_asc_trans (b c d : Block.row) :
  position_asc b c = true -> position_asc c d = true -> position_asc b d = true.
Proof. unfold position_asc. rewrite !Z.leb_le. lia. Qed.

Lemma filter_filter_swap {A : Type} (p q : A -> bool) (l : list A) :
  filter p (filter q l) = filter q (filter p l).
Proof.
  induction l as [|x r IH]; simpl; [reflexivity|].
  destruct (p x) eqn:Hp, (q x) eqn:Hq; simpl; rewrite ?Hp, ?Hq, IH; reflexivity.
Qed.

(** The listing of a page after [DELETE FROM blocks WHERE id=?]. *)
Lemma select_blocks_of_page_delete (db : database) (id p : Z) :
  select_blocks_of_page (delete_block db id) p =
  filter (fun b => negb (Block.id b =? id)) (select_blocks_of_page db p).
Proof.
  unfold select_blocks_of_page, order_by_position, delete_block. simpl.
  rewrite filter_filter_swap. symmetry.
  apply order_by_filter; [apply position_asc_total | apply position_asc_trans].
Qed.

(** Two listings of the same rows in ascending position, no position held
    twice, are the same listing. *)
Lemma sorted_listing_unique (l1 l2 : list Block.row) :
  NoDup (map Block.position l1) ->
  StronglySorted (fun x y => Block.position x <= Block.position y) l1 ->
  StronglySorted (fun x y => Block.position x <= Block.position y) l2 ->
  Permutation l1 l2 -> l1 = l2.
Proof.
  intros Hnd H1. revert l2 Hnd.
  induction H1 as [|x r Hr IH Hx]; intros l2 Hnd H2 HP.
  - now apply Permutation_nil in HP.
  - destruct H2 as [|y s Hs Hy].
    + apply Permutation_sym, Permutation_nil in HP. discriminate.
    + assert (x = y) as <-.
      { rewrite Forall_forall in Hx, Hy.
        assert (Hyin : In y (x :: r))
          by (eapply Permutation_in; [apply Permutation_sym, HP | now left]).
        assert (Hxin : In x (y :: s))
          by (eapply Permutation_in; [apply HP | now left]).
        apply (key_inj Block.position (x :: r) x y Hnd); [now left | exact Hyin |].
        destruct Hyin as [->|Hyin]; [reflexivity|].
        destruct Hxin as [->|Hxin]; [reflexivity|].
        specialize (Hx _ Hyin). specialize (Hy _ Hxin). lia. }
      f_equal. apply IH.
      * simpl in Hnd. now inversion Hnd.
      * exact Hs.
      * now apply Permutation_cons_inv in HP.
Qed.

Lemma seq_sorted_nodup (i n : nat) :
  NoDup (map Z.of_nat (seq i n)) /\ StronglySorted Z.le (map Z.of_nat (seq i n)).
Proof.
  revert i. induction n as [|n IH]; intros i; simpl.
  - split; constructor.
  - destruct (IH (S i)) as [Hnd Hs]. split.
    + constructor; [|exact Hnd]. intros Hin.
      apply in_map_iff in Hin as (m & E & Hm). apply in_seq in Hm. lia.
    + constructor; [exact Hs|]. rewrite Forall_forall. intros y Hy.
      apply in_map_iff in Hy as (m & <- & Hm). apply in_seq in Hm. lia.
Qed.

Lemma sorted_of_positions (l : list Block.row) :
  StronglySorted Z.le (map Block.position l) ->
  StronglySorted (fun x y => Block.position x <= Block.position y) l.
Proof.
  induction l as [|c r IH]; simpl; intros H; [constructor|].
  inversion H as [|? ? Hr Hc]; subst. constructor; [now apply IH|].
  rewrite Forall_forall in Hc |- *. intros y Hy. apply Hc. now apply in_map.
Qed.

(** The listing of a page after the renumbering loop has run over it: the
    same rows in the same order, renumbered. *)
Lemma select_blocks_of_page_renumber (now : nat -> string) (db : database) (p : Z) :
  primary_key db ->
  let L := select_blocks_of_page db p in
  select_blocks_of_page (renumber db now O L) p =
  map (renumbered now O (map Block.id L)) L.
Proof.
  intros Hk L.
  pose proof (select_blocks_of_page_key db p Hk) as Hnd. fold L in Hnd.
  pose proof (renumbered_positions now L Hnd O) as Hpos.
  destruct (seq_sorted_nodup 1 (List.length L)) as [Hnd1 Hs1].
  symmetry. apply sorted_listing_unique.
  - rewrite map_map, Hpos. exact Hnd1.
  - apply sorted_of_positions. rewrite map_map, Hpos. exact Hs1.
  - apply order_by_position_sorted.
  - unfold select_blocks_of_page at 1. fold (page_blocks (renumber db now O L) p).
    unfold L at 3. rewrite page_blocks_renumber by exact Hnd.
    eapply perm_trans; [|apply Permutation_sym, order_by_perm].
    apply Permutation_map. unfold L, select_blocks_of_page, order_by_position.
    apply order_by_perm.
Qed.

(** X12.  Deleting a block takes it out of the listing of its page and
    leaves the other blocks in the order they were in, with their type and
    content, now numbered 1, 2, ... without a gap; the block is no longer
    found under the route parameter that named it. *)
Theorem delete_keeps_the_order (now : nat -> string) (db : database)
    (user : Session.user) (blockId : string) (block : Block.row) :
  primary_key db ->
  select_block db blockId = Some block ->
  let p := Block.page_id block in
  let db' := fst (post_blocks_delete now db (Some user) blockId) in
  let rest := filter (fun b => negb (Block.id b =? Block.id block))
                (select_blocks_of_page db p) in
  let after := select_blocks_of_page db' p in
  map Block.id after = map Block.id rest /\
  map Block.type after = map Block.type rest /\
  map Block.data_json after = map Block.data_json rest /\
  map Block.position after = one_to (List.length rest) /\
  (List.length rest < List.length (select_blocks_of_page db p))%nat /\
  select_block db' blockId = None.
Proof.
  intros Hk Hsel p db' rest after.
  pose proof (delete_block_key db (Block.id block) Hk) as Hk1.
  assert (Hafter : after =
            map (renumbered now O (map Block.id rest)) rest).
  { unfold after, db', post_blocks_delete, requireAuth. rewrite Hsel. simpl fst.
    fold p. rewrite (select_blocks_of_page_renumber now _ p Hk1).
    now rewrite select_blocks_of_page_delete. }
  assert (Hnd : NoDup (map Block.id rest)).
  { unfold rest. rewrite <- select_blocks_of_page_delete.
    now apply select_blocks_of_page_key. }
  rewrite Hafter, !map_map. repeat split.
  - apply map_ext. intros c. apply renumbered_id.
  - apply map_ext. intros c. unfold renumbered. now destruct (index_of _ _).
  - apply map_ext. intros c. unfold renumbered. now destruct (index_of _ _).
  - rewrite (renumbered_positions now rest Hnd O). reflexivity.
  - unfold rest.
    assert (Hin : In block (select_blocks_of_page db p)).
    { apply in_select_blocks_of_page. split; [|reflexivity].
      now apply select_block_in in Hsel. }
    clear -Hin. induction (select_blocks_of_page db p) as [|c r IH]; [easy|].
    simpl. destruct Hin as [->|Hin].
    + rewrite Z.eqb_refl. simpl. pose proof (filter_length_le
        (fun b => negb (Block.id b =? Block.id block)) r). lia.
    + specialize (IH Hin). destruct (negb _); simpl; lia.
  - unfold db', post_blocks_delete, requireAuth. rewrite Hsel. simpl fst.
    unfold select_block.
    rewrite renumber_blocks by now apply select_blocks_of_page_key.
    rewrite find_map by (intros c; now rewrite renumbered_id).
    assert (Hnone : find (fun b => id_eq blockId (Block.id b))
                      (blocks (delete_block db (Block.id block))) = None).
    { apply find_some in Hsel as [_ Hm].
      destruct (find _ _) as [c|] eqn:Hf; [|reflexivity].
      apply find_some in Hf as [Hc Hmc]. apply delete_block_in in Hc as [_ Hne].
      rewrite (id_eq_same _ _ _ Hm) in Hmc. apply Z.eqb_eq in Hmc. congruence. }
    now rewrite Hnone.
Qed.

(** ** A move without a direction *)

(** The block a request names is in the listing of its page, at the index
    [findIndex] gives. *)
Lemma findIndex_selected (db : database) (block : Block.row) :
  primary_key db -> In block (blocks db) ->
  let L := select_blocks_of_page db (Block.page_id block) in
  let idx := findIndex (fun b => Block.id b =? Block.id block) L in
  idx <> -1 /\ 0 <= idx < Z.of_nat (List.length L) /\
  nth_error L (Z.to_nat idx) = Some block.
Proof.
  intros Hk Hin L idx.
  assert (Hne : idx <> -1).
  { apply (findIndex_found _ L block); [|apply Z.eqb_refl].
    apply in_select_blocks_of_page; auto. }
  destruct (findIndex_nth _ L Hne) as (Hr & x & Hx & Hq). fold idx in Hr, Hx.
  apply Z.eqb_eq in Hq.
  assert (x = block) as ->.
  { apply nth_error_In, in_select_blocks_of_page in Hx as [Hx _].
    eapply key_inj; eauto. }
  auto.
Qed.

(** X13.  A move whose direction is neither [up] nor [down] changes no
    position: the block exchanges places with itself.  Its row is written
    all the same, so its time stamp is the only thing that changes. *)
Theorem move_without_direction (now : nat -> string) (db : database)
    (user : Session.user) (blockId : string) (dir : field) (block : Block.row) :
  primary_key db ->
  select_block db blockId = Some block ->
  field_is dir "up" = false ->
  field_is dir "down" = false ->
  post_blocks_move now db (Some user) blockId dir =
  (with_blocks db
     (map (fun c => if Block.id c =? Block.id block
                    then Block.set_position (Block.position c) (now 1%nat) c
                    else c)
        (blocks db))
     (seq_blocks db),
   redirect (blocks_url (Block.page_id block))).
Proof.
  intros Hk Hsel Hup Hdown.
  pose proof (select_block_in _ _ _ Hsel) as Hin.
  destruct (findIndex_selected db block Hk Hin) as (Hne & Hr & Hnth).
  unfold post_blocks_move, requireAuth. rewrite Hsel, Hup, Hdown. cbv zeta.
  set (L := select_blocks_of_page db (Block.page_id block)) in *.
  set (idx := findIndex _ L) in *.
  destruct (Z.eqb_spec idx (-1)) as [|_]; [contradiction|].
  destruct (Z.ltb_spec idx 0) as [|_]; [lia|].
  destruct (Z.geb_spec idx (Z.of_nat (List.length L))) as [|_]; [lia|].
  simpl orb. cbv iota. rewrite Hnth. f_equal.
  unfold update_block_position, with_blocks. simpl. f_equal.
  rewrite map_map. apply map_ext_in. intros c Hc.
  destruct (Z.eqb_spec (Block.id c) (Block.id block)) as [E|NE]; simpl.
  - rewrite E, Z.eqb_refl. unfold Block.set_position. simpl.
    now rewrite (key_inj Block.id (blocks db) c block Hk Hc Hin E).
  - destruct (Z.eqb_spec (Block.id c) (Block.id block)); [contradiction | reflexivity].
Qed.

(** ** Block requests stay on their page *)

Lemma renumber_frame (now : nat -> string) (bs : list Block.row) (db : database)
    (i : nat) :
  pages (renumber db now i bs) = pages db /\ users (renumber db now i bs) = users db.
Proof.
  revert db i. induction bs as [|b r IH]; intros db i; simpl; [now split|].
  destruct (IH (update_block_position db (Z.of_nat i + 1) (now i) (Block.id b)) (S i))
    as [-> ->]. now split.
Qed.

(** X14.  Adding, deleting or moving a block touches the blocks of one page
    only: the rows of every other page are left as they are, field for
    field, and so are the tables of pages and users. *)
Theorem block_requests_stay_on_their_page (JSON_stringify : JSON.value -> string)
    (db : database) (r : request) (q : Z) :
  primary_key db ->
  page_of_request db (asks r) <> Some q ->
  let db' := fst (serve JSON_stringify db r) in
  page_blocks db' q = page_blocks db q /\ pages db' = pages db /\ users db' = users db.
Proof.
  intros Hk Hq. cbv zeta.
  unfold serve, post_blocks_add, post_blocks_delete, post_blocks_move, requireAuth.
  destruct (asks r) as [page type|blockId|blockId dir]; simpl in Hq;
    destruct (session r) as [user|]; try (now repeat split).
  - destruct (select_page db page) as [pg|] eqn:Hp; [|now repeat split].
    simpl in Hq. cbv zeta.
    destruct (insert_block _ _ _ _ _ _) as [e|d] eqn:E; [now repeat split|].
    assert (Hf : pages d = pages db /\ users d = users db).
    { revert E. unfold insert_block. destruct type; [|discriminate].
      destruct (negb _); [discriminate|]. destruct (_ && _); [discriminate|].
      now intros [= <-]. }
    apply insert_block_inr in E as (ty & _ & _ & Hb). simpl.
    split; [|exact Hf].
    rewrite (page_blocks_app d _ _ 0 q Hb). fold (page_blocks db q). simpl.
    unfold of_page at 1. simpl.
    destruct (Z.eqb_spec (Page.id pg) q) as [E|_]; [now rewrite E in Hq|].
    apply app_nil_r.
  - destruct (select_block db blockId) as [block|] eqn:Hsel; [|now repeat split].
    simpl in Hq. simpl fst.
    assert (Hne : q <> Block.page_id block) by congruence.
    split;
      [|destruct (renumber_frame (clock r)
                    (select_blocks_of_page (delete_block db (Block.id block))
                       (Block.page_id block))
                    (delete_block db (Block.id block)) O) as [-> ->]; now split].
    rewrite renumber_other_page by (auto using delete_block_key).
    apply delete_block_other_page; auto. now apply select_block_in in Hsel.
  - destruct (select_block db blockId) as [block|] eqn:Hsel; [|now repeat split].
    simpl in Hq. cbv zeta.
    set (L := select_blocks_of_page db (Block.page_id block)).
    set (idx := findIndex _ L).
    set (swapIdx := if field_is dir "down" then idx + 1 else _).
    destruct (idx =? -1); [now repeat split|].
    destruct (_ || _); [now repeat split|].
    destruct (nth_error L (Z.to_nat idx)) as [a|] eqn:Ha; [|now repeat split].
    destruct (nth_error L (Z.to_nat swapIdx)) as [b|] eqn:Hb; [|now repeat split].
    simpl fst. split; [|now split].
    apply nth_error_In, in_select_blocks_of_page in Ha as [Ha Hpa].
    apply nth_error_In, in_select_blocks_of_page in Hb as [Hb Hpb].
    rewrite !page_blocks_update, map_map. apply map_fixed. intros c Hc.
    apply in_page_blocks in Hc as [Hc Hpc].
    assert (Hca : Block.id c <> Block.id a).
    { intros E. rewrite (key_inj Block.id (blocks db) c a Hk Hc Ha E) in Hpc.
      congruence. }
    assert (Hcb : Block.id c <> Block.id b).
    { intros E. rewrite (key_inj Block.id (blocks db) c b Hk Hc Hb E) in Hpc.
      congruence. }
    apply Z.eqb_neq in Hca, Hcb. rewrite Hca. now rewrite Hcb.
Qed.

(** ** Accounts *)

Lemma insert_user_inr (db db' : database) (username password_hash role t : string) :
  insert_user db username password_hash role t = inr db' ->
  existsb (fun u => (User.username u =? username)%string) (users db) = false /\
  db' = with_users db
          (users db ++
           [User.mk (next_rowid (seq_users db) (map User.id (users db))) username
              password_hash role t])
          (next_rowid (seq_users db) (map User.id (users db))).
Proof.
  unfold insert_user. destruct (negb _); [discriminate|].
  destruct (existsb _ _); [discriminate|]. now intros [= <-].
Qed.

Lemma js_or_truthy (x : field) (d : string) :
  truthy x = true -> x = Some (js_or x d) /\ js_or x d <> "".
Proof.
  destruct x as [s|]; simpl; [|discriminate].
  destruct (String.eqb_spec s ""); [discriminate|]. now split.
Qed.

(** X15.  An account the admin has made can be used at once: when posting a
    new user ends with the redirect to the users view, the user is stored as
    a new last row under the posted name, with the role [admin] only if the
    posted role is exactly [admin] and [editor] otherwise, and a login with
    the posted name and password succeeds and gives a session of that user
    and role, as long as [bcrypt.compare] accepts a password against the
    hash [bcrypt.hash] made of it. *)
Theorem created_user_can_log_in (bcrypt_hash : string -> string)
    (bcrypt_compare : string -> string -> bool) (now : nat -> string)
    (db db' : database) (creator : Session.user) (username password role : field) :
  (forall p, bcrypt_compare p (bcrypt_hash p) = true) ->
  post_users_new bcrypt_hash now db (Some creator) username password role =
    (db', redirect "/admin/users") ->
  exists user : User.row,
    users db' = users db ++ [user] /\
    username = Some (User.username user) /\
    User.role user = (if field_is role "admin" then "admin" else "editor") /\
    (forall u, In u (users db) ->
               User.id u < User.id user /\ User.username u <> User.username user) /\
    forall session : option Session.user,
      post_login bcrypt_compare db' session username password =
      (Some (Session.mk (User.id user) (User.username user) (User.role user)),
       redirect "/admin").
Proof.
  intros Hbcrypt. unfold post_users_new, requireAdmin.
  destruct (negb (Session.role creator =? "admin")%string); [discriminate|].
  destruct (truthy username) eqn:Hu; [|discriminate].
  destruct (truthy password) eqn:Hp; [|discriminate]. simpl.
  destruct (insert_user _ _ _ _ _) as [e|d] eqn:E; [discriminate|].
  intros [= ->]. apply insert_user_inr in E as [Hfree ->].
  destruct (js_or_truthy username "" Hu) as [Hname _].
  destruct (js_or_truthy password "" Hp) as [Hpw _].
  destruct (next_rowid_above (seq_users db) (map User.id (users db))) as [_ Hnew].
  eexists. split; [reflexivity|]. simpl.
  split; [exact Hname|]. split; [reflexivity|]. split; [|].
  - intros u Hin. split.
    + apply Hnew. now apply in_map.
    + intros Heq. pose proof (not_existsb _ _ u Hfree Hin) as Hne. simpl in Hne.
      apply String.eqb_neq in Hne. congruence.
  - intros session. unfold post_login, select_user_by_username. simpl users.
    rewrite Hname at 1. rewrite find_snoc.
    + simpl. rewrite String.eqb_refl. rewrite Hpw at 1. now rewrite Hbcrypt.
    + intros u Hin. apply (not_existsb _ _ u Hfree Hin).
Qed.

Lemma seed_has_admin (bcrypt_hash : string -> string) (now : nat -> string)
    (db : database) :
  exists user, select_user_by_username (seed bcrypt_hash now db) (Some "admin") =
               Some user.
Proof.
  unfold seed. destruct (select_user_by_username db (Some "admin")) as [u|] eqn:Hsel.
  - rewrite Hsel. eauto.
  - unfold insert_user. simpl negb. cbv iota.
    assert (existsb (fun u => (User.username u =? "admin")%string) (users db) = false)
      as ->.
    { destruct (existsb _ _) eqn:E; [|reflexivity].
      apply existsb_exists in E as (u & Hin & Hu). simpl in Hsel.
      now rewrite (find_none _ _ Hsel u Hin) in Hu. }
    eexists. unfold select_user_by_username. simpl users. rewrite find_snoc.
    + reflexivity.
    + intros u Hin. simpl in Hsel. apply (find_none _ _ Hsel u Hin).
Qed.

(** X16.  The start of the server makes the admin account once.  After a
    start there is a user named [admin]; starting again, with whatever clock
    and salt, changes nothing, so a password the admin has been given is not
    reset; and on a fresh file the account is user 1 with the role [admin],
    and the login [admin] / [admin123] opens a session for it. *)
Theorem restart_keeps_accounts (bcrypt_hash bcrypt_hash' : string -> string)
    (bcrypt_compare : string -> string -> bool) (now now' : nat -> string)
    (file : database) :
  let started := seed bcrypt_hash now (initDb file) in
  (exists user, select_user_by_username started (Some "admin") = Some user) /\
  seed bcrypt_hash' now' (initDb started) = started /\
  (bcrypt_compare "admin123" (bcrypt_hash "admin123") = true ->
   forall session,
     post_login bcrypt_compare (seed bcrypt_hash now (initDb fresh_file)) session
       (Some "admin") (Some "admin123") =
     (Some (Session.mk 1 "admin" "admin"), redirect "/admin")).
Proof.
  cbv zeta. split; [apply seed_has_admin|]. split.
  - assert (Hopen : initDb (seed bcrypt_hash now (initDb file)) =
                    seed bcrypt_hash now (initDb file)).
    { unfold seed.
      destruct (select_user_by_username (initDb file) (Some "admin")); [reflexivity|].
      unfold insert_user. simpl negb. cbv iota.
      now destruct (existsb _ _). }
    destruct (seed_has_admin bcrypt_hash now (initDb file)) as (user & Hu).
    rewrite Hopen. unfold seed at 1. now rewrite Hu.
  - intros Hc session. unfold post_login. simpl. now rewrite Hc.
Qed.

(** ** The media library *)

(** *** The name of an uploaded file *)

Lemma kept_ascii (u : N) : kept u = true -> N_of_ascii (ascii_of_N u) = u.
Proof.
  intros H. apply N_ascii_embedding. unfold kept in H.
  repeat (apply orb_true_iff in H as [H|H]);
    repeat (apply andb_true_iff in H as [? H]);
    rewrite ?N.leb_le, ?N.eqb_eq in *; lia.
Qed.

Lemma replace_unsafe_kept (s : code_units) :
  Forall (fun c => kept (N_of_ascii c) = true)
    (list_ascii_of_string (replace_unsafe s)).
Proof.
  unfold replace_unsafe. rewrite list_ascii_of_string_of_list_ascii.
  apply Forall_map, Forall_forall. intros u _.
  destruct (kept u) eqn:H; [now rewrite kept_ascii | reflexivity].
Qed.

Lemma replace_unsafe_length (s : code_units) :
  String.length (replace_unsafe s) = List.length s.
Proof.
  unfold replace_unsafe. induction s as [|u r IH]; simpl; [reflexivity|].
  now rewrite IH.
Qed.

Lemma list_ascii_append (a b : string) :
  list_ascii_of_string (a ++ b) = list_ascii_of_string a ++ list_ascii_of_string b.
Proof. induction a as [|c a IH]; simpl; [reflexivity | now rewrite IH]. Qed.

Lemma string_of_uint_kept (d : uint) :
  Forall (fun c => kept (N_of_ascii c) = true)
    (list_ascii_of_string (NilEmpty.string_of_uint d)).
Proof. induction d; simpl; constructor; auto. Qed.

Lemma string_of_Z_kept (n : Z) :
  Forall (fun c => kept (N_of_ascii c) = true) (list_ascii_of_string (string_of_Z n)).
Proof.
  unfold string_of_Z. destruct n as [|p|p]; simpl.
  - now repeat constructor.
  - rewrite NilZero_string_of_uint. apply string_of_uint_kept.
  - rewrite NilZero_string_of_uint. constructor; [reflexivity|].
    apply string_of_uint_kept.
Qed.

(** X17.  The name multer stores an upload under is made of the characters
    [a-z], [A-Z], [0-9], [.], [_] and [-] only, whatever name the browser
    sent and whatever [path.basename] makes of it: each other code unit has
    become one underscore.  So the name holds no slash and no backslash, and
    it is none of the names [.] and [..]. *)
Theorem upload_name_is_safe (basename : code_units -> code_units) (stamp : Z)
    (originalname : code_units) :
  let name := filename basename stamp originalname in
  Forall (fun c => kept (N_of_ascii c) = true) (list_ascii_of_string name) /\
  ~ In "/"%char (list_ascii_of_string name) /\
  ~ In "\"%char (list_ascii_of_string name) /\
  name <> "." /\ name <> ".." /\
  String.length name =
    (String.length (string_of_Z stamp) + 1 + List.length (basename originalname))%nat.
Proof.
  cbv zeta. unfold filename.
  assert (Hall : Forall (fun c => kept (N_of_ascii c) = true)
                   (list_ascii_of_string
                      (string_of_Z stamp ++ "_" ++ replace_unsafe (basename originalname)))).
  { rewrite !list_ascii_append. apply Forall_app. split; [apply string_of_Z_kept|].
    apply Forall_app. split; [now repeat constructor | apply replace_unsafe_kept]. }
  rewrite Forall_forall in Hall.
  destruct (string_of_Z_head stamp ("_" ++ replace_unsafe (basename originalname)))
    as (c & s & E & Hc).
  repeat split.
  - now apply Forall_forall.
  - intros H. apply Hall in H. discriminate H.
  - intros H. apply Hall in H. discriminate H.
  - rewrite E. intros [= -> _]. destruct Hc as [Hc|Hc]; discriminate Hc.
  - rewrite E. intros [= -> _]. destruct Hc as [Hc|Hc]; discriminate Hc.
  - rewrite !string_length_append, replace_unsafe_length. simpl. lia.
Qed.

(** *** Uploading and deleting *)

(** X18.  An upload by a signed-in user stores the file under the name the
    storage made for it and adds one item to the library, as a new last row
    with a key above every key given before, the name and type the browser
    sent, and the address of the stored file under [/public/uploads/]; the
    item is in the listing of the media view from then on.  Without a file
    in the form nothing is stored and nothing is added. *)
Theorem upload_is_stored_and_listed (basename : code_units -> code_units)
    (stamp : Z) (now : nat -> string) (lib : library) (user : Session.user) :
  post_media_upload basename stamp now lib (Some user) None = (lib, to "/admin/media") /\
  forall f : upload,
    let name := filename basename stamp (upload_originalname f) in
    let lib' := fst (post_media_upload basename stamp now lib (Some user) (Some f)) in
    exists item : Media.row,
      post_media_upload basename stamp now lib (Some user) (Some f) =
        (lib', to "/admin/media") /\
      media lib' = media lib ++ [item] /\
      Media.filename item = name /\
      Media.originalname item = upload_originalname f /\
      Media.mimetype item = upload_mimetype f /\
      Media.size item = upload_size f /\
      Media.url item = ("/public/uploads/" ++ name)%string /\
      (forall m, In m (media lib) -> Media.id m < Media.id item) /\
      seq_media lib < Media.id item /\
      In name (uploads lib') /\
      (forall g, In g (uploads lib) -> In g (uploads lib')) /\
      exists items,
        get_media lib' (Some user) = (lib', shows (admin_media user items)) /\
        In item items.
Proof.
  split; [reflexivity|]. intros f name lib'.
  destruct (next_rowid_above (seq_media lib) (map Media.id (media lib))) as [Hseq Hnew].
  eexists. split; [reflexivity|]. split; [reflexivity|]. simpl.
  repeat split; try exact Hseq.
  - intros m Hm. apply Hnew. now apply in_map.
  - fold name. destruct (mem_string name (uploads lib)) eqn:E.
    + now apply mem_string_In.
    + apply in_or_app. right. now left.
  - intros g Hg. fold name. destruct (mem_string name (uploads lib)); [exact Hg|].
    apply in_or_app. now left.
  - eexists. split; [reflexivity|].
    unfold select_all_media. apply order_by_in. simpl.
    apply in_or_app. right. now left.
Qed.

Lemma select_media_in (lib : library) (param : string) (item : Media.row) :
  select_media lib param = Some item ->
  In item (media lib) /\ id_eq param (Media.id item) = true.
Proof. intros H. now apply find_some in H. Qed.

(** X19.  The admin deletes a media item: the item the route parameter
    selects is taken out of the table, the others stay as they are, and the
    file of its name is taken out of the upload directory, the other files
    staying; the item is not found under that parameter afterwards.  A
    parameter that selects nothing changes nothing. *)
Theorem media_delete_removes_the_item (lib : library) (user : Session.user)
    (id : string) :
  Session.role user = "admin" ->
  NoDup (map Media.id (media lib)) ->
  let lib' := fst (post_media_delete lib (Some user) id) in
  snd (post_media_delete lib (Some user) id) = to "/admin/media" /\
  select_media lib' id = None /\
  match select_media lib id with
  | None => lib' = lib
  | Some item =>
      (forall m, In m (media lib') <-> In m (media lib) /\ m <> item) /\
      (forall f, In f (uploads lib') <-> In f (uploads lib) /\ f <> Media.filename item) /\
      seq_media lib' = seq_media lib
  end.
Proof.
  intros Hrole Hnd. cbv zeta. unfold post_media_delete, Library.requireAuth.
  rewrite Hrole. simpl negb. cbv iota.
  destruct (select_media lib id) as [item|] eqn:Hsel; simpl; [|now repeat split].
  destruct (select_media_in _ _ _ Hsel) as [Hin Hm].
  split; [reflexivity|]. split; [|split; [|split; [|reflexivity]]].
  - unfold select_media. simpl.
    destruct (find _ _) as [c|] eqn:Hf; [|reflexivity].
    apply find_some in Hf as [Hc Hmc]. apply filter_In in Hc as [_ Hne].
    rewrite (id_eq_same _ _ _ Hm) in Hmc. apply Z.eqb_eq in Hmc.
    rewrite <- Hmc, Z.eqb_refl in Hne. discriminate Hne.
  - intros m. rewrite filter_In, negb_true_iff, Z.eqb_neq. split.
    + intros [Hmin Hne]. split; [exact Hmin | congruence].
    + intros [Hmin Hne]. split; [exact Hmin|]. intros E. apply Hne.
      eapply key_inj; eauto.
  - intros f. rewrite filter_In, negb_true_iff, String.eqb_neq. tauto.
Qed.

(** X20.  The library starts empty and every upload and every delete keeps
    it in order: the keys of the items are distinct, none exceeds the
    counter of the table, so a key is never given twice, and each item is
    addressed under [/public/uploads/] by the name of its file. *)
Theorem library_stays_in_order (basename : code_units -> code_units) (stamp : Z)
    (now : nat -> string) (lib : library) (session : option Session.user)
    (file : option upload) (id : string) :
  library_ok empty_library /\
  (library_ok lib ->
   library_ok (fst (post_media_upload basename stamp now lib session file)) /\
   library_ok (fst (post_media_delete lib session id))).
Proof.
  split.
  - split; [constructor | intros m []].
  - intros (Hnd & Hm). split.
    + unfold post_media_upload, Library.requireAuth.
      destruct session as [user|]; [|now split].
      destruct file as [f|]; [|now split]. simpl.
      destruct (next_rowid_above (seq_media lib) (map Media.id (media lib)))
        as [Hseq Hnew].
      split; simpl.
      * rewrite map_app. simpl.
        apply NoDup_snoc; [apply next_rowid_fresh | exact Hnd].
      * intros m Hin. apply in_app_or in Hin as [Hin|[<-|[]]].
        -- destruct (Hm m Hin) as [H1 H2]. split; [lia | exact H2].
        -- simpl. split; [lia | reflexivity].
    + unfold post_media_delete, Library.requireAuth.
      destruct session as [user|]; [|now split].
      destruct (negb _); [now split|].
      destruct (select_media lib id) as [item|]; [|now split]. simpl.
      split; simpl.
      * now apply NoDup_map_filter_any.
      * intros m Hin. apply filter_In in Hin as [Hin _]. now apply Hm.
Qed.

(** ** A move and the move back *)

(** The table after a block at position [k] of a page numbered 1..N has been
    moved by [step] (-1 for up, 1 for down) to a position of the page. *)
Lemma post_blocks_move_step (now : nat -> string) (db : database)
    (user : Session.user) (blockId : string) (dir : field) (block : Block.row)
    (step : Z) :
  primary_key db ->
  select_block db blockId = Some block ->
  gapless db (Block.page_id block) ->
  field_is dir "up" = true /\ step = -1 \/ field_is dir "down" = true /\ step = 1 ->
  1 <= Block.position block + step <=
    Z.of_nat (List.length (page_blocks db (Block.page_id block))) ->
  exists b : Block.row,
    In b (page_blocks db (Block.page_id block)) /\
    Block.position b = Block.position block + step /\
    blocks (fst (post_blocks_move now db (Some user) blockId dir)) =
    map (swapped block b (now 0%nat) (now 1%nat)) (blocks db).
Proof.
  intros Hk Hsel Hg Hdir Hrange.
  pose proof (select_block_in _ _ _ Hsel) as Hin.
  destruct (findIndex_listing db block Hk Hin Hg) as (Hidx & Hnth & Hpos).
  unfold post_blocks_move, requireAuth. rewrite Hsel. cbv zeta.
  set (L := select_blocks_of_page db (Block.page_id block)) in *.
  set (idx := findIndex _ L) in *.
  assert (HL : List.length L = List.length (page_blocks db (Block.page_id block)))
    by apply select_blocks_of_page_length.
  destruct (Z.eqb_spec idx (-1)) as [|_]; [lia|].
  assert (Hswap :
    (if field_is dir "down" then idx + 1
     else if field_is dir "up" then idx - 1 else idx) = idx + step).
  { destruct Hdir as [[Hu ->]|[Hd ->]].
    - rewrite (field_is_up_down _ Hu), Hu. lia.
    - now rewrite Hd. }
  rewrite Hswap.
  destruct (Z.ltb_spec (idx + step) 0) as [|_]; [lia|].
  destruct (Z.geb_spec (idx + step) (Z.of_nat (List.length L))) as [|_]; [lia|].
  simpl orb. cbv iota. rewrite Hnth.
  destruct (nth_error L (Z.to_nat (idx + step))) as [b|] eqn:Hb.
  - pose proof (listing_nth_position _ _ _ _ Hg Hb) as Hpb.
    exists b. split; [|split].
    + apply nth_error_In in Hb. apply in_select_blocks_of_page in Hb.
      now apply in_page_blocks.
    + lia.
    + simpl fst. rewrite two_updates_swapped; [reflexivity|].
      intros E. apply nth_error_In, in_select_blocks_of_page in Hb as [Hb _].
      assert (block = b) by (eapply key_inj; eauto). subst b. lia.
  - apply nth_error_None in Hb. lia.
Qed.

Lemma gapless_positions_distinct (db : database) (p : Z) :
  gapless db p -> NoDup (map Block.position (page_blocks db p)).
Proof.
  intros Hg. eapply Permutation_NoDup; [apply Permutation_sym, Hg|].
  apply (seq_sorted_nodup 1).
Qed.

Lemma content_swapped (a b : Block.row) (ta tb : string) (c : Block.row) :
  content (swapped a b ta tb c) =
  (Block.id c, Block.page_id c, Block.type c, Block.data_json c,
   position_after_swap a b c).
Proof.
  unfold content, swapped, position_after_swap.
  destruct (Block.id c =? Block.id a); [reflexivity|].
  now destruct (Block.id c =? Block.id b).
Qed.

(** X21.  On a page numbered 1..N, moving a block one way and then back the
    other way, when the first move stays on the page, puts every block of
    the table where it was: keys, pages, types, contents and positions are
    those before the two moves, only time stamps have changed. *)
Theorem move_and_move_back (now now' : nat -> string) (db : database)
    (user : Session.user) (blockId : string) (dir back : field) (block : Block.row)
    (step : Z) :
  primary_key db ->
  select_block db blockId = Some block ->
  gapless db (Block.page_id block) ->
  field_is dir "up" = true /\ field_is back "down" = true /\ step = -1 \/
  field_is dir "down" = true /\ field_is back "up" = true /\ step = 1 ->
  1 <= Block.position block + step <=
    Z.of_nat (List.length (page_blocks db (Block.page_id block))) ->
  let db1 := fst (post_blocks_move now db (Some user) blockId dir) in
  let db2 := fst (post_blocks_move now' db1 (Some user) blockId back) in
  map content (blocks db2) = map content (blocks db).
Proof.
  intros Hk Hsel Hg Hdir Hrange db1 db2.
  set (p := Block.page_id block) in *.
  pose proof (select_block_in _ _ _ Hsel) as Hin.
  assert (Hdir1 : field_is dir "up" = true /\ step = -1 \/
                  field_is dir "down" = true /\ step = 1) by tauto.
  assert (Hdir2 : field_is back "up" = true /\ - step = -1 \/
                  field_is back "down" = true /\ - step = 1)
    by (destruct Hdir as [(_ & H & ->)|(_ & H & ->)]; auto).
  destruct (post_blocks_move_step now db user blockId dir block step Hk Hsel Hg Hdir1
              Hrange) as (b & Hb & Hpb & Hdb1).
  fold db1 in Hdb1. fold p in Hb.
  apply in_page_blocks in Hb as [Hb Hbp].
  assert (Hab : Block.id block <> Block.id b).
  { intros E. assert (block = b) by (eapply key_inj; eauto). subst b.
    destruct Hdir1 as [[_ ->]|[_ ->]]; lia. }
  destruct (post_blocks_move_gapless now db (Some user) blockId dir p Hk Hg)
    as [Hk1 Hg1]. fold db1 in Hk1, Hg1.
  set (f := swapped block b (now 0%nat) (now 1%nat)) in *.
  assert (Hfid : forall c, Block.id (f c) = Block.id c /\
                           Block.page_id (f c) = Block.page_id c).
  { intros c. unfold f, swapped.
    destruct (Block.id c =? Block.id block); [now split|].
    now destruct (Block.id c =? Block.id b). }
  assert (Hfblock : Block.position (f block) = Block.position b).
  { unfold f, swapped. now rewrite Z.eqb_refl. }
  assert (Hfb : Block.position (f b) = Block.position block).
  { unfold f, swapped. apply Z.eqb_neq in Hab. rewrite Z.eqb_sym, Hab.
    now rewrite Z.eqb_refl. }
  assert (Hsel1 : select_block db1 blockId = Some (f block)).
  { unfold select_block. rewrite Hdb1.
    rewrite find_map by (intros c; now rewrite (proj1 (Hfid c))).
    fold (select_block db blockId). now rewrite Hsel. }
  assert (Hlen : List.length (page_blocks db1 p) = List.length (page_blocks db p)).
  { unfold page_blocks. rewrite Hdb1.
    rewrite filter_of_page_map by (intros c; apply Hfid). apply length_map. }
  assert (Hp1 : Block.page_id (f block) = p) by apply Hfid.
  destruct (post_blocks_move_step now' db1 user blockId back (f block) (- step) Hk1
              Hsel1) as (b' & Hb' & Hpb' & Hdb2); auto.
  { now rewrite Hp1. }
  { rewrite Hp1, Hlen, Hfblock, Hpb.
    assert (Hinp : In block (page_blocks db p)) by (apply in_page_blocks; auto).
    pose proof (gapless_bound db p block Hg Hinp). lia. }
  fold db2 in Hdb2. rewrite Hp1 in Hb'.
  assert (Hb'eq : b' = f b).
  { apply (key_inj Block.position (page_blocks db1 p));
      [now apply gapless_positions_distinct | exact Hb' | | lia].
    apply in_page_blocks. rewrite Hdb1. split; [now apply in_map|].
    rewrite (proj2 (Hfid b)). exact Hbp. }
  subst b'. rewrite Hdb2, Hdb1, !map_map. apply map_ext_in. intros c Hc.
  rewrite content_swapped.
  pose proof (content_swapped block b (now 0%nat) (now 1%nat) c) as Hfc.
  fold f in Hfc. unfold content in Hfc. injection Hfc as -> -> -> -> Hpos.
  unfold content. f_equal.
  unfold position_after_swap at 1.
  rewrite !(proj1 (Hfid _)), Hfb, Hfblock, Hpos.
  destruct (Z.eqb_spec (Block.id c) (Block.id block)) as [E|NE].
  - now rewrite (key_inj Block.id (blocks db) c block Hk Hc Hin E).
  - destruct (Z.eqb_spec (Block.id c) (Block.id b)) as [E|NE'].
    + now rewrite (key_inj Block.id (blocks db) c b Hk Hc Hb E).
    + now apply position_after_swap_other.
Qed.

(** ** What a quiz must look like *)

(** X22.  The editor of a quiz accepts whatever parses to an object whose
    [questions] is an array, and asks for nothing more: the title and the
    shape of the questions are not looked at, an empty array will do.  What
    is written is the text [JSON.stringify] makes of the parsed value, and no
    validation error is rendered. *)
Theorem quiz_needs_only_a_questions_array (JSON_parse : string -> option JSON.value)
    (JSON_stringify : JSON.value -> string) (now : nat -> string) (db : database)
    (user : Session.user) (blockId : string) (block : Block.row) (form : form)
    (posted : string) (props : list (string * JSON.value)) (qs : list JSON.value) :
  select_block db blockId = Some block ->
  Block.type block = "quiz" ->
  form "quiz_json" = Some posted ->
  JSON_parse posted = Some (JSON.Obj props) ->
  JSON.get (JSON.Obj props) "questions" = Some (JSON.Arr qs) ->
  let edited := post_blocks_edit JSON_parse JSON_stringify now db (Some user) blockId
                  form in
  fst edited =
    update_block_data_json db (JSON_stringify (JSON.Obj props)) (now 0%nat)
      (Block.id block) /\
  forall e, snd edited <> render 200 e.
Proof.
  intros Hsel Hty Hform Hparse Hq. cbv zeta.
  unfold post_blocks_edit, requireAuth. rewrite Hsel. cbv zeta.
  assert (Hdata : edited_data JSON_parse (Block.type block) form =
                  inr (JSON.Obj props)).
  { unfold edited_data. rewrite Hty. simpl String.eqb. cbv iota.
    unfold parseJsonSafe_field, parseJsonSafe. rewrite Hform, Hparse.
    now rewrite Hq. }
  rewrite Hdata.
  destruct (select_page_by_key db (Block.page_id block)); split;
    try reflexivity; discriminate.
Qed.

(** ** The theorems at work on the example site *)

Lemma site_primary_key : primary_key site.
Proof.
  unfold primary_key. vm_compute.
  repeat (constructor; [simpl; intuition discriminate|]). constructor.
Defined.

Lemma site_gapless : gapless site 1.
Proof. unfold gapless. vm_compute. apply Permutation_refl. Defined.

(** An editor adds an image to page 1, moves block 2 up, deletes block 1 and
    moves block 3 down, a visitor without a session tries to delete block 2:
    the positions of page 1 are still 1..N. *)
Lemma positions_stay_gapless_on_site :
  gapless
    (serve_all JSON.stringify site
       [mk_request (Some editor) noon (add_block "1" (Some "image"));
        mk_request (Some editor) noon (move_block "2" (Some "up"));
        mk_request (Some admin) noon (delete_block_of "1");
        mk_request (Some editor) noon (move_block "3" (Some "down"));
        mk_request None noon (delete_block_of "2")])
    1.
Proof.
  apply positions_stay_gapless; [exact site_primary_key | exact site_gapless].
Defined.


(** An image is added to page 1 of the example site, which has two blocks:
    it gets position 3 and closes the listing. *)
Lemma add_appends_on_site :
  exists new : Block.row,
    Block.position new = 3 /\
    post_blocks_add JSON.stringify noon site (Some editor) "1" (Some "image") =
      (with_blocks site (blocks site ++ [new]) (Block.id new),
       redirect (blocks_url 1)) /\
    select_blocks_of_page
      (fst (post_blocks_add JSON.stringify noon site (Some editor) "1" (Some "image")))
      1 =
    select_blocks_of_page site 1 ++ [new].
Proof.
  destruct (add_appends_at_count_plus_one JSON.stringify noon site editor "1"
              (Page.mk 1 "Sensors 101" "sensors-101" "undergrad" "published"
                 "2024-04-03T08:00:00.000Z" "2024-04-03T08:00:00.000Z")
              "image" eq_refl (or_intror (or_introl eq_refl)))
    as [Hadd Hlast].
  eexists. split; [|split; [exact Hadd | exact (Hlast site_gapless)]].
  reflexivity.
Defined.

(** A page is posted with the title [Sensors again] and the slug of page 1,
    and the admin posts a user named [sam]: both are told that the name is
    taken.  The same slug posted with an empty title, and [sam] posted
    without a password, are told which field is missing. *)
Lemma duplicate_is_reported_on_site :
  post_pages_new slugify_ascii noon site (Some editor) (Some "Sensors again")
    (Some "sensors-101") None None =
    (site, render 200 (admin_page_form editor None
                         (Some "Slug already exists. Choose another."))) /\
  post_users_new hash_plain noon site (Some admin) (Some "sam") (Some "pw")
    (Some "editor") =
    (site, render 200 (admin_users admin (select_users site)
                         (Some "Username already exists."))) /\
  post_pages_new slugify_ascii noon site (Some editor) (Some "")
    (Some "sensors-101") None None =
    (site, render 200 (admin_page_form editor None
                         (Some "Title and slug are required."))) /\
  post_users_new hash_plain noon site (Some admin) (Some "sam") None
    (Some "editor") =
    (site, render 200 (admin_users admin (select_users site)
                         (Some "Username and password required."))).
Proof.
  split; [|split; [|split]].
  - apply (proj1 (duplicate_is_reported_as_taken slugify_ascii hash_plain noon site
                    editor) (Some "Sensors again") (Some "sensors-101") None None
             (Page.mk 1 "Sensors 101" "sensors-101" "undergrad" "published"
                "2024-04-03T08:00:00.000Z" "2024-04-03T08:00:00.000Z"));
      [reflexivity | simpl; auto | reflexivity | discriminate].
  - apply (proj1 (proj2 (duplicate_is_reported_as_taken slugify_ascii hash_plain noon
                           site admin)) (Some "sam") (Some "pw") (Some "editor")
             (User.mk 2 "sam" (hash_plain "s3cret") "editor"
                "2024-04-02T08:00:00.000Z"));
      [reflexivity | reflexivity | reflexivity | simpl; auto | reflexivity].
  - apply (proj1 (proj2 (proj2 (duplicate_is_reported_as_taken slugify_ascii
                                  hash_plain noon site editor)))).
    left. reflexivity.
  - apply (proj2 (proj2 (proj2 (duplicate_is_reported_as_taken slugify_ascii
                                  hash_plain noon site admin))));
      [reflexivity | right; reflexivity].
Defined.

(** The quiz block of the example site is posted a text that is no JSON: the
    editor comes back with the error and the stored quiz.  Its text block is
    posted a heading and no body: the heading and an empty body are
    written. *)
Lemma edit_rejects_broken_quiz_on_site :
  post_blocks_edit JSON.parse JSON.stringify noon site (Some editor) "1"
    (fun k => if (k =? "quiz_json")%string then Some "{oops" else None) =
  (site,
   render 200
     (admin_block_edit editor
        (Some (Page.mk 1 "Sensors 101" "sensors-101" "undergrad" "published"
                 "2024-04-03T08:00:00.000Z" "2024-04-03T08:00:00.000Z"))
        (Block.mk 1 1 "quiz" (JSON.stringify (default_data (Some "quiz"))) 1
           "2024-04-03T09:00:00.000Z" "2024-04-03T09:00:00.000Z")
        (default_data (Some "quiz"))
        (Some "Invalid quiz JSON. Ensure it has { title, questions: [...] }."))) /\
  fst (post_blocks_edit JSON.parse JSON.stringify noon site (Some editor) "2"
         (fun k => if (k =? "heading")%string then Some "Wheels" else None)) =
  update_block_data_json site
    (JSON.stringify (JSON.Obj [("heading", JSON.Str "Wheels"); ("body", JSON.Str "")]))
    (noon 0%nat) 2.
Proof.
  split.
  - refine (proj1 (edit_validates_quiz_only JSON.parse JSON.stringify noon site editor
                     "1" _ _ eq_refl) eq_refl _).
    intros props qs H. vm_compute in H. discriminate H.
  - destruct (proj2 (edit_validates_quiz_only JSON.parse JSON.stringify noon site
                       editor "2"
                       (Block.mk 2 1 "text" (JSON.stringify (default_data (Some "text")))
                          2 "2024-04-03T09:05:00.000Z" "2024-04-03T09:05:00.000Z")
                       (fun k => if (k =? "heading")%string then Some "Wheels" else None)
                       eq_refl)
                (or_introl eq_refl))
      as (props & Hfst & _ & Hprops & _).
    rewrite Hfst, Hprops. reflexivity.
Defined.

(** Page 1 of the example site with the payload of its text block damaged:
    the public page is rendered, the block shown with empty data. *)
Lemma corrupt_payload_on_site :
  let damaged :=
    Block.mk 2 1 "text" "{oops" 2 "2024-04-03T09:05:00.000Z"
      "2024-04-03T09:05:00.000Z" in
  let db := update_block_data_json site "{oops" "2024-04-03T09:05:00.000Z" 2 in
  exists shown,
    get_page JSON.parse db None "sensors-101" =
      render 200
        (public_page
           (Page.mk 1 "Sensors 101" "sensors-101" "undergrad" "published"
              "2024-04-03T08:00:00.000Z" "2024-04-03T08:00:00.000Z")
           shown None) /\
    map block shown = select_blocks_of_page db 1 /\
    In (mk_rendered damaged (JSON.Obj [])) shown.
Proof.
  cbv zeta.
  refine (proj2 (corrupt_payload_reads_as_empty JSON.parse
                   (update_block_data_json site "{oops" "2024-04-03T09:05:00.000Z" 2)
                   None "sensors-101"
                   (Page.mk 1 "Sensors 101" "sensors-101" "undergrad" "published"
                      "2024-04-03T08:00:00.000Z" "2024-04-03T08:00:00.000Z")
                   (Block.mk 2 1 "text" "{oops" 2 "2024-04-03T09:05:00.000Z"
                      "2024-04-03T09:05:00.000Z") eq_refl _ eq_refl)).
  vm_compute. auto.
Defined.


(** ** More of the theorems at work *)

Lemma site_schema : schema site.
Proof.
  split; [|split].
  - split; [distinct | split; [distinct | each_row]].
  - split; [distinct | split; [distinct | each_row]].
  - split; [distinct | each_row].
Defined.

(** The editor of the example site may not delete page 1, user 1 or the
    first upload. *)
Lemma only_admin_administers_on_site :
  post_pages_delete site (Some editor) "1" =
    (site, send 403 "Only admin can delete pages.") /\
  post_users_delete site (Some editor) "1" = (site, send 403 "Forbidden: admin only") /\
  post_media_delete shelf (Some editor) "1" =
    (shelf, refuses 403 "Only admin can delete media.").
Proof.
  assert (Hrole : Session.role editor <> "admin") by discriminate.
  destruct (only_admin_administers hash_plain noon site shelf editor "1" None None None
              Hrole) as (H1 & _ & H3 & _ & H5).
  split; [exact H1 | split; [exact H3 | exact H5]].
Defined.

(** The login [admin] / [admin123] on the example site: the session is that
    of a stored user whose hash matches. *)
Lemma login_needs_matching_hash_on_site :
  exists user : User.row,
    In user (users site) /\ User.username user = "admin" /\
    compare_plain "admin123" (User.password_hash user) = true.
Proof.
  destruct (login_needs_matching_hash compare_plain site None (Some admin)
              (Some "admin") (Some "admin123") (redirect "/admin") eq_refl)
    as [(_ & user & pw & Hin & Hu & Hp & Hc & _)|(Hne & _)]; [|now destruct Hne].
  exists user. injection Hu as Hu. injection Hp as Hp. subst pw.
  split; [exact Hin | split; [now symmetry | exact Hc]].
Defined.

(** The example site is reached from a fresh file, so its rows are as the
    schema wants them. *)
Lemma reachable_keeps_schema_on_site : schema site.
Proof. exact (reachable_keeps_schema site site_reachable). Defined.

(** The editor posts a page titled [Motors] to the example site: it is
    stored as a draft, without a block, and the public route does not serve
    it. *)
Lemma new_page_on_site :
  let db' := fst (post_pages_new slugify_ascii noon site (Some editor) (Some "Motors")
                    (Some "motors") None None) in
  exists page : Page.row,
    pages db' = pages site ++ [page] /\
    Page.slug page = "motors" /\ Page.status page = "draft" /\
    page_blocks db' (Page.id page) = [] /\
    get_page JSON.parse db' None "motors" = render 404 (public_notfound None).
Proof.
  cbv zeta.
  destruct (new_page_is_stored_empty slugify_ascii noon site
              (fst (post_pages_new slugify_ascii noon site (Some editor) (Some "Motors")
                      (Some "motors") None None))
              editor (Some "Motors") (Some "motors") None None site_schema eq_refl)
    as (page & Hp & _ & Hslug & _ & Hst & _ & _ & Hempty & Hget).
  exists page. split; [exact Hp|]. split; [exact Hslug|]. split; [exact Hst|].
  split; [exact Hempty|].
  specialize (Hget JSON.parse None). rewrite Hst, Hslug in Hget. exact Hget.
Defined.

(** Page 1 of the example site is saved with a new title and its own slug:
    the row takes the title and keeps its key and creation time. *)
Lemma page_edit_on_site :
  post_pages_edit slugify_ascii noon site (Some editor) "1" (Some "Sensors 102")
    (Some "sensors-101") (Some "undergrad") (Some "published") =
  (with_pages site
     [Page.mk 1 "Sensors 102" "sensors-101" "undergrad" "published"
        "2024-04-03T08:00:00.000Z" (noon 0%nat)]
     1,
   redirect "/admin").
Proof.
  refine (page_edit_slug_rule slugify_ascii noon site editor "1"
            (Page.mk 1 "Sensors 101" "sensors-101" "undergrad" "published"
               "2024-04-03T08:00:00.000Z" "2024-04-03T08:00:00.000Z")
            (Some "Sensors 102") (Some "sensors-101") (Some "undergrad")
            (Some "published") eq_refl eq_refl _ _ _).
  - discriminate.
  - simpl. auto.
  - simpl. auto.
Defined.

(** An image added to page 1 of the example site gets the key 3 and opens in
    the editor with the empty image. *)
Lemma added_block_on_site :
  let added := fst (post_blocks_add JSON.stringify noon site (Some editor) "1"
                      (Some "image")) in
  exists block : Block.row,
    get_blocks_edit JSON.parse added (Some editor) "3" =
      (added,
       render 200
         (admin_block_edit editor
            (Some (Page.mk 1 "Sensors 101" "sensors-101" "undergrad" "published"
                     "2024-04-03T08:00:00.000Z" "2024-04-03T08:00:00.000Z"))
            block (default_data (Some "image")) None)) /\
    Block.id block = 3 /\ Block.position block = 3.
Proof.
  cbv zeta.
  destruct (added_block_opens_with_defaults noon site editor "1"
              (Page.mk 1 "Sensors 101" "sensors-101" "undergrad" "published"
                 "2024-04-03T08:00:00.000Z" "2024-04-03T08:00:00.000Z")
              "image" eq_refl (or_intror (or_introl eq_refl)))
    as (block & Hget & Hid & _ & _ & Hpos).
  exists block. split; [exact Hget | split; [exact Hid | exact Hpos]].
Defined.

(** The text block of the example site is saved with a heading and opened
    again: the editor shows the heading and an empty body. *)
Lemma saved_block_on_site :
  let form := fun k => if (k =? "heading")%string then Some "Wheels" else None in
  let saved := fst (post_blocks_edit JSON.parse JSON.stringify noon site (Some editor)
                      "2" form) in
  exists block : Block.row,
    get_blocks_edit JSON.parse saved (Some editor) "2" =
      (saved,
       render 200
         (admin_block_edit editor
            (Some (Page.mk 1 "Sensors 101" "sensors-101" "undergrad" "published"
                     "2024-04-03T08:00:00.000Z" "2024-04-03T08:00:00.000Z"))
            block
            (JSON.Obj [("heading", JSON.Str "Wheels"); ("body", JSON.Str "")]) None)).
Proof.
  cbv zeta. eexists.
  exact (saved_block_opens_as_saved noon site editor "2"
           (Block.mk 2 1 "text" (JSON.stringify (default_data (Some "text"))) 2
              "2024-04-03T09:05:00.000Z" "2024-04-03T09:05:00.000Z")
           (fun k => if (k =? "heading")%string then Some "Wheels" else None)
           (JSON.Obj [("heading", JSON.Str "Wheels"); ("body", JSON.Str "")])
           eq_refl eq_refl (well_formed_payload (text "Wheels" ""))).
Defined.

(** The quiz, first block of page 1 of the example site, is deleted: the
    text block is what is left, at position 1. *)
Lemma delete_on_site :
  let db' := fst (post_blocks_delete noon site (Some editor) "1") in
  map Block.id (select_blocks_of_page db' 1) = [2] /\
  map Block.type (select_blocks_of_page db' 1) = ["text"] /\
  map Block.position (select_blocks_of_page db' 1) = [1] /\
  select_block db' "1" = None.
Proof.
  cbv zeta.
  destruct (delete_keeps_the_order noon site editor "1"
              (Block.mk 1 1 "quiz" (JSON.stringify (default_data (Some "quiz"))) 1
                 "2024-04-03T09:00:00.000Z" "2024-04-03T09:00:00.000Z")
              site_primary_key eq_refl)
    as (Hid & Hty & _ & Hpos & _ & Hsel).
  split; [exact Hid | split; [exact Hty | split; [exact Hpos | exact Hsel]]].
Defined.

(** Block 2 of the example site is moved without a direction: it stays
    second and only its time stamp is written. *)
Lemma move_without_direction_on_site :
  map Block.position
    (blocks (fst (post_blocks_move noon site (Some editor) "2" None))) = [1; 2] /\
  snd (post_blocks_move noon site (Some editor) "2" None) = redirect (blocks_url 1).
Proof.
  rewrite (move_without_direction noon site editor "2" None
             (Block.mk 2 1 "text" (JSON.stringify (default_data (Some "text"))) 2
                "2024-04-03T09:05:00.000Z" "2024-04-03T09:05:00.000Z")
             site_primary_key eq_refl eq_refl eq_refl).
  split; reflexivity.
Defined.

(** Deleting block 2 of the example site, a block of page 1, leaves the
    pages, the users and the rows of page 7 as they are. *)
Lemma block_requests_on_site :
  let db' := fst (serve JSON.stringify site
                    (mk_request (Some editor) noon (delete_block_of "2"))) in
  page_blocks db' 7 = page_blocks site 7 /\
  pages db' = pages site /\ users db' = users site.
Proof.
  cbv zeta.
  refine (block_requests_stay_on_their_page JSON.stringify site
            (mk_request (Some editor) noon (delete_block_of "2")) 7
            site_primary_key _).
  discriminate.
Defined.

(** The admin of the example site makes the account [kim] with no role
    posted: [kim] can log in and is an editor. *)
Lemma created_user_on_site :
  let db' := fst (post_users_new hash_plain noon site (Some admin) (Some "kim")
                    (Some "pw1") None) in
  post_login compare_plain db' None (Some "kim") (Some "pw1") =
  (Some (Session.mk 3 "kim" "editor"), redirect "/admin").
Proof.
  cbv zeta.
  destruct (created_user_can_log_in hash_plain compare_plain noon site
              (fst (post_users_new hash_plain noon site (Some admin) (Some "kim")
                      (Some "pw1") None))
              admin (Some "kim") (Some "pw1") None
              (fun p => String.eqb_refl (hash_plain p)) eq_refl)
    as (user & Hu & _ & _ & _ & Hlogin).
  simpl in Hu. injection Hu as <-. exact (Hlogin None).
Defined.

(** The admin deletes the first upload of the example library: the second is
    what is left, with its file. *)
Lemma media_delete_on_shelf :
  let lib' := fst (post_media_delete shelf (Some admin) "1") in
  map Media.id (media lib') = [2] /\
  uploads lib' = ["1714560600000_arm.mp4"] /\
  select_media lib' "1" = None.
Proof.
  cbv zeta.
  assert (Hnd : NoDup (map Media.id (media shelf))).
  { simpl. repeat (constructor; [simpl; intuition discriminate|]). constructor. }
  destruct (media_delete_removes_the_item shelf admin "1" eq_refl Hnd)
    as (_ & Hnone & _).
  split; [reflexivity | split; [reflexivity | exact Hnone]].
Defined.

(** The quiz of the example site is moved down and up again: the blocks are
    where they were. *)
Lemma move_and_move_back_on_site :
  let db1 := fst (post_blocks_move noon site (Some editor) "1" (Some "down")) in
  let db2 := fst (post_blocks_move noon db1 (Some editor) "1" (Some "up")) in
  map Block.position (blocks db1) = [2; 1] /\
  map content (blocks db2) = map content (blocks site).
Proof.
  cbv zeta. split; [reflexivity|].
  refine (move_and_move_back noon noon site editor "1" (Some "down") (Some "up")
            (Block.mk 1 1 "quiz" (JSON.stringify (default_data (Some "quiz"))) 1
               "2024-04-03T09:00:00.000Z" "2024-04-03T09:00:00.000Z")
            1 site_primary_key eq_refl site_gapless _ _).
  - right. repeat split.
  - simpl. lia.
Defined.

(** The quiz of the example site is saved with an object that has an empty
    array of questions and nothing else: it is accepted and written. *)
Lemma quiz_without_questions_on_site :
  let posted := JSON.stringify (JSON.Obj [("questions", JSON.Arr [])]) in
  let form := fun k => if (k =? "quiz_json")%string then Some posted else None in
  fst (post_blocks_edit JSON.parse JSON.stringify noon site (Some editor) "1" form) =
  update_block_data_json site posted (noon 0%nat) 1.
Proof.
  cbv zeta.
  exact (proj1 (quiz_needs_only_a_questions_array JSON.parse JSON.stringify noon site
                  editor "1"
                  (Block.mk 1 1 "quiz" (JSON.stringify (default_data (Some "quiz"))) 1
                     "2024-04-03T09:00:00.000Z" "2024-04-03T09:00:00.000Z")
                  (fun k => if (k =? "quiz_json")%string
                            then Some (JSON.stringify (JSON.Obj [("questions", JSON.Arr [])]))
                            else None)
                  (JSON.stringify (JSON.Obj [("questions", JSON.Arr [])]))
                  [("questions", JSON.Arr [])] [] eq_refl eq_refl eq_refl eq_refl
                  eq_refl)).
Defined.

(** The public route serves [sensors-101] of the example site, a published
    page, and answers 404 for [motors], which no page is called. *)
Lemma public_page_on_site :
  (exists page : Page.row,
     In page (pages site) /\ Page.slug page = "sensors-101" /\
     Page.status page = "published") /\
  get_page JSON.parse site None "motors" = render 404 (public_notfound None).
Proof.
  split.
  - destruct (proj1 (public_page_is_published JSON.parse site None "sensors-101")
                (Page.mk 1 "Sensors 101" "sensors-101" "undergrad" "published"
                   "2024-04-03T08:00:00.000Z" "2024-04-03T08:00:00.000Z")
                (renderBlocks JSON.parse (select_blocks_of_page site 1)) None 200
                eq_refl)
      as (Hin & Hslug & Hstatus & _).
    eexists. split; [exact Hin | split; [exact Hslug | exact Hstatus]].
  - apply (proj2 (public_page_is_published JSON.parse site None "motors")).
    intros page [<-|[]] H. discriminate H.
Defined.

(** A block of the type [audio] is not added to page 1 of the example site,
    and nothing is added to a page 9. *)
Lemma add_needs_page_and_type_on_site :
  post_blocks_add JSON.stringify noon site (Some editor) "9" (Some "text") =
    (site, send 404 "Page not found") /\
  post_blocks_add JSON.stringify noon site (Some editor) "1" (Some "audio") =
    (site, rejected (SqliteError (SQLITE_CONSTRAINT_CHECK "type"))).
Proof.
  split.
  - exact (proj1 (add_needs_page_and_type JSON.stringify noon site editor "9"
                    (Some "text")) eq_refl).
  - refine (proj2 (add_needs_page_and_type JSON.stringify noon site editor "1"
                     (Some "audio"))
              (Page.mk 1 "Sensors 101" "sensors-101" "undergrad" "published"
                 "2024-04-03T08:00:00.000Z" "2024-04-03T08:00:00.000Z") eq_refl _).
    intros ty [= <-] H. simpl in H. intuition discriminate.
Defined.

(** The first start on a fresh file, and a second start after it: the admin
    logs in with the password of the first start. *)
Lemma restart_on_fresh_file :
  let started := seed hash_plain noon (initDb fresh_file) in
  seed (fun p => ("#" ++ p)%string) noon (initDb started) = started /\
  post_login compare_plain started None (Some "admin") (Some "admin123") =
    (Some (Session.mk 1 "admin" "admin"), redirect "/admin").
Proof.
  cbv zeta.
  destruct (restart_keeps_accounts hash_plain (fun p => ("#" ++ p)%string)
              compare_plain noon noon fresh_file) as (_ & Hsame & Hlogin).
  split; [exact Hsame | exact (Hlogin eq_refl None)].
Defined.

Lemma shelf_in_order : library_ok shelf.
Proof. split; [distinct | each_row]. Defined.

(** The example library is in order, and stays so when a file is added and
    when the first item is deleted. *)
Lemma library_in_order_on_shelf :
  library_ok
    (fst (post_media_upload (fun s => s) 1714561200000 noon shelf (Some editor)
            (Some (mk_upload [97; 47; 98]%N "text/plain" 3)))) /\
  library_ok (fst (post_media_delete shelf (Some admin) "1")).
Proof.
  split.
  - exact (proj1 (proj2 (library_stays_in_order (fun s => s) 1714561200000 noon shelf
                           (Some editor)
                           (Some (mk_upload [97; 47; 98]%N "text/plain" 3)) "1")
                    shelf_in_order)).
  - exact (proj2 (proj2 (library_stays_in_order (fun s => s) 1714561200000 noon shelf
                           (Some admin) None "1")
                    shelf_in_order)).
Defined.
